(** * ora: argument binding, row fetching and LOB streaming over ODPI-C

    A shallow embedding of [stmt.go], [rows.go] and [lob.go] of the [ora]
    driver.  Go code is written as functions in a small monad that threads
    the history of native (cgo) calls; the native library itself is an
    arbitrary oracle, so every statement below holds for every behaviour of
    ODPI-C. *)

From Stdlib Require Import Strings.String Strings.Ascii Strings.Byte DecimalString.
From stdpp Require Import base numbers list.

Local Open Scope string_scope.
Local Open Scope list_scope.
Local Open Scope Z_scope.

(** ** Go machine integers *)

Module GoInt.

(** [uint64], [C.uint64_t]: arithmetic wraps modulo 2^64. *)
Definition u64 (z : Z) : Z := z mod 2 ^ 64.

(** [uint32], [C.uint32_t]. *)
Definition u32 (z : Z) : Z := z mod 2 ^ 32.

(** [int], [int64], [C.int64_t]: two's complement on 64 bits. *)
Definition i64 (z : Z) : Z := (z + 2 ^ 63) mod 2 ^ 64 - 2 ^ 63.

(** [C.int16_t], [C.int8_t], [C.uint8_t]. *)
Definition i16 (z : Z) : Z := (z + 2 ^ 15) mod 2 ^ 16 - 2 ^ 15.
Definition i8 (z : Z) : Z := (z + 2 ^ 7) mod 2 ^ 8 - 2 ^ 7.
Definition u8 (z : Z) : Z := z mod 2 ^ 8.

(** [len(x)] of a slice or string, as an [int]. *)
Definition len {A} (l : list A) : Z := Z.of_nat (List.length l).

(** [len(s)] of a Go string: the number of bytes. *)
Definition slen (s : string) : Z := Z.of_nat (String.length s).

End GoInt.
Import GoInt.

(** ** Native handles and type numbers *)

(** A C pointer ([*C.dpiVar], [*C.dpiLob], [*C.dpiStmt]); [0] is NULL. *)
Definition handle := Z.

(** The [DPI_ORACLE_TYPE_*] and [DPI_NATIVE_TYPE_*] constants of [dpi.h].
    The header is not part of the sources; the code only compares these
    numbers in [switch] statements, which Go compiles only when the case
    constants are pairwise distinct, so they are kept symbolic.  Any other
    number is [TYPE_OTHER]. *)
Inductive dpiTypeNum : Type :=
| DPI_ORACLE_TYPE_VARCHAR | DPI_ORACLE_TYPE_NVARCHAR
| DPI_ORACLE_TYPE_CHAR | DPI_ORACLE_TYPE_NCHAR
| DPI_ORACLE_TYPE_ROWID | DPI_ORACLE_TYPE_RAW
| DPI_ORACLE_TYPE_NATIVE_FLOAT | DPI_ORACLE_TYPE_NATIVE_DOUBLE
| DPI_ORACLE_TYPE_NATIVE_INT | DPI_ORACLE_TYPE_NATIVE_UINT
| DPI_ORACLE_TYPE_NUMBER | DPI_ORACLE_TYPE_DATE
| DPI_ORACLE_TYPE_TIMESTAMP | DPI_ORACLE_TYPE_TIMESTAMP_TZ
| DPI_ORACLE_TYPE_TIMESTAMP_LTZ
| DPI_ORACLE_TYPE_INTERVAL_DS | DPI_ORACLE_TYPE_INTERVAL_YM
| DPI_ORACLE_TYPE_CLOB | DPI_ORACLE_TYPE_NCLOB
| DPI_ORACLE_TYPE_BLOB | DPI_ORACLE_TYPE_BFILE
| DPI_ORACLE_TYPE_STMT | DPI_ORACLE_TYPE_BOOLEAN
| DPI_ORACLE_TYPE_OBJECT
| DPI_ORACLE_TYPE_LONG_VARCHAR | DPI_ORACLE_TYPE_LONG_RAW
| DPI_NATIVE_TYPE_INT64 | DPI_NATIVE_TYPE_UINT64
| DPI_NATIVE_TYPE_FLOAT | DPI_NATIVE_TYPE_DOUBLE
| DPI_NATIVE_TYPE_BYTES | DPI_NATIVE_TYPE_TIMESTAMP
| DPI_NATIVE_TYPE_INTERVAL_DS | DPI_NATIVE_TYPE_INTERVAL_YM
| DPI_NATIVE_TYPE_LOB | DPI_NATIVE_TYPE_STMT
| DPI_NATIVE_TYPE_BOOLEAN | DPI_NATIVE_TYPE_ROWID
| TYPE_OTHER (n : Z).

(** [C.dpiExecMode]: a bit mask in C.  Only one bit is ever or-ed into
    [DPI_MODE_EXEC_DEFAULT], so the mask is kept as that bit. *)
Record dpiExecMode : Type := { COMMIT_ON_SUCCESS : bool }.
Definition DPI_MODE_EXEC_DEFAULT : dpiExecMode := {| COMMIT_ON_SUCCESS := false |}.
Definition or_COMMIT_ON_SUCCESS (m : dpiExecMode) : dpiExecMode :=
  {| COMMIT_ON_SUCCESS := true |}.

(** rows.go, lines 628-629 of the bundle. *)
Definition fetchRowCount : Z := 1.
Definition maxArraySize : Z := Z.shiftl 1 10.

(** lob.go *)
Definition CheckLOBWrite : bool := true.

(** ** Go values *)

(** Floating point numbers are only moved around by this code, never
    computed with; they are carried as their IEEE bit patterns. *)
Definition float32 := Z.
Definition float64 := Z.

(** [time.Time], as the accessors used by the timestamp setter see it;
    [zoneOffset] is the second result of [t.Zone()], in seconds. *)
Record Time : Type := {
  Year : Z; Month : Z; Day : Z;
  Hour : Z; Minute : Z; Second : Z; Nanosecond : Z;
  zoneOffset : Z
}.

(** The error a caller's reader returns: [io.EOF], or another error, known
    by its message. *)
Inductive readError : Type :=
| atEOF
| failing (msg : string).

(** An [io.Reader] of the caller's, by what it still has to hand out: a
    list of pieces, each with the error the reader returns along with the
    last byte of the piece ([None] is nil).  [Read(p)] hands out the first
    piece, or as much of it as fits [p]; the rest then stays and the error
    is nil.  With no piece left [Read] returns [(0, io.EOF)].  A
    [bytes.Reader] over [content] is the one piece [(content, None)]; a
    piece shorter than the buffer is a short read; a piece with an error is
    a read that fails.  Such a reader ends and makes no native call of its
    own.  A [Lob] around the driver's own [dpiLobReader], whose [Read] asks
    the native layer and ends only when the native layer ends the LOB, is
    not covered. *)
Definition ioReader : Type := list (list byte * option readError).

(** [Lob]: an embedded [io.Reader] and the CLOB flag.  [None] is the nil
    interface. *)
Record Lob : Type := {
  Reader : option ioReader;
  IsClob : bool
}.

(** The dynamic values that reach the driver as [driver.Value] /
    [interface{}].  Every type the code switches on has a constructor;
    every other dynamic type is [VOther] with its [%T] name, or
    [VOtherSlice] with its elements when its [reflect.Kind] is [Slice]. *)
#[warnings="-register-all"]
Inductive value : Type :=
| VNil
| VLob (v : Lob) | VLobs (v : list Lob)
| VInt (v : Z) | VInts (v : list Z)
| VInt32 (v : Z) | VInt32s (v : list Z)
| VInt64 (v : Z) | VInt64s (v : list Z)
| VUint (v : Z) | VUints (v : list Z)
| VUint32 (v : Z)
| VUint64 (v : Z) | VUint64s (v : list Z)
| VFloat32 (v : float32) | VFloat32s (v : list float32)
| VFloat64 (v : float64) | VFloat64s (v : list float64)
| VBool (v : bool) | VBools (v : list bool)
| VBytes (v : list byte) | VBytess (v : list (list byte))
| VString (v : string) | VStrings (v : list string)
| VTime (v : Time) | VTimes (v : list Time)
| VUint8 (v : byte)
| VOut (Dest : value)              (* sql.Out{Dest: ...} *)
| VPtr (target : value)            (* a non-nil pointer *)
| VNilPtr (tyname : string)        (* a nil pointer of some type *)
| VOther (tyname : string)
| VOtherSlice (tyname : string) (elems : list value).

(** [driver.NamedValue] *)
Record NamedValue : Type := {
  Name : string;
  Ordinal : Z;
  Value : value
}.

(** [_, isByteSlice := v.([]byte)] *)
Definition isByteSlice (v : value) : bool :=
  match v with VBytes _ => true | _ => false end.

(** [reflect.ValueOf(v).Kind() == reflect.Slice], with [Len()] when so. *)
Definition sliceLen (v : value) : option Z :=
  match v with
  | VLobs l => Some (len l)
  | VInts l | VInt32s l | VInt64s l | VUints l | VUint64s l => Some (len l)
  | VFloat32s l | VFloat64s l => Some (len l)
  | VBools l => Some (len l)
  | VBytes l => Some (len l)
  | VBytess l => Some (len l)
  | VStrings l => Some (len l)
  | VTimes l => Some (len l)
  | VOtherSlice _ l => Some (len l)
  | _ => None
  end.

(** [reflect.ValueOf(v).Index(j).Interface()].  [Index] is defined on
    slices and on strings (where it yields a byte); it panics on every other
    kind and when [j] is out of range: [None]. *)
Definition reflectIndex (v : value) (j : nat) : option value :=
  match v with
  | VLobs l => VLob <$> l !! j
  | VInts l => VInt <$> l !! j
  | VInt32s l => VInt32 <$> l !! j
  | VInt64s l => VInt64 <$> l !! j
  | VUints l => VUint <$> l !! j
  | VUint64s l => VUint64 <$> l !! j
  | VFloat32s l => VFloat32 <$> l !! j
  | VFloat64s l => VFloat64 <$> l !! j
  | VBools l => VBool <$> l !! j
  | VBytes l => VUint8 <$> l !! j
  | VBytess l => VBytes <$> l !! j
  | VStrings l => VString <$> l !! j
  | VTimes l => VTime <$> l !! j
  | VString s => VUint8 <$> list_byte_of_string s !! j
  | VOtherSlice _ l => l !! j
  | _ => None
  end.

(** ** Go errors *)

(** Arguments of a format string, kept unrendered. *)
Inductive fmtArg : Type :=
| FInt (z : Z)                (* %d *)
| FPtr (p : handle)           (* %p *)
| FVal (v : value)            (* %#v *)
| FType (v : value)           (* %T *)
| FTypeNum (t : dpiTypeNum)   (* %d of a type number *)
| FMode (m : dpiExecMode).    (* %d of an execution mode *)

(** [context.Canceled] and [context.DeadlineExceeded]. *)
Inductive ctxError : Type := Canceled | DeadlineExceeded.

Inductive error : Type :=
| EOF                                                   (* io.EOF *)
| ErrShortWrite                                         (* io.ErrShortWrite *)
| OraErr (code : Z) (message : string)                  (* getError() *)
| Errorf (format : string) (args : list fmtArg)         (* errors.Errorf, errors.New *)
| Wrapf (cause : error) (format : string) (args : list fmtArg)
                                                        (* errors.Wrapf, errors.WithMessage *)
| CtxErr (e : ctxError).                                (* ctx.Err() *)

(** [err.Code()] of the value [getError] returns. *)
Definition Code (e : error) : Z :=
  match e with OraErr c _ => c | _ => 0 end.

(** [context.Context], as far as the driver looks at it: [ctx.Err()] on
    entry, and [ctx.Done()], on which the goroutine started by
    [ExecContext] and [QueryContext] selects.  [Done] is [None] when that
    goroutine never finds the context done (the context is not cancelled
    while the function runs, or the goroutine receives from [done] first);
    it is [Some k] when the goroutine finds the context done once the
    function has made [k] more native calls.  [context.Background()] is
    never done. *)
Record Context : Type := { Err : option ctxError; Done : option nat }.

(** ** The native layer *)

(** [dpiTimestamp], [dpiIntervalDS], [dpiIntervalYM], [dpiQueryInfo] and the
    [dpiData] cell, as the accessors [dpiData_get*] read them. *)
Record dpiTimestamp : Type := {
  ts_year : Z; ts_month : Z; ts_day : Z;
  ts_hour : Z; ts_minute : Z; ts_second : Z; ts_fsecond : Z;
  ts_tzHourOffset : Z; ts_tzMinuteOffset : Z
}.

Record dpiIntervalDS : Type := {
  ds_days : Z; ds_hours : Z; ds_minutes : Z; ds_seconds : Z; ds_fseconds : Z
}.

Record dpiIntervalYM : Type := { ym_years : Z; ym_months : Z }.

Record dpiData : Type := {
  isNull : Z;
  asBoolean : Z;
  asInt64 : Z;
  asUint64 : Z;
  asFloat : float32;
  asDouble : float64;
  asBytes : option (list byte);       (* None: a NULL [ptr] *)
  asTimestamp : dpiTimestamp;
  asIntervalDS : dpiIntervalDS;
  asIntervalYM : dpiIntervalYM;
  asLOB : handle;
  asStmt : handle
}.

Record dpiQueryInfo : Type := {
  qi_name : string;                    (* GoStringN(name, nameLength) *)
  oracleTypeNum : dpiTypeNum;
  defaultNativeTypeNum : dpiTypeNum;
  clientSizeInBytes : Z;
  precision : Z;
  scale : Z;
  nullOk : Z;
  objectType : handle
}.

(** Every call the Go code makes into the native layer, with the arguments
    it passes.  [newVar] and [getError] are Go helpers of the package whose
    bodies are not part of the sources; they are native-facing and are
    treated like the C entry points.  [dpiData_get v pos] is the read of
    the cell in slot [pos] of variable [v] as [Next] makes it: the member
    [isNull] and, for a cell that is not NULL, the member the accessor
    [C.dpiData_get*(d)] of the column's case returns. *)
Inductive ncall : Type :=
| getError
| newVar (isPlSQLArray : bool) (typ natTyp : dpiTypeNum) (arraySize bufSize : Z)
| dpiStmt_execute (stmt : handle) (mode : dpiExecMode)
| dpiStmt_executeMany (stmt : handle) (mode : dpiExecMode) (numIters : Z)
| dpiStmt_getRowCount (stmt : handle)
| dpiStmt_bindByPos (stmt : handle) (pos : Z) (v : handle)
| dpiStmt_bindByName (stmt : handle) (name : string) (nameLength : Z) (v : handle)
| dpiStmt_setFetchArraySize (stmt : handle) (arraySize : Z)
| dpiStmt_getQueryInfo (stmt : handle) (pos : Z)
| dpiStmt_define (stmt : handle) (pos : Z) (v : handle)
| dpiStmt_addRef (stmt : handle)
| dpiStmt_fetchRows (stmt : handle) (maxRows : Z)
| dpiStmt_getNumQueryColumns (stmt : handle)
| dpiData_get (v : handle) (pos : Z)
| dpiData_setNull (v : handle) (pos : Z)
| dpiData_setBool (v : handle) (pos : Z) (b : Z)
| dpiData_setInt64 (v : handle) (pos : Z) (x : Z)
| dpiData_setUint64 (v : handle) (pos : Z) (x : Z)
| dpiData_setFloat (v : handle) (pos : Z) (x : float32)
| dpiData_setDouble (v : handle) (pos : Z) (x : float64)
| dpiData_setTimestamp (v : handle) (pos : Z)
    (year month day hour minute second fsecond tzHour tzMinute : Z)
| dpiVar_setFromBytes (v : handle) (pos : Z) (bytes : list byte) (n : Z)
| dpiVar_setFromLob (v : handle) (pos : Z) (lob : handle)
| dpiConn_newTempLob (conn : handle) (typ : dpiTypeNum)
| dpiLob_getChunkSize (lob : handle)
| dpiLob_readBytes (lob : handle) (offset amount : Z)
| dpiLob_openResource (lob : handle)
| dpiLob_writeBytes (lob : handle) (offset : Z) (bytes : list byte) (n : Z)
| dpiLob_getSize (lob : handle)
| dpiLob_flushBuffer (lob : handle)
| dpiLob_closeResource (lob : handle)
| dpiConn_breakExecution (conn : handle).

(** What comes back from a call: the [int] status ([true] is
    [DPI_SUCCESS]) and whatever the callee stored through its out
    pointers. *)
Inductive nresp : Type :=
| RStatus (ok : bool)
| ROut (ok : bool) (out : Z)
| RFetch (ok : bool) (bufferRowIndex numRowsFetched moreRows : Z)
| RInfo (ok : bool) (info : dpiQueryInfo)
| RBytes (ok : bool) (n : Z) (bytes : list byte)
| RError (code : Z) (message : string)
| RData (d : dpiData).

(** The status of a response; a response of a shape the call cannot produce
    counts as [DPI_FAILURE]. *)
Definition succeeded (r : nresp) : bool :=
  match r with
  | RStatus ok | ROut ok _ | RFetch ok _ _ _ | RInfo ok _ | RBytes ok _ _ => ok
  | RError _ _ | RData _ => false
  end.

(** The value behind an out pointer after the call; [dflt] is what the
    variable held before, kept when the callee did not store to it. *)
Definition outZ (r : nresp) (dflt : Z) : Z :=
  match r with
  | ROut _ z => z
  | RBytes _ n _ => n
  | _ => dflt
  end.

Definition outBytes (r : nresp) : list byte :=
  match r with RBytes _ _ b => b | _ => [] end.

Definition outError (r : nresp) : error :=
  match r with RError c m => OraErr c m | _ => OraErr 0 "" end.

(** The native layer is a function of the calls made so far and the call
    being made, so a call may answer differently each time. *)
Definition history := list ncall.
Definition Native := history -> ncall -> nresp.

(** ** The monad of Go code that calls native code *)

(** A computation either yields a value or panics (a Go run-time panic:
    failed type assertion, index out of range, nil dereference). *)
Inductive res (A : Type) : Type :=
| Val (a : A)
| Panic (msg : string).
Arguments Val {A} a.
Arguments Panic {A} msg.

Definition M (A : Type) : Type := Native -> history -> res A * history.

Definition ret {A} (a : A) : M A := fun _ h => (Val a, h).

Definition bind {A B} (m : M A) (k : A -> M B) : M B :=
  fun dpi h =>
    match m dpi h with
    | (Val a, h') => k a dpi h'
    | (Panic msg, h') => (Panic msg, h')
    end.

Definition panic {A} (msg : string) : M A := fun _ h => (Panic msg, h).

(** One native call: ask the oracle, append the call to the history. *)
Definition call (c : ncall) : M nresp := fun dpi h => (Val (dpi h c), h ++ [c]).

Declare Scope go_scope.
Delimit Scope go_scope with go.
Notation "x <- m ;; k" := (bind m (fun x => k))
  (at level 100, m at next level, right associativity) : go_scope.
Notation "m ;;; k" := (bind m (fun _ => k))
  (at level 100, right associativity) : go_scope.
Local Open Scope go_scope.

(** [c.getError()] *)
Definition getErr : M error := r <- call getError ;; ret (outError r).

(** ** lob.go: streaming large objects *)

Definition NULL : handle := 0.

(** [dpiLobReader].  The embedded [*conn] only serves [getError]. *)
Record dpiLobReader : Type := {
  dlr_dpiLob : handle;
  dlr_offset : Z;                      (* C.uint64_t *)
  dlr_finished : bool
}.

(** What the native read left in the caller's buffer [p]: the bytes it
    delivered, over the front of [p]. *)
Definition fill (p got : list byte) : list byte :=
  take (List.length p) got ++ drop (List.length got) p.

(** [func (dlr *dpiLobReader) Read(p []byte) (int, error)].  The receiver
    may be nil.  The result is the reader after the call, the buffer after
    the call, and the two return values.  The [fmt.Printf] traces are left
    out. *)
Definition Read (dlr : option dpiLobReader) (p : list byte)
  : M (option dpiLobReader * list byte * (Z * option error)) :=
  match dlr with
  | None => ret (None, p, (0, Some (Errorf "read on nil dpiLobReader" [])))
  | Some r =>
    if dlr_finished r then ret (dlr, p, (0, Some EOF))
    else if len p =? 0 then ret (dlr, p, (0, None))
    else
      let n := u64 (len p) in
      resp <- call (dpiLob_readBytes (dlr_dpiLob r) (u64 (dlr_offset r + 1)) n) ;;
      let n := outZ resp n in
      let p' := fill p (outBytes resp) in
      if negb (succeeded resp) then
        err <- getErr ;;
        let finished := Code err =? 1403 in
        if finished then
          ret (Some {| dlr_dpiLob := dlr_dpiLob r;
                       dlr_offset := u64 (dlr_offset r + n);
                       dlr_finished := true |},
               p', (i64 n, Some EOF))
        else
          ret (Some {| dlr_dpiLob := dlr_dpiLob r;
                       dlr_offset := dlr_offset r;
                       dlr_finished := false |},
               p', (i64 n,
                   Some (Wrapf err "lob=%p offset=%d n=%d"
                           [FPtr (dlr_dpiLob r); FInt (dlr_offset r); FInt (len p)])))
      else
        ret (Some {| dlr_dpiLob := dlr_dpiLob r;
                     dlr_offset := u64 (dlr_offset r + n);
                     dlr_finished := dlr_finished r |},
             p', (i64 n, if n =? 0 then Some EOF else None))
  end.

(** [dpiLobWriter] *)
Record dpiLobWriter : Type := {
  dlw_dpiLob : handle;
  dlw_offset : Z;                      (* C.uint64_t *)
  dlw_opened : bool
}.

(** The part of [Write] after the resource is open. *)
Definition Write_bytes (dlw : dpiLobWriter) (lob : handle) (p : list byte)
  : M (dpiLobWriter * (Z * option error)) :=
  let n := u64 (len p) in
  match p with
  | [] => panic "index out of range"                       (* &p[0] *)
  | _ =>
    resp <- call (dpiLob_writeBytes lob (u64 (dlw_offset dlw + 1)) p n) ;;
    if negb (succeeded resp) then
      e <- getErr ;;
      let err := Wrapf e "writeBytes(%p, offset=%d, data=%d)"
                   [FPtr lob; FInt (dlw_offset dlw); FInt n] in
      let dlw := {| dlw_dpiLob := NULL; dlw_offset := dlw_offset dlw;
                    dlw_opened := dlw_opened dlw |} in
      call (dpiLob_closeResource lob) ;;;
      ret (dlw, (0, Some err))
    else
      let dlw := {| dlw_dpiLob := dlw_dpiLob dlw;
                    dlw_offset := u64 (dlw_offset dlw + n);
                    dlw_opened := dlw_opened dlw |} in
      if true && CheckLOBWrite then
        resp <- call (dpiLob_getSize lob) ;;
        let size := outZ resp 0 in
        if negb (size =? dlw_offset dlw) then
          ret (dlw, (i64 n,
                     Some (Errorf "%p size=%d, offset=%d"
                             [FPtr lob; FInt size; FInt (dlw_offset dlw)])))
        else ret (dlw, (i64 n, None))
      else ret (dlw, (i64 n, None))
  end.

(** [func (dlw *dpiLobWriter) Write(p []byte) (int, error)] *)
Definition Write (dlw : dpiLobWriter) (p : list byte)
  : M (dpiLobWriter * (Z * option error)) :=
  let lob := dlw_dpiLob dlw in
  if negb (dlw_opened dlw) then
    resp <- call (dpiLob_openResource lob) ;;
    if negb (succeeded resp) then
      e <- getErr ;;
      ret (dlw, (0, Some (Wrapf e "openResources(%p)" [FPtr lob])))
    else
      Write_bytes {| dlw_dpiLob := dlw_dpiLob dlw; dlw_offset := dlw_offset dlw;
                     dlw_opened := true |} lob p
  else Write_bytes dlw lob p.

(** [func (dlw *dpiLobWriter) Close() error]; the receiver may be nil. *)
Definition Close (dlw : option dpiLobWriter) : M (option dpiLobWriter * option error) :=
  match dlw with
  | None => ret (None, None)
  | Some w =>
    if dlw_dpiLob w =? NULL then ret (dlw, None)
    else
      let lob := dlw_dpiLob w in
      let w := {| dlw_dpiLob := NULL; dlw_offset := dlw_offset w;
                  dlw_opened := dlw_opened w |} in
      call (dpiLob_flushBuffer lob) ;;;
      resp <- call (dpiLob_closeResource lob) ;;
      if negb (succeeded resp) then
        e <- getErr ;;
        ret (Some w, Some (Wrapf e "closeResource(%p)" [FPtr lob]))
      else ret (Some w, None)
  end.

(** ** stmt.go: statements and argument binding *)

(** A Go slice: the backing array (its length is the capacity) and the
    length of the slice. *)
Record slice (A : Type) : Type := {
  backing : list A;
  slice_len : nat
}.
Arguments backing {A} s.
Arguments slice_len {A} s.

Definition nilSlice {A} : slice A := {| backing := []; slice_len := 0 |}.
Definition cap {A} (s : slice A) : Z := len (backing s).
(** [make([]T, n)] *)
Definition make {A} (zero : A) (n : nat) : slice A :=
  {| backing := replicate n zero; slice_len := n |}.
(** [s[:n]], for [n <= cap(s)] *)
Definition reslice {A} (s : slice A) (n : nat) : slice A :=
  {| backing := backing s; slice_len := n |}.
(** [s[i] = x], for [i < len(s)] *)
Definition store {A} (s : slice A) (i : nat) (x : A) : slice A :=
  {| backing := <[i := x]> (backing s); slice_len := slice_len s |}.
(** The elements [range s] visits. *)
Definition elements {A} (s : slice A) : list A := take (slice_len s) (backing s).

(** [conn], as far as statements look at it. *)
Record conn : Type := {
  dpiConn : handle;
  inTransaction : bool
}.

(** The address of one [C.dpiData] cell: the variable and the slot. *)
Definition cell : Type := handle * Z.

(** [statement].  The mutex is left out: a statement serialises its own
    operations, and one operation is modelled at a time. *)
Record statement : Type := {
  st_conn : conn;
  dpiStmt : handle;
  query : string;
  data : slice (list cell);
  vars : slice handle;
  PlSQLArrays : bool;
  arrLen : Z
}.

Definition set_vars_data (st : statement) (vs : slice handle) (ds : slice (list cell))
  : statement :=
  {| st_conn := st_conn st; dpiStmt := dpiStmt st; query := query st;
     data := ds; vars := vs; PlSQLArrays := PlSQLArrays st; arrLen := arrLen st |}.

Definition set_arrLen (st : statement) (n : Z) : statement :=
  {| st_conn := st_conn st; dpiStmt := dpiStmt st; query := query st;
     data := data st; vars := vars st; PlSQLArrays := PlSQLArrays st; arrLen := n |}.

(** Modelled from the spec: [st.newVar(isPlSQLArray, typ, natTyp,
    arraySize, bufSize)], whose body is not part of the sources.  It
    allocates one Native Variable Buffer, which "owns exactly N data slots";
    whether it succeeds, the handle and the error are the native layer's.
    On failure the variable is nil and there are no slots. *)
Definition st_newVar (isPlSQLArray : bool) (typ natTyp : dpiTypeNum)
    (arraySize bufSize : Z) : M (handle * list cell * option error) :=
  resp <- call (newVar isPlSQLArray typ natTyp arraySize bufSize) ;;
  match resp with
  | ROut true v =>
      ret (v, (fun j => (v, Z.of_nat j)) <$> seq 0 (Z.to_nat arraySize), None)
  | _ => ret (NULL, [], Some (outError resp))
  end.

(** The five setters a [dataSetter] variable can hold. *)
Inductive dataSetter : Type :=
| setLOB | setNumber | setBool | setBytes | setTimestamp.

(** The first loop of [bindVars]: the least and greatest length among the
    slice-valued arguments other than [[]byte]; [-1] when there is none. *)
Definition arrLens (args : list NamedValue) : Z * Z :=
  fold_left
    (fun '(minArrLen, maxArrLen) a =>
       if isByteSlice (Value a) then (minArrLen, maxArrLen)
       else match sliceLen (Value a) with
            | Some n =>
                (if (minArrLen =? -1) || (n <? minArrLen) then n else minArrLen,
                 if (maxArrLen =? -1) || (n >? maxArrLen) then n else maxArrLen)
            | None => (minArrLen, maxArrLen)
            end)
    args (-1, -1).

(** [if out, ok := value.(sql.Out); ok { value = out.Dest; if rv :=
    reflect.ValueOf(value); rv.Kind() == reflect.Ptr { value =
    rv.Elem().Interface() } }].  [None] is the panic of [Interface] on the
    zero [Value] that [Elem] returns for a nil pointer. *)
Definition unwrapOut (v : value) : option value :=
  match v with
  | VOut (VPtr target) => Some target
  | VOut (VNilPtr _) => None
  | VOut dest => Some dest
  | _ => Some v
  end.

(** The [switch v := value.(type)] of [bindVars]: setter, Oracle type,
    native type and buffer size, or the error of the [default] case for
    the argument at index [i]. *)
Definition typeSwitch (i : Z) (v : value)
  : (dataSetter * dpiTypeNum * dpiTypeNum * Z) + error :=
  let lob (isClob : bool) :=
    inl (setLOB,
         if isClob then DPI_ORACLE_TYPE_CLOB else DPI_ORACLE_TYPE_BLOB,
         DPI_NATIVE_TYPE_LOB, 0) in
  let number natTyp := inl (setNumber, DPI_ORACLE_TYPE_NUMBER, natTyp, 0) in
  match v with
  | VLob v => lob (IsClob v)
  | VLobs v => lob (match v with l :: _ => IsClob l | [] => false end)
  | VInt _ | VInts _ | VInt32 _ | VInt32s _ | VInt64 _ | VInt64s _ =>
      number DPI_NATIVE_TYPE_INT64
  | VUint _ | VUints _ | VUint64 _ | VUint64s _ => number DPI_NATIVE_TYPE_UINT64
  | VFloat32 _ | VFloat32s _ => number DPI_NATIVE_TYPE_FLOAT
  | VFloat64 _ | VFloat64s _ => number DPI_NATIVE_TYPE_DOUBLE
  | VBool _ | VBools _ =>
      inl (setBool, DPI_ORACLE_TYPE_BOOLEAN, DPI_NATIVE_TYPE_BOOLEAN, 0)
  | VBytes v =>
      inl (setBytes, DPI_ORACLE_TYPE_RAW, DPI_NATIVE_TYPE_BYTES, len v)
  | VBytess v =>
      inl (setBytes, DPI_ORACLE_TYPE_RAW, DPI_NATIVE_TYPE_BYTES,
           fold_left (fun bufSize b => if len b >? bufSize then len b else bufSize) v 0)
  | VString v =>
      inl (setBytes, DPI_ORACLE_TYPE_VARCHAR, DPI_NATIVE_TYPE_BYTES,
           i64 (4 * slen v))
  | VStrings v =>
      inl (setBytes, DPI_ORACLE_TYPE_VARCHAR, DPI_NATIVE_TYPE_BYTES,
           fold_left (fun bufSize s =>
                        let n := i64 (4 * slen s) in
                        if n >? bufSize then n else bufSize) v 0)
  | VTime _ | VTimes _ =>
      inl (setTimestamp, DPI_ORACLE_TYPE_TIMESTAMP_TZ, DPI_NATIVE_TYPE_TIMESTAMP, 0)
  | _ => inr (Errorf "%d. arg: unknown type %T" [FInt (i + 1); FType v])
  end.

(** [func dataSetNumber(dv, pos, data, v) error]; [data] is the cell
    [(dv, pos)]. *)
Definition dataSetNumber (dv : handle) (pos : Z) (v : value) : M (option error) :=
  match v with
  | VInt x | VInt32 x | VInt64 x =>
      call (dpiData_setInt64 dv pos (i64 x)) ;;; ret None
  | VUint x | VUint32 x | VUint64 x =>
      call (dpiData_setUint64 dv pos (u64 x)) ;;; ret None
  | VFloat32 x => call (dpiData_setFloat dv pos x) ;;; ret None
  | VFloat64 x => call (dpiData_setDouble dv pos x) ;;; ret None
  | _ => ret (Some (Errorf "unknown number [%T] %#v" [FType v; FVal v]))
  end.

(** [func dataSetBytes(dv, pos, data, v) error] *)
Definition dataSetBytes (dv : handle) (pos : Z) (v : value) : M (option error) :=
  match v with
  | VBytes x =>
      match x with
      | [] => panic "index out of range"                   (* &x[0] *)
      | _ => call (dpiVar_setFromBytes dv (u32 pos) x (u32 (len x))) ;;; ret None
      end
  | VString x =>
      let b := list_byte_of_string x in
      match b with
      | [] => panic "index out of range"                   (* &b[0] *)
      | _ => call (dpiVar_setFromBytes dv (u32 pos) b (u32 (slen x))) ;;; ret None
      end
  | _ => ret (Some (Errorf "awaited []byte/string, got %T (%#v)" [FType v; FVal v]))
  end.

(** The function literal bound to [set] in the [bool] case. *)
Definition dataSetBool (dv : handle) (pos : Z) (v : value) : M (option error) :=
  match v with
  | VBool x => call (dpiData_setBool dv pos (if x then 1 else 0)) ;;; ret None
  | _ => panic "interface conversion: not bool"            (* v.(bool) *)
  end.

(** The function literal bound to [set] in the [time.Time] case. *)
Definition dataSetTimestamp (dv : handle) (pos : Z) (v : value) : M (option error) :=
  match v with
  | VTime t =>
      let z := zoneOffset t in
      call (dpiData_setTimestamp dv pos
              (i16 (Year t)) (u8 (Month t)) (u8 (Day t))
              (u8 (Hour t)) (u8 (Minute t)) (u8 (Second t)) (u32 (Nanosecond t))
              (i8 (Z.quot z 3600)) (i8 (Z.quot (Z.rem z 3600) 60))) ;;;
      ret None
  | _ => panic "interface conversion: not time.Time"       (* v.(time.Time) *)
  end.

(** The successive results of [Read] on a buffer of [c] bytes while the
    reader hands out one piece with its error [er]. *)
Fixpoint pieceReads (fuel c : nat) (piece : list byte) (er : option readError)
  : list (list byte * option readError) :=
  match fuel with
  | O => [(piece, er)]
  | S fuel =>
      if decide (List.length piece <= c)%nat then [(piece, er)]
      else (take c piece, None) :: pieceReads fuel c (drop c piece) er
  end.

(** The successive results of [src.Read(buf)] for a buffer of [c] bytes, up
    to the [(0, io.EOF)] of the exhausted reader.  [c] is at least 1:
    [dataSetLOB] replaces a chunk size of 0 by [1 << 20]. *)
Definition readsOf (c : nat) (src : ioReader) : list (list byte * option readError) :=
  flat_map (fun '(piece, er) => pieceReads (List.length piece) c piece er) src
  ++ [([], Some atEOF)].

(** The loop of [io.CopyBuffer(lw, L, buf)] over those results: for each
    [nr, er := src.Read(buf)], write [buf[0:nr]] when [nr > 0], stop at a
    write error or a short write, then stop at [er]; [io.EOF] is not
    reported.  [Lob] has no [WriteTo] and the writer no [ReadFrom]. *)
Fixpoint CopyBuffer (lw : dpiLobWriter) (reads : list (list byte * option readError))
  : M (dpiLobWriter * option error) :=
  match reads with
  | [] => ret (lw, None)
  | (buf, er) :: rest =>
      r <- match buf with
           | [] => ret (lw, None)                          (* nr == 0 *)
           | _ =>
               r <- Write lw buf ;;
               let '(lw, (nw, ew)) := r in
               match ew with
               | Some e => ret (lw, Some e)
               | None =>
                   if negb (len buf =? nw) then ret (lw, Some ErrShortWrite)
                   else ret (lw, None)
               end
           end ;;
      let '(lw, err) := r in
      match err, er with
      | Some e, _ => ret (lw, Some e)
      | None, Some atEOF => ret (lw, None)
      | None, Some (failing msg) => ret (lw, Some (Errorf msg []))
      | None, None => CopyBuffer lw rest
      end
  end.

(** [func (c *conn) dataSetLOB(dv, pos, data, v) error] *)
Definition dataSetLOB (c : conn) (dv : handle) (pos : Z) (v : value)
  : M (option error) :=
  match v with
  | VLob L =>
      match Reader L with
      | None => call (dpiData_setNull dv pos) ;;; ret None
      | Some src =>
          let typ := if IsClob L then DPI_ORACLE_TYPE_CLOB else DPI_ORACLE_TYPE_BLOB in
          resp <- call (dpiConn_newTempLob (dpiConn c) typ) ;;
          if negb (succeeded resp) then
            e <- getErr ;;
            ret (Some (Wrapf e "newTempLob(typ=%d)" [FTypeNum typ]))
          else
            let lob := outZ resp NULL in
            resp <- call (dpiLob_getChunkSize lob) ;;
            let chunkSize := u32 (outZ resp 0) in
            let chunkSize := if chunkSize =? 0 then Z.shiftl 1 20 else chunkSize in
            let lw := {| dlw_dpiLob := lob; dlw_offset := 0; dlw_opened := false |} in
            r <- CopyBuffer lw (readsOf (Z.to_nat chunkSize) src) ;;
            let '(lw, err) := r in
            r <- Close (Some lw) ;;
            let '(_, closeErr) := r in
            let err := match closeErr, err with
                       | Some ce, None => Some ce
                       | _, _ => err
                       end in
            call (dpiVar_setFromLob dv (u32 pos) lob) ;;;
            ret err
      end
  | _ => panic "interface conversion: not Lob"             (* v.(Lob) *)
  end.

(** Calling the [dataSetter] held in [set]. *)
Definition applySet (set : dataSetter) (c : conn) (dv : handle) (pos : Z) (v : value)
  : M (option error) :=
  match set with
  | setLOB => dataSetLOB c dv pos v
  | setNumber => dataSetNumber dv pos v
  | setBool => dataSetBool dv pos v
  | setBytes => dataSetBytes dv pos v
  | setTimestamp => dataSetTimestamp dv pos v
  end.

(** The loop [for j := 0; j < dataSliceLen; j++] of [bindVars], from [j]
    on, [count] iterations long: set slot [j] from element [j] of the
    argument.  [vdata] is [st.data[i]], [rArg] is [a.Value] as
    [reflect.ValueOf] saw it. *)
Fixpoint setMany (set : dataSetter) (c : conn) (dv : handle) (vdata : list cell)
    (i : Z) (rArg : value) (j count : nat) : M (option error) :=
  match count with
  | O => ret None
  | S count =>
      match vdata !! j with
      | None => panic "index out of range"                 (* &data[j] *)
      | Some _ =>
          match reflectIndex rArg j with
          | None => panic "reflect: call of reflect.Value.Index"
          | Some v =>
              r <- applySet set c dv (Z.of_nat j) v ;;
              match r with
              | Some err =>
                  ret (Some (Wrapf err "set(data[%d][%d], %#v (%T))"
                               [FInt i; FInt (Z.of_nat j); FVal v; FType v]))
              | None => setMany set c dv vdata i rArg (S j) count
              end
          end
      end
  end.

(** The second loop of [bindVars], [for i, a := range args], from index [i]
    on.  It yields the statement, whether an argument with a name was seen,
    and the error that ended the loop early, if any. *)
Fixpoint bindArgs (st : statement) (doExecMany : bool) (dataSliceLen : Z)
    (i : nat) (args : list NamedValue) (named : bool)
  : M (statement * bool * option error) :=
  match args with
  | [] => ret (st, named, None)
  | a :: args =>
      let named := if negb named then negb (String.eqb (Name a) "") else named in
      match unwrapOut (Value a) with
      | None => panic "reflect: call of reflect.Value.Interface on zero Value"
      | Some v =>
          match typeSwitch (Z.of_nat i) v with
          | inr err => ret (st, named, Some err)
          | inl (set, typ, natTyp, bufSize) =>
              r <- st_newVar (PlSQLArrays st) typ natTyp dataSliceLen bufSize ;;
              let '(dv, vdata, err) := r in
              let st := set_vars_data st (store (vars st) i dv) (store (data st) i vdata) in
              match err with
              | Some err =>
                  ret (st, named, Some (Wrapf err "%d" [FInt (Z.of_nat i)]))
              | None =>
                  r <- (if negb doExecMany then
                          match vdata with
                          | [] => panic "index out of range"   (* &data[0] *)
                          | _ =>
                              r <- applySet set (st_conn st) dv 0 (Value a) ;;
                              match r with
                              | Some err =>
                                  ret (Some (Wrapf err "set(data[%d][%d], %#v (%T))"
                                               [FInt (Z.of_nat i); FInt 0;
                                                FVal (Value a); FType (Value a)]))
                              | None => ret None
                              end
                          end
                        else
                          setMany set (st_conn st) dv vdata (Z.of_nat i) (Value a)
                            0 (Z.to_nat dataSliceLen)) ;;
                  match r with
                  | Some err => ret (st, named, Some err)
                  | None => bindArgs st doExecMany dataSliceLen (S i) args named
                  end
              end
          end
      end
  end.

(** [for i, v := range st.vars { dpiStmt_bindByPos(st.dpiStmt, i+1, v) }] *)
Fixpoint bindByPos (stmt : handle) (i : nat) (vs : list handle) : M (option error) :=
  match vs with
  | [] => ret None
  | v :: vs =>
      resp <- call (dpiStmt_bindByPos stmt (u32 (Z.of_nat i + 1)) v) ;;
      if negb (succeeded resp) then e <- getErr ;; ret (Some e)
      else bindByPos stmt (S i) vs
  end.

(** [strconv.Itoa] *)
Definition Itoa (i : Z) : string := NilZero.string_of_int (Z.to_int i).

(** [for i, a := range args { ... dpiStmt_bindByName(...) }].  The name
    passed is [a.Name], or [strconv.Itoa(a.Ordinal)] when that is empty. *)
Fixpoint bindByName (st : statement) (i : nat) (args : list NamedValue)
  : M (option error) :=
  match args with
  | [] => ret None
  | a :: args =>
      let name := if String.eqb (Name a) "" then Itoa (Ordinal a) else Name a in
      match elements (vars st) !! i with
      | None => panic "index out of range"                 (* st.vars[i] *)
      | Some v =>
          resp <- call (dpiStmt_bindByName (dpiStmt st) name (u32 (slen name)) v) ;;
          if negb (succeeded resp) then e <- getErr ;; ret (Some e)
          else bindByName st (S i) args
      end
  end.

(** [!st.PlSQLArrays && st.arrLen > 0]: the value of [doExecMany] in
    [bindVars] once [st.arrLen] is set, and the test by which [ExecContext]
    chooses [dpiStmt_executeMany]. *)
Definition doExecMany (st : statement) : bool :=
  negb (PlSQLArrays st) && (arrLen st >? 0).

(** [dataSliceLen := 1; if doExecMany { dataSliceLen = st.arrLen }] *)
Definition dataSliceLen (st : statement) : Z :=
  if doExecMany st then arrLen st else 1.

(** [func (st *statement) bindVars(args []driver.NamedValue) error] *)
Definition bindVars (st : statement) (args : list NamedValue)
  : M (statement * option error) :=
  let n := List.length args in
  let vs := if cap (vars st) <? len args then make NULL n else reslice (vars st) n in
  let ds := if cap (data st) <? len args then make [] n else reslice (data st) n in
  let st := set_vars_data st vs ds in
  let '(minArrLen, maxArrLen) := arrLens args in
  if maxArrLen >? maxArraySize then
    ret (st, Some (Errorf "slice is bigger (%d) than the maximum (%d)"
                     [FInt maxArrLen; FInt maxArraySize]))
  else if negb (PlSQLArrays st) && negb (minArrLen =? -1)
          && negb (minArrLen =? maxArrLen) then
    ret (st, Some (Errorf
                     "PlSQLArrays is not set, but has different lengthed slices (min=%d < %d=max)"
                     [FInt minArrLen; FInt maxArrLen]))
  else
    let st := set_arrLen st minArrLen in
    r <- bindArgs st (doExecMany st) (dataSliceLen st) 0 args false ;;
    let '(st, named, err) := r in
    match err with
    | Some err => ret (st, Some err)
    | None =>
        r <- (if negb named then bindByPos (dpiStmt st) 0 (elements (vars st))
              else bindByName st 0 args) ;;
        ret (st, r)
    end.

(** [func (c *conn) Break() error] *)
Definition Break (c : conn) : M (option error) :=
  resp <- call (dpiConn_breakExecution (dpiConn c)) ;;
  if negb (succeeded resp) then e <- getErr ;; ret (Some e) else ret None.

(** The history as the native layer has it when the function itself has
    made the calls [h] and a goroutine has run [other] after the first [n]
    of them. *)
Definition seen {A} (other : M A) (dpi : Native) (n : nat) (h : history) : history :=
  if decide (n <= List.length h)%nat
  then snd (other dpi (take n h)) ++ drop n h
  else h.

(** [go func() { select { case <-ctx.Done(): _ = st.Break(); case <-done:
    return } }()], started before [m], the rest of the function; [done] is
    sent to once the statement has run.  Native calls are taken as atomic,
    in the order in which they start.  When the goroutine finds the context
    done after [k] calls of [m], the calls of [st.Break()] come next: the
    native layer has them in its history when it answers the later calls of
    [m], and they are in the history the function leaves.  When [m] ends
    with fewer than [k] calls the goroutine has not acted by the time the
    function returns. *)
Definition watch {A} (ctx : Context) (c : conn) (m : M A) : M A :=
  match Done ctx with
  | None => m
  | Some k => fun dpi h =>
      let n := (List.length h + k)%nat in
      let '(r, h') := m (fun h c' => dpi (seen (Break c) dpi n h) c') h in
      (r, seen (Break c) dpi n h')
  end.

(** [driver.Result] as [ExecContext] returns it: [driver.RowsAffected(n)]
    (an [int64]), or the nil interface. *)
Inductive Result : Type :=
| RowsAffected (count : Z).

(** [mode := DPI_MODE_EXEC_DEFAULT; if !st.inTransaction { mode |=
    DPI_MODE_EXEC_COMMIT_ON_SUCCESS }] *)
Definition execMode (st : statement) : dpiExecMode :=
  if negb (inTransaction (st_conn st))
  then or_COMMIT_ON_SUCCESS DPI_MODE_EXEC_DEFAULT else DPI_MODE_EXEC_DEFAULT.

(** How [ExecContext] runs the statement once the arguments are bound. *)
Definition executeCall (st : statement) (mode : dpiExecMode) : ncall :=
  if doExecMany st
  then dpiStmt_executeMany (dpiStmt st) mode (u32 (arrLen st))
  else dpiStmt_execute (dpiStmt st) mode.

(** The part of [ExecContext] that runs the bound statement, from [mode :=
    ...] on. *)
Definition runExec (st : statement) : M (statement * (option Result * option error)) :=
  let mode := execMode st in
  res <- call (executeCall st mode) ;;
  if negb (succeeded res) then
    e <- getErr ;;
    ret (st, (None,
              Some (Wrapf e "dpiStmt_execute(mode=%d arrLen=%d)"
                      [FMode mode; FInt (arrLen st)])))
  else
    resp <- call (dpiStmt_getRowCount (dpiStmt st)) ;;
    if negb (succeeded resp) then ret (st, (None, None))
    else ret (st, (Some (RowsAffected (i64 (u64 (outZ resp 0)))), None)).

(** [func (st *statement) ExecContext(ctx, args) (driver.Result, error)].
    The goroutine is started once the arguments are bound. *)
Definition ExecContext (st : statement) (ctx : Context) (args : list NamedValue)
  : M (statement * (option Result * option error)) :=
  match Err ctx with
  | Some err => ret (st, (None, Some (CtxErr err)))
  | None =>
      r <- bindVars st args ;;
      let '(st, err) := r in
      match err with
      | Some err => ret (st, (None, Some err))
      | None => watch ctx (st_conn st) (runExec st)
      end
  end.

(** ** rows.go: the fetch cursor *)

(** [Column].  [rows.go] reads the Oracle type as [col.Type] and the
    numeric representation as [col.DefaultNumType]; [openRows] fills them
    from [info.oracleTypeNum] and [info.defaultNativeTypeNum]. *)
Record Column : Type := {
  col_Name : string;
  col_Type : dpiTypeNum;
  col_DefaultNumType : dpiTypeNum;
  col_Size : Z;
  col_Precision : Z;
  col_Scale : Z;
  col_Nullable : bool;
  col_ObjectType : handle
}.

Definition zeroColumn : Column :=
  {| col_Name := ""; col_Type := TYPE_OTHER 0; col_DefaultNumType := TYPE_OTHER 0;
     col_Size := 0; col_Precision := 0; col_Scale := 0; col_Nullable := false;
     col_ObjectType := NULL |}.

(** [rows] *)
Record rows : Type := {
  r_statement : statement;
  columns : list Column;
  bufferRowIndex : Z;                  (* C.uint32_t *)
  fetched : Z;                         (* C.uint32_t *)
  finished : bool;
  r_vars : list handle;
  r_data : list (list cell)
}.

Definition set_columns (r : rows) (i : nat) (c : Column) (v : handle) (d : list cell)
  : rows :=
  {| r_statement := r_statement r; columns := <[i := c]> (columns r);
     bufferRowIndex := bufferRowIndex r; fetched := fetched r;
     finished := finished r;
     r_vars := <[i := v]> (r_vars r); r_data := <[i := d]> (r_data r) |}.

Definition set_fetch (r : rows) (bri f : Z) (fin : bool) : rows :=
  {| r_statement := r_statement r; columns := columns r;
     bufferRowIndex := bri; fetched := f; finished := fin;
     r_vars := r_vars r; r_data := r_data r |}.

Definition outInfo (r : nresp) (dflt : dpiQueryInfo) : dpiQueryInfo :=
  match r with RInfo _ info => info | _ => dflt end.

Definition zeroInfo : dpiQueryInfo :=
  {| qi_name := ""; oracleTypeNum := TYPE_OTHER 0;
     defaultNativeTypeNum := TYPE_OTHER 0; clientSizeInBytes := 0;
     precision := 0; scale := 0; nullOk := 0; objectType := NULL |}.

(** The loop [for i := 0; i < colCount; i++] of [openRows], from [i] on,
    [count] iterations long; [info] is declared outside the loop and keeps
    its value between calls.  [None] with an error is [return nil, err]. *)
Fixpoint openColumns (st : statement) (r : rows) (info : dpiQueryInfo)
    (i count : nat) : M (option rows * option error) :=
  match count with
  | O => ret (Some r, None)
  | S count =>
      resp <- call (dpiStmt_getQueryInfo (dpiStmt st) (u32 (Z.of_nat i + 1))) ;;
      if negb (succeeded resp) then e <- getErr ;; ret (None, Some e)
      else
        let info := outInfo resp info in
        let bufSize := i64 (clientSizeInBytes info) in
        let natTyp :=
          match defaultNativeTypeNum info with
          | DPI_ORACLE_TYPE_NUMBER => DPI_NATIVE_TYPE_BYTES
          | DPI_ORACLE_TYPE_DATE => DPI_NATIVE_TYPE_TIMESTAMP
          | t => t
          end in
        let info := {| qi_name := qi_name info; oracleTypeNum := oracleTypeNum info;
                       defaultNativeTypeNum := natTyp;
                       clientSizeInBytes := clientSizeInBytes info;
                       precision := precision info; scale := scale info;
                       nullOk := nullOk info; objectType := objectType info |} in
        let col := {| col_Name := qi_name info; col_Type := oracleTypeNum info;
                      col_DefaultNumType := defaultNativeTypeNum info;
                      col_Size := clientSizeInBytes info;
                      col_Precision := precision info; col_Scale := scale info;
                      col_Nullable := nullOk info =? 1;
                      col_ObjectType := objectType info |} in
        let bufSize :=
          match oracleTypeNum info with
          | DPI_ORACLE_TYPE_VARCHAR | DPI_ORACLE_TYPE_NVARCHAR
          | DPI_ORACLE_TYPE_CHAR | DPI_ORACLE_TYPE_NCHAR => i64 (bufSize * 4)
          | _ => bufSize
          end in
        nv <- st_newVar false (oracleTypeNum info) (defaultNativeTypeNum info)
                fetchRowCount bufSize ;;
        let '(v, d, err) := nv in
        let r := set_columns r i col v d in
        match err with
        | Some err => ret (None, Some err)
        | None =>
            resp <- call (dpiStmt_define (dpiStmt st) (u32 (Z.of_nat i + 1)) v) ;;
            if negb (succeeded resp) then e <- getErr ;; ret (None, Some e)
            else openColumns st r info (S i) count
        end
  end.

(** [func (st *statement) openRows(colCount int)], returning [*rows] and
    [error] *)
Definition openRows (st : statement) (colCount : Z) : M (option rows * option error) :=
  call (dpiStmt_setFetchArraySize (dpiStmt st) fetchRowCount) ;;;
  if colCount <? 0 then panic "makeslice: len out of range"
  else
    let n := Z.to_nat colCount in
    let r := {| r_statement := st; columns := replicate n zeroColumn;
                bufferRowIndex := 0; fetched := 0; finished := false;
                r_vars := replicate n NULL; r_data := replicate n [] |} in
    o <- openColumns st r zeroInfo 0 n ;;
    match o with
    | (Some r, None) =>
        resp <- call (dpiStmt_addRef (dpiStmt st)) ;;
        if negb (succeeded resp) then e <- getErr ;; ret (Some r, Some e)
        else ret (Some r, None)
    | other => ret other
    end.

(** The part of [QueryContext] that runs the bound statement, from [var
    colCount C.uint32_t] on. *)
Definition runQuery (st : statement) : M (statement * (option rows * option error)) :=
  res <- call (dpiStmt_execute (dpiStmt st) DPI_MODE_EXEC_DEFAULT) ;;
  let colCount := u32 (outZ res 0) in
  if negb (succeeded res) then
    e <- getErr ;; ret (st, (None, Some (Wrapf e "dpiStmt_execute" [])))
  else
    o <- openRows st (i64 colCount) ;;
    ret (st, o).

(** [func (st *statement) QueryContext(ctx, args) (driver.Rows, error)],
    with the same goroutine as [ExecContext]. *)
Definition QueryContext (st : statement) (ctx : Context) (args : list NamedValue)
  : M (statement * (option rows * option error)) :=
  match Err ctx with
  | Some err => ret (st, (None, Some (CtxErr err)))
  | None =>
      r <- bindVars st args ;;
      let '(st, err) := r in
      match err with
      | Some err => ret (st, (None, Some err))
      | None => watch ctx (st_conn st) (runQuery st)
      end
  end.

(** [*time.Location]: [time.Local] or [time.FixedZone(name, offset)]; the
    name is [fmt.Sprintf("%02d:%02d", tzHourOffset, tzMinuteOffset)]. *)
Inductive Location : Type :=
| Local
| FixedZone (tzHourOffset tzMinuteOffset : Z) (offset : Z).

(** The values [Next] stores into [dest], each with its dynamic type.
    The cells of a NUMBER column kept as numbers are stored as cgo returns
    them, without a conversion: [C.int64_t], [C.uint64_t], [C.float],
    [C.double].  [DTime] is the call [time.Date(year, month, day, hour,
    min, sec, nsec, loc)] with its arguments as passed; the normalisation
    [time.Date] applies to them is not carried out. *)
Inductive driverValue : Type :=
| DNil
| DString (s : string)
| DInt64 (x : Z)
| DUint64 (x : Z)
| DFloat32 (x : float32)
| DFloat64 (x : float64)
| DCInt64 (x : Z)                      (* C.int64_t *)
| DCUint64 (x : Z)                     (* C.uint64_t *)
| DCFloat (x : float32)                (* C.float *)
| DCDouble (x : float64)               (* C.double *)
| DBytes (b : list byte)
| DTime (year month day hour min sec nsec : Z) (loc : Location)   (* time.Date(...) *)
| DDuration (d : Z)
| DStringYM (years months : Z)         (* fmt.Sprintf("%dy%dm", years, months) *)
| DLob (reader : dpiLobReader) (isClob : bool)
| DRows (r : rows)
| DBool (b : bool).

Definition zeroData : dpiData :=
  {| isNull := 0; asBoolean := 0; asInt64 := 0; asUint64 := 0; asFloat := 0;
     asDouble := 0; asBytes := None;
     asTimestamp := {| ts_year := 0; ts_month := 0; ts_day := 0; ts_hour := 0;
                       ts_minute := 0; ts_second := 0; ts_fsecond := 0;
                       ts_tzHourOffset := 0; ts_tzMinuteOffset := 0 |};
     asIntervalDS := {| ds_days := 0; ds_hours := 0; ds_minutes := 0;
                        ds_seconds := 0; ds_fseconds := 0 |};
     asIntervalYM := {| ym_years := 0; ym_months := 0 |};
     asLOB := NULL; asStmt := NULL |}.

Definition outData (r : nresp) : dpiData :=
  match r with RData d => d | _ => zeroData end.

(** [C.GoStringN(b.ptr, b.length)] and [C.GoBytes(b.ptr, b.length)] *)
Definition GoStringN (b : option (list byte)) : string :=
  match b with Some l => string_of_list_byte l | None => "" end.
Definition GoBytes (b : option (list byte)) : list byte :=
  match b with Some l => l | None => [] end.

(** [time.Hour], [time.Minute], [time.Second] in nanoseconds. *)
Definition time_Second : Z := 1000000000.
Definition time_Minute : Z := 60 * time_Second.
Definition time_Hour : Z := 60 * time_Minute.

(** The [switch typ] of [Next] for one non-null cell: the value for
    [dest[i]], or the error [Next] returns.  [d] is the cell as the read
    [dpiData_get] found it; the accessor [C.dpiData_get*(d)] of each case
    reads one member of that cell and is the projection of [d]. *)
Definition convert (col : Column) (d : dpiData) : M (driverValue + error) :=
  let typ := col_Type col in
  match typ with
  | DPI_ORACLE_TYPE_VARCHAR | DPI_ORACLE_TYPE_NVARCHAR
  | DPI_ORACLE_TYPE_CHAR | DPI_ORACLE_TYPE_NCHAR
  | DPI_ORACLE_TYPE_LONG_VARCHAR | DPI_NATIVE_TYPE_BYTES =>
      ret (inl (DString (GoStringN (asBytes d))))
  | DPI_ORACLE_TYPE_NUMBER =>
      match col_DefaultNumType col with
      | DPI_NATIVE_TYPE_INT64 => ret (inl (DCInt64 (asInt64 d)))
      | DPI_NATIVE_TYPE_UINT64 => ret (inl (DCUint64 (asUint64 d)))
      | DPI_NATIVE_TYPE_FLOAT => ret (inl (DCFloat (asFloat d)))
      | DPI_NATIVE_TYPE_DOUBLE => ret (inl (DCDouble (asDouble d)))
      | _ => ret (inl (DString (GoStringN (asBytes d))))
      end
  | DPI_ORACLE_TYPE_ROWID | DPI_NATIVE_TYPE_ROWID
  | DPI_ORACLE_TYPE_RAW | DPI_ORACLE_TYPE_LONG_RAW =>
      ret (inl (DBytes (GoBytes (asBytes d))))
  | DPI_ORACLE_TYPE_NATIVE_FLOAT | DPI_NATIVE_TYPE_FLOAT =>
      ret (inl (DFloat32 (asFloat d)))
  | DPI_ORACLE_TYPE_NATIVE_DOUBLE | DPI_NATIVE_TYPE_DOUBLE =>
      ret (inl (DFloat64 (asDouble d)))
  | DPI_ORACLE_TYPE_NATIVE_INT | DPI_NATIVE_TYPE_INT64 =>
      ret (inl (DInt64 (asInt64 d)))
  | DPI_ORACLE_TYPE_NATIVE_UINT | DPI_NATIVE_TYPE_UINT64 =>
      ret (inl (DUint64 (asUint64 d)))
  | DPI_ORACLE_TYPE_TIMESTAMP | DPI_ORACLE_TYPE_TIMESTAMP_TZ
  | DPI_ORACLE_TYPE_TIMESTAMP_LTZ | DPI_NATIVE_TYPE_TIMESTAMP
  | DPI_ORACLE_TYPE_DATE =>
      let ts := asTimestamp d in
      let tz :=
        match typ with
        | DPI_ORACLE_TYPE_TIMESTAMP | DPI_ORACLE_TYPE_DATE => Local
        | _ => FixedZone (ts_tzHourOffset ts) (ts_tzMinuteOffset ts)
                 (i64 (ts_tzHourOffset ts * 3600 + ts_tzMinuteOffset ts * 60))
        end in
      ret (inl (DTime (ts_year ts) (ts_month ts) (ts_day ts) (ts_hour ts)
                  (ts_minute ts) (ts_second ts) (ts_fsecond ts) tz))
  | DPI_ORACLE_TYPE_INTERVAL_DS | DPI_NATIVE_TYPE_INTERVAL_DS =>
      let ds := asIntervalDS d in
      ret (inl (DDuration
                  (i64 (ds_days ds * 24 * time_Hour + ds_hours ds * time_Hour
                        + ds_minutes ds * time_Minute + ds_seconds ds * time_Second
                        + ds_fseconds ds))))
  | DPI_ORACLE_TYPE_INTERVAL_YM | DPI_NATIVE_TYPE_INTERVAL_YM =>
      let ym := asIntervalYM d in
      ret (inl (DStringYM (ym_years ym) (ym_months ym)))
  | DPI_ORACLE_TYPE_CLOB | DPI_ORACLE_TYPE_NCLOB
  | DPI_ORACLE_TYPE_BLOB | DPI_ORACLE_TYPE_BFILE | DPI_NATIVE_TYPE_LOB =>
      ret (inl (DLob {| dlr_dpiLob := asLOB d; dlr_offset := 0; dlr_finished := false |}
                  (match typ with
                   | DPI_ORACLE_TYPE_CLOB | DPI_ORACLE_TYPE_NCLOB => true
                   | _ => false
                   end)))
  | DPI_ORACLE_TYPE_STMT | DPI_NATIVE_TYPE_STMT =>
      let st := {| st_conn := {| dpiConn := NULL; inTransaction := false |};
                   dpiStmt := asStmt d; query := "";
                   data := nilSlice; vars := nilSlice;
                   PlSQLArrays := false; arrLen := 0 |} in
      resp <- call (dpiStmt_getNumQueryColumns (dpiStmt st)) ;;
      if negb (succeeded resp) then e <- getErr ;; ret (inr e)
      else
        o <- openRows st (i64 (u32 (outZ resp 0))) ;;
        match o with
        | (_, Some err) => ret (inr err)
        | (Some r2, None) => ret (inl (DRows r2))
        | (None, None) => ret (inl DNil)
        end
  | DPI_ORACLE_TYPE_BOOLEAN | DPI_NATIVE_TYPE_BOOLEAN =>
      ret (inl (DBool (asBoolean d =? 1)))
  | _ => ret (inr (Errorf "unsupported column type %d" [FTypeNum typ]))
  end.

(** The loop [for i, col := range r.columns] of [Next], from column [i]
    on. *)
Fixpoint fillDest (r : rows) (dest : list driverValue) (i : nat) (cols : list Column)
  : M (list driverValue * option error) :=
  match cols with
  | [] => ret (dest, None)
  | col :: cols =>
      match r_data r !! i ≫= (fun di => di !! Z.to_nat (bufferRowIndex r)) with
      | None => panic "index out of range"       (* r.data[i][r.bufferRowIndex] *)
      | Some (v, pos) =>
          resp <- call (dpiData_get v pos) ;;
          let d := outData resp in
          x <- (if isNull d =? 1 then ret (inl DNil) else convert col d) ;;
          match x with
          | inr err => ret (dest, Some err)
          | inl x =>
              if decide (i < List.length dest)%nat
              then fillDest r (<[i := x]> dest) (S i) cols
              else panic "index out of range"    (* dest[i] *)
          end
      end
  end.

(** [func (r *rows) Next(dest []driver.Value) error] *)
Definition Next (r : rows) (dest : list driverValue)
  : M (rows * list driverValue * option error) :=
  if finished r then ret (r, dest, Some EOF)
  else
    o <- (if fetched r =? 0 then
            resp <- call (dpiStmt_fetchRows (dpiStmt (r_statement r)) fetchRowCount) ;;
            let r := match resp with
                     | RFetch _ bri f _ => set_fetch r (u32 bri) (u32 f) (finished r)
                     | _ => r
                     end in
            let moreRows := match resp with RFetch _ _ _ m => m | _ => 0 end in
            if negb (succeeded resp) then e <- getErr ;; ret (r, Some e)
            else if fetched r =? 0 then
              ret (set_fetch r (bufferRowIndex r) (fetched r) (moreRows =? 0), Some EOF)
            else ret (r, None)
          else ret (r, None)) ;;
    let '(r, stop) := o in
    match stop with
    | Some err => ret (r, dest, Some err)
    | None =>
        o <- fillDest r dest 0 (columns r) ;;
        let '(dest, err) := o in
        match err with
        | Some err => ret (r, dest, Some err)
        | None =>
            ret (set_fetch r (u32 (bufferRowIndex r + 1)) (u32 (fetched r - 1))
                   (finished r),
                 dest, None)
        end
    end.

(** [k] successive next-row requests on a cursor, as [database/sql] makes
    them while the caller iterates, with the error of each. *)
Fixpoint NextTimes (k : nat) (r : rows) (dest : list driverValue)
  : M (rows * list (option error)) :=
  match k with
  | O => ret (r, [])
  | S k =>
      o <- Next r dest ;;
      let '(r, dest, err) := o in
      o <- NextTimes k r dest ;;
      let '(r, errs) := o in
      ret (r, err :: errs)
  end.

(** ** Vocabulary of the specification *)

(** The lengths of the slice-valued arguments, byte slices excluded: the
    lengths batch-shape inference observes. *)
Definition sliceArgLens (args : list NamedValue) : list Z :=
  omap (fun a => if isByteSlice (Value a) then None else sliceLen (Value a)) args.

Definition minimum (l : list Z) : Z :=
  match l with [] => -1 | x :: l => fold_left Z.min l x end.
Definition maximum (l : list Z) : Z :=
  match l with [] => -1 | x :: l => fold_left Z.max l x end.

(** One turn of the first loop of [bindVars] on an observed length. *)
Definition arrLens_step (acc : Z * Z) (n : Z) : Z * Z :=
  let '(mn, mx) := acc in
  (if (mn =? -1) || (n <? mn) then n else mn,
   if (mx =? -1) || (n >? mx) then n else mx).

(** The size-limit and the shape-mismatch error of [bindVars]. *)
Definition sizeLimitError (maxArrLen : Z) : error :=
  Errorf "slice is bigger (%d) than the maximum (%d)" [FInt maxArrLen; FInt maxArraySize].
Definition shapeError (minArrLen maxArrLen : Z) : error :=
  Errorf "PlSQLArrays is not set, but has different lengthed slices (min=%d < %d=max)"
    [FInt minArrLen; FInt maxArrLen].



(** The character length of a Go string in the words of the specification:
    the number of UTF-8 encoded characters, counted as
    [utf8.RuneCountInString] counts them (an invalid byte counts as one). *)
Definition isCont (c : Z) : bool := (0x80 <=? c) && (c <=? 0xBF).

Definition runeSize (s : list Z) : nat :=
  match s with
  | [] => 0
  | c :: rest =>
      if c <? 0x80 then 1
      else if (0xC2 <=? c) && (c <=? 0xDF) then
        match rest with
        | c1 :: _ => if isCont c1 then 2 else 1
        | _ => 1
        end
      else if (0xE0 <=? c) && (c <=? 0xEF) then
        match rest with
        | c1 :: c2 :: _ =>
            let lo := if c =? 0xE0 then 0xA0 else 0x80 in
            let hi := if c =? 0xED then 0x9F else 0xBF in
            if (lo <=? c1) && (c1 <=? hi) && isCont c2 then 3 else 1
        | _ => 1
        end
      else if (0xF0 <=? c) && (c <=? 0xF4) then
        match rest with
        | c1 :: c2 :: c3 :: _ =>
            let lo := if c =? 0xF0 then 0x90 else 0x80 in
            let hi := if c =? 0xF4 then 0x8F else 0xBF in
            if (lo <=? c1) && (c1 <=? hi) && isCont c2 && isCont c3 then 4 else 1
        | _ => 1
        end
      else 1
  end.

Fixpoint runeCount (fuel : nat) (s : list Z) : Z :=
  match fuel, s with
  | S fuel, _ :: _ => 1 + runeCount fuel (drop (runeSize s) s)
  | _, _ => 0
  end.

Definition bytesOf (s : string) : list Z :=
  (fun b => Z.of_N (Byte.to_N b)) <$> list_byte_of_string s.

Definition characterLength (s : string) : Z :=
  runeCount (String.length s) (bytesOf s).

(** The greatest of the Go lengths (byte counts) of some strings, zero for
    none. *)
Definition maxByteLen (l : list string) : Z :=
  fold_right (fun s m => Z.max (slen s) m) 0 l.
Definition maxCharacterLen (l : list string) : Z :=
  fold_right (fun s m => Z.max (characterLength s) m) 0 l.

(** ** Some native layers *)

(** Every call succeeds; variables get handle [1]; reads and fetches
    deliver nothing. *)
Definition nativeOK : Native := fun _ c =>
  match c with
  | getError => RError 0 ""
  | newVar _ _ _ _ _ => ROut true 1
  | dpiStmt_getQueryInfo _ _ => RInfo true zeroInfo
  | dpiStmt_fetchRows _ _ => RFetch true 0 0 0
  | dpiData_get _ _ => RData zeroData
  | dpiLob_readBytes _ _ _ => RBytes true 0 []
  | _ => ROut true 0
  end.

Definition isReadBytes (c : ncall) : bool :=
  match c with dpiLob_readBytes _ _ _ => true | _ => false end.
Definition isFetchRows (c : ncall) : bool :=
  match c with dpiStmt_fetchRows _ _ => true | _ => false end.

(** The first LOB read succeeds with zero bytes; later ones deliver two
    bytes. *)
Definition nativeEmptyThenData : Native := fun h c =>
  match c with
  | dpiLob_readBytes _ _ _ =>
      if existsb isReadBytes h then RBytes true 2 ["x"%byte; "y"%byte]
      else RBytes true 0 []
  | _ => nativeOK h c
  end.

(** The first fetch yields no row while more rows are pending; later
    fetches fail with ORA-03113. *)
Definition nativeNoRowThenFailure : Native := fun h c =>
  match c with
  | dpiStmt_fetchRows _ _ =>
      if existsb isFetchRows h then RStatus false else RFetch true 0 0 1
  | getError => RError 3113 "end-of-file on communication channel"
  | _ => nativeOK h c
  end.

(** Opening a LOB resource fails with ORA-22275. *)
Definition nativeOpenFails : Native := fun h c =>
  match c with
  | dpiLob_openResource _ => RStatus false
  | getError => RError 22275 "invalid LOB locator specified"
  | _ => nativeOK h c
  end.

(** A statement as [PrepareContext] returns it, on handle [stmt]. *)
Definition prepared (stmt : handle) : statement :=
  {| st_conn := {| dpiConn := 1; inTransaction := false |};
     dpiStmt := stmt; query := "";
     data := nilSlice; vars := nilSlice; PlSQLArrays := false; arrLen := 0 |}.

(** A positional argument: [driver.NamedValue{Ordinal: i, Value: v}]. *)
Definition positional (i : Z) (v : value) : NamedValue :=
  {| Name := ""; Ordinal := i; Value := v |}.

(** The statement as [bindVars] leaves it when it returns from one of its
    two checks: only the two slices are re-made or re-sliced. *)
Definition resliced (st : statement) (args : list NamedValue) : statement :=
  let n := List.length args in
  set_vars_data st
    (if cap (vars st) <? len args then make NULL n else reslice (vars st) n)
    (if cap (data st) <? len args then make [] n else reslice (data st) n).

(** Some argument lists. *)
Definition args_1_and_1025 : list NamedValue :=
  [positional 1 (VInt64s [7]); positional 2 (VInt64s (replicate 1025 0))].
Definition args_2_and_3 : list NamedValue :=
  [positional 1 (VInt64s [1; 2]); positional 2 (VInt64s [1; 2; 3])].
Definition args_batch3 : list NamedValue := [positional 1 (VInt64s [1; 2; 3])].
Definition args_scalar : list NamedValue := [positional 1 (VInt64 5)].
Definition args_out : list NamedValue := [positional 1 (VOut (VPtr (VInt64 5)))].

(** The two bytes of the UTF-8 encoding of e-acute (U+00E9), one
    character. *)
Definition e_acute : string := String "195"%char (String "169"%char EmptyString).

(** A cursor just opened on a statement, with no column. *)
Definition opened (st : statement) : rows :=
  {| r_statement := st; columns := []; bufferRowIndex := 0; fetched := 0;
     finished := false; r_vars := []; r_data := [] |}.

(** A LOB reader and a LOB writer on locator [7], as [Next] and
    [dataSetLOB] make them. *)
Definition reader7 : dpiLobReader :=
  {| dlr_dpiLob := 7; dlr_offset := 0; dlr_finished := false |}.
Definition writer7 : dpiLobWriter :=
  {| dlw_dpiLob := 7; dlw_offset := 0; dlw_opened := false |}.

(** All the bytes of a string are ASCII. *)
Definition isASCII (s : string) : Prop := Forall (fun c => c < 0x80) (bytesOf s).

(** ** The deprecated entry points *)

(** [context.Background()] *)
Definition Background : Context := {| Err := None; Done := None |}.

(** The loop of [Exec] and [Query]: [nargs[i].Ordinal = i + 1;
    nargs[i].Value = arg], the names left empty. *)
Definition nargs (args : list value) : list NamedValue :=
  imap (fun i arg => {| Name := ""; Ordinal := Z.of_nat i + 1; Value := arg |}) args.

(** [func (st *statement) Exec(args []driver.Value) (driver.Result, error)] *)
Definition Exec (st : statement) (args : list value)
  : M (statement * (option Result * option error)) :=
  ExecContext st Background (nargs args).

(** [func (st *statement) Query(args []driver.Value) (driver.Rows, error)] *)
Definition Query (st : statement) (args : list value)
  : M (statement * (option rows * option error)) :=
  QueryContext st Background (nargs args).

(** ** More native layers *)

(** Every LOB read fails with ORA-01403, "no data found". *)
Definition nativeNoData : Native := fun h c =>
  match c with
  | dpiLob_readBytes _ _ _ => RBytes false 0 []
  | getError => RError 1403 "no data found"
  | _ => nativeOK h c
  end.

(** Every LOB write fails with ORA-22275. *)
Definition nativeWriteFails : Native := fun h c =>
  match c with
  | dpiLob_writeBytes _ _ _ _ => RStatus false
  | getError => RError 22275 "invalid LOB locator specified"
  | _ => nativeOK h c
  end.

(** ** The bind calls of a successful [bindVars] *)

(** An argument carries a name. *)
Definition hasName (a : NamedValue) : bool := negb (String.eqb (Name a) "").

(** The calls of the loop [for i, v := range st.vars] when all succeed. *)
Definition bindByPosCalls (stmt : handle) (vs : list handle) : list ncall :=
  imap (fun i v => dpiStmt_bindByPos stmt (u32 (Z.of_nat i + 1)) v) vs.

(** The name [bindVars] binds an argument under in by-name mode. *)
Definition bindName (a : NamedValue) : string :=
  if String.eqb (Name a) "" then Itoa (Ordinal a) else Name a.

(** The calls of the loop [for i, a := range args] of the by-name branch
    when all succeed; [vs] are the variables, one per argument. *)
Definition bindByNameCalls (stmt : handle) (vs : list handle) (args : list NamedValue)
  : list ncall :=
  zip_with (fun a v =>
              dpiStmt_bindByName stmt (bindName a) (u32 (slen (bindName a))) v)
    args vs.

(** A computation ended without a nil error: it panicked or it returned an
    error. *)
Definition failed (r : res (option error) * history) : Prop :=
  (exists msg, fst r = Panic msg) \/ (exists err, fst r = Val (Some err)).

(** A slice-valued argument that takes part in batch-shape inference. *)
Definition isBatchSlice (v : value) : bool :=
  negb (isByteSlice v) && bool_decide (is_Some (sliceLen v)).

(** ** rows.go: column type information *)

(** The Go types that [ColumnTypeScanType] names and that [Next] stores. *)
Inductive reflectType : Type :=
| T_bytes          (* []byte *)
| T_int64 | T_uint64 | T_float32 | T_float64
| T_C_int64_t | T_C_uint64_t | T_C_float | T_C_double   (* the cgo types *)
| T_string
| T_Time           (* time.Time *)
| T_Duration       (* time.Duration *)
| T_statement_ptr  (* *statement *)
| T_bool
| T_Lob_ptr        (* *Lob *)
| T_rows_ptr       (* *rows *)
| T_nil.

(** [func (r *rows) ColumnTypeScanType(index int) reflect.Type], on the
    column at [index]. *)
Definition scanTypeOf (col : Column) : reflectType :=
  match col_Type col with
  | DPI_NATIVE_TYPE_BYTES | DPI_ORACLE_TYPE_RAW
  | DPI_ORACLE_TYPE_ROWID | DPI_NATIVE_TYPE_ROWID
  | DPI_ORACLE_TYPE_LONG_RAW => T_bytes
  | DPI_ORACLE_TYPE_NUMBER =>
      match col_DefaultNumType col with
      | DPI_NATIVE_TYPE_INT64 => T_int64
      | DPI_NATIVE_TYPE_UINT64 => T_uint64
      | DPI_NATIVE_TYPE_FLOAT => T_float32
      | DPI_NATIVE_TYPE_DOUBLE => T_float64
      | _ => T_string
      end
  | DPI_ORACLE_TYPE_NATIVE_FLOAT | DPI_NATIVE_TYPE_FLOAT => T_float32
  | DPI_ORACLE_TYPE_NATIVE_DOUBLE | DPI_NATIVE_TYPE_DOUBLE => T_float64
  | DPI_ORACLE_TYPE_NATIVE_INT | DPI_NATIVE_TYPE_INT64 => T_int64
  | DPI_ORACLE_TYPE_NATIVE_UINT | DPI_NATIVE_TYPE_UINT64 => T_uint64
  | DPI_ORACLE_TYPE_TIMESTAMP | DPI_NATIVE_TYPE_TIMESTAMP
  | DPI_ORACLE_TYPE_TIMESTAMP_TZ | DPI_ORACLE_TYPE_TIMESTAMP_LTZ
  | DPI_ORACLE_TYPE_DATE => T_Time
  | DPI_ORACLE_TYPE_INTERVAL_DS | DPI_NATIVE_TYPE_INTERVAL_DS => T_Duration
  | DPI_ORACLE_TYPE_CLOB | DPI_ORACLE_TYPE_NCLOB => T_string
  | DPI_ORACLE_TYPE_BLOB | DPI_ORACLE_TYPE_BFILE => T_bytes
  | DPI_ORACLE_TYPE_STMT | DPI_NATIVE_TYPE_STMT => T_statement_ptr
  | DPI_ORACLE_TYPE_BOOLEAN | DPI_NATIVE_TYPE_BOOLEAN => T_bool
  | _ => T_string
  end.

Definition ColumnTypeScanType (r : rows) (index : nat) : option reflectType :=
  scanTypeOf <$> columns r !! index.

(** The dynamic type of a value [Next] stores. *)
Definition goTypeOf (v : driverValue) : reflectType :=
  match v with
  | DNil => T_nil
  | DString _ | DStringYM _ _ => T_string
  | DInt64 _ => T_int64
  | DUint64 _ => T_uint64
  | DFloat32 _ => T_float32
  | DFloat64 _ => T_float64
  | DCInt64 _ => T_C_int64_t
  | DCUint64 _ => T_C_uint64_t
  | DCFloat _ => T_C_float
  | DCDouble _ => T_C_double
  | DBytes _ => T_bytes
  | DTime _ _ _ _ _ _ _ _ => T_Time
  | DDuration _ => T_Duration
  | DLob _ _ => T_Lob_ptr
  | DRows _ => T_rows_ptr
  | DBool _ => T_bool
  end.

(** The column types for which [Next] converts the cell to a Go type with
    an explicit conversion or constructor. *)
Definition plainType (t : dpiTypeNum) : bool :=
  match t with
  | DPI_ORACLE_TYPE_VARCHAR | DPI_ORACLE_TYPE_NVARCHAR
  | DPI_ORACLE_TYPE_CHAR | DPI_ORACLE_TYPE_NCHAR | DPI_ORACLE_TYPE_LONG_VARCHAR
  | DPI_ORACLE_TYPE_ROWID | DPI_NATIVE_TYPE_ROWID
  | DPI_ORACLE_TYPE_RAW | DPI_ORACLE_TYPE_LONG_RAW
  | DPI_ORACLE_TYPE_NATIVE_FLOAT | DPI_NATIVE_TYPE_FLOAT
  | DPI_ORACLE_TYPE_NATIVE_DOUBLE | DPI_NATIVE_TYPE_DOUBLE
  | DPI_ORACLE_TYPE_NATIVE_INT | DPI_NATIVE_TYPE_INT64
  | DPI_ORACLE_TYPE_NATIVE_UINT | DPI_NATIVE_TYPE_UINT64
  | DPI_ORACLE_TYPE_TIMESTAMP | DPI_ORACLE_TYPE_TIMESTAMP_TZ
  | DPI_ORACLE_TYPE_TIMESTAMP_LTZ | DPI_NATIVE_TYPE_TIMESTAMP
  | DPI_ORACLE_TYPE_DATE
  | DPI_ORACLE_TYPE_INTERVAL_DS | DPI_NATIVE_TYPE_INTERVAL_DS
  | DPI_ORACLE_TYPE_INTERVAL_YM | DPI_NATIVE_TYPE_INTERVAL_YM
  | DPI_ORACLE_TYPE_BOOLEAN | DPI_NATIVE_TYPE_BOOLEAN => true
  | _ => false
  end.

(** The large-object column types. *)
Definition lobType (t : dpiTypeNum) : bool :=
  match t with
  | DPI_ORACLE_TYPE_CLOB | DPI_ORACLE_TYPE_NCLOB
  | DPI_ORACLE_TYPE_BLOB | DPI_ORACLE_TYPE_BFILE | DPI_NATIVE_TYPE_LOB => true
  | _ => false
  end.

(** The nested-cursor column types. *)
Definition stmtType (t : dpiTypeNum) : bool :=
  match t with
  | DPI_ORACLE_TYPE_STMT | DPI_NATIVE_TYPE_STMT => true
  | _ => false
  end.

(** The cells of the current row: [r.data[i][r.bufferRowIndex]] for each
    column [i], where it exists. *)
Definition rowCell (r : rows) (i : nat) : option cell :=
  r_data r !! i ≫= (fun di => di !! Z.to_nat (bufferRowIndex r)).

(** Reading those cells, in order. *)
Definition cellReads (cells : list cell) : list ncall :=
  (fun c => dpiData_get c.1 c.2) <$> cells.

(** Every cell read is NULL. *)
Definition nativeNull : Native := fun h c =>
  match c with
  | dpiData_get _ _ =>
      RData {| isNull := 1; asBoolean := 0; asInt64 := 0; asUint64 := 0;
               asFloat := 0; asDouble := 0; asBytes := None;
               asTimestamp := asTimestamp zeroData;
               asIntervalDS := asIntervalDS zeroData;
               asIntervalYM := asIntervalYM zeroData;
               asLOB := NULL; asStmt := NULL |}
  | _ => nativeOK h c
  end.

(** A cursor holding one buffered row of two columns, the second of a type
    [Next] does not support. *)
Definition buffered2 : rows :=
  {| r_statement := prepared 9;
     columns := [ {| col_Name := "A"; col_Type := DPI_ORACLE_TYPE_VARCHAR;
                     col_DefaultNumType := DPI_NATIVE_TYPE_BYTES; col_Size := 10;
                     col_Precision := 0; col_Scale := 0; col_Nullable := true;
                     col_ObjectType := NULL |};
                  {| col_Name := "B"; col_Type := DPI_ORACLE_TYPE_OBJECT;
                     col_DefaultNumType := TYPE_OTHER 0; col_Size := 0;
                     col_Precision := 0; col_Scale := 0; col_Nullable := true;
                     col_ObjectType := NULL |} ];
     bufferRowIndex := 0; fetched := 1; finished := false;
     r_vars := [1; 2]; r_data := [[(1, 0)]; [(2, 0)]] |}.

(** ** What a computation asks of the native layer *)

(** Whatever the native layer answers, the computation [m] keeps the
    history it starts from and adds only calls that satisfy [P]. *)
Definition only {A} (P : ncall -> Prop) (m : M A) : Prop :=
  forall dpi h, exists new, snd (m dpi h) = h ++ new /\ Forall P new.

(** Whatever the native layer answers, the calls the computation [m] adds
    to the history it starts from form a list that satisfies [T]. *)
Definition trace {A} (T : history -> Prop) (m : M A) : Prop :=
  forall dpi h, exists new, snd (m dpi h) = h ++ new /\ T new.

(** The calls by which [bindVars] prepares one argument: allocating a
    variable of [size] slots with the array flag [flag], setting a slot,
    streaming a temporary LOB, and fetching the diagnostic. *)
Definition argPhaseCall (flag : bool) (size : Z) (c : ncall) : bool :=
  match c with
  | newVar isPlSQLArray _ _ arraySize _ =>
      Bool.eqb isPlSQLArray flag && (arraySize =? size)
  | getError
  | dpiData_setNull _ _ | dpiData_setBool _ _ _
  | dpiData_setInt64 _ _ _ | dpiData_setUint64 _ _ _
  | dpiData_setFloat _ _ _ | dpiData_setDouble _ _ _
  | dpiData_setTimestamp _ _ _ _ _ _ _ _ _ _ _
  | dpiVar_setFromBytes _ _ _ _ | dpiVar_setFromLob _ _ _
  | dpiConn_newTempLob _ _ | dpiLob_getChunkSize _
  | dpiLob_openResource _ | dpiLob_writeBytes _ _ _ _ | dpiLob_getSize _
  | dpiLob_flushBuffer _ | dpiLob_closeResource _ => true
  | _ => false
  end.

(** The calls of the two bind loops of [bindVars]: binds by position
    ([byName] false) or by name ([byName] true), and the diagnostic. *)
Definition bindCall (byName : bool) (c : ncall) : bool :=
  match c with
  | getError => true
  | dpiStmt_bindByPos _ _ _ => negb byName
  | dpiStmt_bindByName _ _ _ _ => byName
  | _ => false
  end.

Definition isBindByName (c : ncall) : bool :=
  match c with dpiStmt_bindByName _ _ _ _ => true | _ => false end.

Definition isBind (c : ncall) : bool :=
  match c with
  | dpiStmt_bindByPos _ _ _ | dpiStmt_bindByName _ _ _ _ => true
  | _ => false
  end.


(** What [st.Break()] can ask of the native layer on connection [c]:
    nothing when it is not called, the break, or the break and, when it
    fails, the diagnostic. *)
Definition breakCalls (c : conn) (brk : history) : Prop :=
  brk = []
  \/ brk = [dpiConn_breakExecution (dpiConn c)]
  \/ brk = [dpiConn_breakExecution (dpiConn c); getError].

(** The calls of the binding phase: allocating a variable of [size] slots
    with the array flag [flag], setting a slot, streaming a temporary LOB,
    binding a variable, and fetching the diagnostic. *)
Definition bindPhaseCall (flag : bool) (size : Z) (c : ncall) : bool :=
  match c with
  | newVar isPlSQLArray _ _ arraySize _ =>
      Bool.eqb isPlSQLArray flag && (arraySize =? size)
  | getError
  | dpiData_setNull _ _ | dpiData_setBool _ _ _
  | dpiData_setInt64 _ _ _ | dpiData_setUint64 _ _ _
  | dpiData_setFloat _ _ _ | dpiData_setDouble _ _ _
  | dpiData_setTimestamp _ _ _ _ _ _ _ _ _ _ _
  | dpiVar_setFromBytes _ _ _ _ | dpiVar_setFromLob _ _ _
  | dpiConn_newTempLob _ _ | dpiLob_getChunkSize _
  | dpiLob_openResource _ | dpiLob_writeBytes _ _ _ _ | dpiLob_getSize _
  | dpiLob_flushBuffer _ | dpiLob_closeResource _
  | dpiStmt_bindByPos _ _ _ | dpiStmt_bindByName _ _ _ _ => true
  | _ => false
  end.

(** The number of slots [bindVars] gives each variable for an argument
    list: the common slice length in batch mode, one otherwise. *)
Definition slotsFor (st : statement) (args : list NamedValue) : Z :=
  if negb (PlSQLArrays st) && (minimum (sliceArgLens args) >? 0)
  then minimum (sliceArgLens args) else 1.

(** The calls by which a result set is opened and a row is materialised:
    everything the fetching phase asks of the native layer except the
    fetch itself. *)
Definition materialiseCall (c : ncall) : bool :=
  match c with
  | getError | newVar false _ _ _ _
  | dpiStmt_setFetchArraySize _ _ | dpiStmt_getQueryInfo _ _
  | dpiStmt_define _ _ _ | dpiStmt_addRef _
  | dpiStmt_getNumQueryColumns _
  | dpiData_get _ _ => true
  | _ => false
  end.

(** ** Running a bound statement *)

(** The row count cannot be read: [dpiStmt_getRowCount] fails. *)
Definition nativeNoRowCount : Native := fun h c =>
  match c with
  | dpiStmt_getRowCount _ => RStatus false
  | _ => nativeOK h c
  end.

(** The first result column is reported with [DPI_ORACLE_TYPE_NUMBER] as
    its default native type, every other one with [DPI_ORACLE_TYPE_DATE]. *)
Definition nativeNumberDate : Native := fun h c =>
  match c with
  | dpiStmt_getQueryInfo _ pos =>
      RInfo true
        {| qi_name := "C"; oracleTypeNum := DPI_ORACLE_TYPE_NUMBER;
           defaultNativeTypeNum :=
             if pos =? 1 then DPI_ORACLE_TYPE_NUMBER else DPI_ORACLE_TYPE_DATE;
           clientSizeInBytes := 22; precision := 10; scale := 0; nullOk := 1;
           objectType := NULL |}
  | _ => nativeOK h c
  end.

(** The native types a column keeps after the [switch] of [openRows] on
    [info.defaultNativeTypeNum]. *)
Definition keptNativeType (c : Column) : bool :=
  match col_DefaultNumType c with
  | DPI_ORACLE_TYPE_NUMBER | DPI_ORACLE_TYPE_DATE => false
  | _ => true
  end.

(** * Properties *)

(** ** Machine integers *)

Lemma u64_small z : 0 <= z < 2 ^ 64 -> u64 z = z.
Proof. intros H. unfold u64. apply Z.mod_small. exact H. Qed.

Lemma i64_small z : - 2 ^ 63 <= z < 2 ^ 63 -> i64 z = z.
Proof. intros H. unfold i64. rewrite Z.mod_small; lia. Qed.

Lemma len_nonneg {A} (l : list A) : 0 <= len l.
Proof. unfold len. lia. Qed.

Lemma slen_nonneg s : 0 <= slen s.
Proof. unfold slen. lia. Qed.

(** ** Batch shape: what the first loop of [bindVars] computes *)

Section ArrLens.

Lemma sliceLen_nonneg v n : sliceLen v = Some n -> 0 <= n.
Proof.
  destruct v; simpl; intros H; inversion H; subst; apply len_nonneg.
Qed.

Lemma sliceArgLens_nonneg args : Forall (fun n => 0 <= n) (sliceArgLens args).
Proof.
  induction args as [|a args IH]; simpl; [constructor|].
  unfold sliceArgLens in *. simpl.
  destruct (isByteSlice (Value a)); simpl; [exact IH|].
  destruct (sliceLen (Value a)) as [n|] eqn:E; simpl; [|exact IH].
  constructor; [eapply sliceLen_nonneg; eauto | exact IH].
Qed.

Lemma arrLens_fold args acc :
  fold_left
    (fun '(minArrLen, maxArrLen) a =>
       if isByteSlice (Value a) then (minArrLen, maxArrLen)
       else match sliceLen (Value a) with
            | Some n =>
                (if (minArrLen =? -1) || (n <? minArrLen) then n else minArrLen,
                 if (maxArrLen =? -1) || (n >? maxArrLen) then n else maxArrLen)
            | None => (minArrLen, maxArrLen)
            end)
    args acc
  = fold_left arrLens_step (sliceArgLens args) acc.
Proof.
  revert acc. induction args as [|a args IH]; intros [mn mx]; [reflexivity|].
  unfold sliceArgLens in *. simpl.
  destruct (isByteSlice (Value a)); simpl; [apply IH|].
  destruct (sliceLen (Value a)); simpl; apply IH.
Qed.

Lemma fold_step_seen l mn mx :
  0 <= mn -> 0 <= mx -> Forall (fun n => 0 <= n) l ->
  fold_left arrLens_step l (mn, mx) = (fold_left Z.min l mn, fold_left Z.max l mx).
Proof.
  revert mn mx. induction l as [|n l IH]; intros mn mx Hmn Hmx Hl; [reflexivity|].
  inversion Hl as [|? ? Hn Hl']; subst. simpl.
  replace (mn =? -1) with false by (symmetry; apply Z.eqb_neq; lia).
  replace (mx =? -1) with false by (symmetry; apply Z.eqb_neq; lia).
  simpl.
  replace (if n <? mn then n else mn) with (Z.min mn n)
    by (destruct (Z.ltb_spec n mn); lia).
  replace (if n >? mx then n else mx) with (Z.max mx n)
    by (rewrite Z.gtb_ltb; destruct (Z.ltb_spec mx n); lia).
  apply IH; [lia | lia | exact Hl'].
Qed.

(** The loop leaves the least and the greatest observed length, or
    [(-1, -1)] when no slice was seen. *)
Lemma arrLens_spec args :
  arrLens args = (minimum (sliceArgLens args), maximum (sliceArgLens args)).
Proof.
  unfold arrLens. rewrite arrLens_fold.
  pose proof (sliceArgLens_nonneg args) as Hnn.
  destruct (sliceArgLens args) as [|n l]; [reflexivity|].
  inversion Hnn; subst. simpl.
  apply fold_step_seen; assumption.
Qed.

End ArrLens.

Lemma fold_min_le l : forall a, fold_left Z.min l a <= a.
Proof.
  induction l as [|n l IH]; intros a; simpl; [lia|].
  specialize (IH (Z.min a n)). lia.
Qed.

Lemma fold_min_le_elem l : forall a x, x ∈ l -> fold_left Z.min l a <= x.
Proof.
  induction l as [|n l IH]; intros a x Hx; [inversion Hx|].
  simpl. apply elem_of_cons in Hx as [->|Hx].
  - pose proof (fold_min_le l (Z.min a n)). lia.
  - apply IH. exact Hx.
Qed.

Lemma fold_max_ge l : forall a, a <= fold_left Z.max l a.
Proof.
  induction l as [|n l IH]; intros a; simpl; [lia|].
  specialize (IH (Z.max a n)). lia.
Qed.

Lemma fold_max_ge_elem l : forall a x, x ∈ l -> x <= fold_left Z.max l a.
Proof.
  induction l as [|n l IH]; intros a x Hx; [inversion Hx|].
  simpl. apply elem_of_cons in Hx as [->|Hx].
  - pose proof (fold_max_ge l (Z.max a n)). lia.
  - apply IH. exact Hx.
Qed.

Lemma minimum_le l x : x ∈ l -> minimum l <= x.
Proof.
  destruct l as [|n l]; intros Hx; [inversion Hx|]. simpl.
  apply elem_of_cons in Hx as [->|Hx];
    [apply fold_min_le | apply fold_min_le_elem; exact Hx].
Qed.

Lemma maximum_ge l x : x ∈ l -> x <= maximum l.
Proof.
  destruct l as [|n l]; intros Hx; [inversion Hx|]. simpl.
  apply elem_of_cons in Hx as [->|Hx];
    [apply fold_max_ge | apply fold_max_ge_elem; exact Hx].
Qed.

Lemma fold_min_nonneg l : forall a,
  0 <= a -> Forall (fun n => 0 <= n) l -> 0 <= fold_left Z.min l a.
Proof.
  induction l as [|n l IH]; intros a Ha Hl; simpl; [exact Ha|].
  inversion Hl; subst. apply IH; [lia | assumption].
Qed.

(** With a slice present the least length is a length, hence not the
    sentinel. *)
Lemma minimum_nonneg args :
  sliceArgLens args <> [] -> 0 <= minimum (sliceArgLens args).
Proof.
  intros Hne. pose proof (sliceArgLens_nonneg args) as Hnn.
  destruct (sliceArgLens args) as [|n l]; [congruence|].
  inversion Hnn; subst. simpl. apply fold_min_nonneg; assumption.
Qed.

(** ** Binding: the two shape checks *)

Section ShapeChecks.

Variable native : Native.
Variable h : history.

Lemma bindVars_too_long st args :
  maxArraySize < maximum (sliceArgLens args) ->
  bindVars st args native h
  = (Val (resliced st args, Some (sizeLimitError (maximum (sliceArgLens args)))), h).
Proof.
  intros Hmax. unfold bindVars. rewrite arrLens_spec.
  replace (maximum (sliceArgLens args) >? maxArraySize) with true
    by (symmetry; apply Z.gtb_lt; lia).
  reflexivity.
Qed.

Lemma bindVars_mismatch st args :
  PlSQLArrays st = false ->
  maximum (sliceArgLens args) <= maxArraySize ->
  minimum (sliceArgLens args) <> -1 ->
  minimum (sliceArgLens args) <> maximum (sliceArgLens args) ->
  bindVars st args native h
  = (Val (resliced st args,
          Some (shapeError (minimum (sliceArgLens args))
                  (maximum (sliceArgLens args)))), h).
Proof.
  intros Hflag Hmax Hsome Hne. unfold bindVars. rewrite arrLens_spec.
  replace (maximum (sliceArgLens args) >? maxArraySize) with false
    by (symmetry; rewrite Z.gtb_ltb; apply Z.ltb_ge; lia).
  simpl. rewrite Hflag. simpl.
  replace (minimum (sliceArgLens args) =? -1) with false
    by (symmetry; apply Z.eqb_neq; exact Hsome).
  replace (minimum (sliceArgLens args) =? maximum (sliceArgLens args)) with false
    by (symmetry; apply Z.eqb_neq; exact Hne).
  reflexivity.
Qed.

(** C2.  Whenever the greatest length among the slice arguments exceeds
    the ceiling of 1024, [bindVars] returns the size-limit error naming
    that length and the ceiling.  It does so whatever the flag and the
    other lengths are (so before the shape check), and the history of
    native calls is the one it started from: no variable buffer is
    allocated, nor is anything else asked of the native layer. *)
Theorem bindVars_size_limit st args :
  maxArraySize < maximum (sliceArgLens args) ->
  exists st',
    bindVars st args native h
    = (Val (st', Some (sizeLimitError (maximum (sliceArgLens args)))), h)
    /\ maxArraySize = 1024
    /\ sizeLimitError (maximum (sliceArgLens args))
       <> shapeError (minimum (sliceArgLens args)) (maximum (sliceArgLens args))
    /\ PlSQLArrays st' = PlSQLArrays st /\ arrLen st' = arrLen st.
Proof.
  intros Hmax. exists (resliced st args).
  split; [apply bindVars_too_long; exact Hmax|].
  repeat split. discriminate.
Qed.

(** C1, as the code has it.  With the flag unset, two slice arguments of
    different lengths, and no length above the ceiling, [bindVars]
    returns the shape-mismatch error naming the least and the greatest
    length, and the history of native calls is unchanged: no variable
    buffer is allocated. *)
Theorem bindVars_shape_mismatch st args a b :
  PlSQLArrays st = false ->
  a ∈ sliceArgLens args -> b ∈ sliceArgLens args -> a <> b ->
  maximum (sliceArgLens args) <= maxArraySize ->
  exists st',
    bindVars st args native h
    = (Val (st', Some (shapeError (minimum (sliceArgLens args))
                         (maximum (sliceArgLens args)))), h)
    /\ PlSQLArrays st' = PlSQLArrays st /\ arrLen st' = arrLen st.
Proof.
  intros Hflag Ha Hb Hab Hmax. exists (resliced st args).
  split; [|repeat split].
  apply bindVars_mismatch; try assumption.
  - assert (sliceArgLens args <> []) as Hne
        by (intros E; rewrite E in Ha; inversion Ha).
    pose proof (minimum_nonneg args Hne). lia.
  - pose proof (minimum_le _ _ Ha). pose proof (minimum_le _ _ Hb).
    pose proof (maximum_ge _ _ Ha). pose proof (maximum_ge _ _ Hb). lia.
Qed.

End ShapeChecks.

Lemma bindVars_size_limit_witness :
  maxArraySize < maximum (sliceArgLens args_1_and_1025)
  /\ exists st',
      bindVars (prepared 9) args_1_and_1025 nativeOK []
      = (Val (st', Some (sizeLimitError (maximum (sliceArgLens args_1_and_1025)))), [])
      /\ maxArraySize = 1024
      /\ sizeLimitError (maximum (sliceArgLens args_1_and_1025))
         <> shapeError (minimum (sliceArgLens args_1_and_1025))
              (maximum (sliceArgLens args_1_and_1025))
      /\ PlSQLArrays st' = PlSQLArrays (prepared 9)
      /\ arrLen st' = arrLen (prepared 9).
Proof.
  assert (maxArraySize < maximum (sliceArgLens args_1_and_1025)) as H
      by (vm_compute; reflexivity).
  split; [exact H|].
  exact (bindVars_size_limit nativeOK [] (prepared 9) args_1_and_1025 H).
Defined.

Lemma bindVars_shape_mismatch_witness :
  PlSQLArrays (prepared 9) = false
  /\ 2 ∈ sliceArgLens args_2_and_3 /\ 3 ∈ sliceArgLens args_2_and_3 /\ 2 <> 3
  /\ maximum (sliceArgLens args_2_and_3) <= maxArraySize
  /\ exists st',
      bindVars (prepared 9) args_2_and_3 nativeOK []
      = (Val (st', Some (shapeError (minimum (sliceArgLens args_2_and_3))
                           (maximum (sliceArgLens args_2_and_3)))), [])
      /\ PlSQLArrays st' = PlSQLArrays (prepared 9)
      /\ arrLen st' = arrLen (prepared 9).
Proof.
  assert (2 ∈ sliceArgLens args_2_and_3) as H2 by (vm_compute; left).
  assert (3 ∈ sliceArgLens args_2_and_3) as H3 by (vm_compute; right; left).
  assert (maximum (sliceArgLens args_2_and_3) <= maxArraySize) as Hm
      by (vm_compute; discriminate).
  repeat split; try assumption; try lia.
  exact (bindVars_shape_mismatch nativeOK [] (prepared 9) args_2_and_3 2 3
           eq_refl H2 H3 ltac:(lia) Hm).
Defined.

(** C1 as stated fails: with the flag unset and two slices of lengths 1
    and 1025, [bindVars] fails with the size-limit error, which is checked
    first, not with the shape-mismatch error. *)
Lemma bindVars_shape_mismatch_not_always :
  PlSQLArrays (prepared 9) = false
  /\ sliceArgLens args_1_and_1025 = [1; 1025]
  /\ (exists st',
        bindVars (prepared 9) args_1_and_1025 nativeOK []
        = (Val (st', Some (sizeLimitError 1025)), []))
  /\ (forall mn mx, sizeLimitError 1025 <> shapeError mn mx).
Proof.
  split; [reflexivity|].
  split; [vm_compute; reflexivity|].
  split; [eexists; vm_compute; reflexivity|].
  intros mn mx. discriminate.
Qed.

(** ** Binding: batch length and batch mode *)

(** Case analysis on the test of the first conditional of the goal, and
    on the outcome of the first computation the goal runs. *)
Ltac destruct_if :=
  match goal with
  | |- context [if ?b then _ else _] => destruct b
  end.
Ltac destruct_run dpi h :=
  match goal with
  | |- context [match ?m dpi h with _ => _ end] =>
      let r := fresh "r" in let msg := fresh "msg" in let h' := fresh "h" in
      destruct (m dpi h) as [[r|msg] h']
  end.
Ltac destruct_run_in H dpi h :=
  match type of H with
  | context [match ?m dpi h with _ => _ end] =>
      let r := fresh "r" in let msg := fresh "msg" in let h' := fresh "h" in
      destruct (m dpi h) as [[r|msg] h']
  end.

(** The loop over the arguments touches only [st.vars] and [st.data]. *)
Lemma bindArgs_frame args : forall st dm dl i named dpi h st' named' e h',
  bindArgs st dm dl i args named dpi h = (Val (st', named', e), h') ->
  arrLen st' = arrLen st /\ PlSQLArrays st' = PlSQLArrays st
  /\ dpiStmt st' = dpiStmt st /\ st_conn st' = st_conn st.
Proof.
  induction args as [|a args IH]; intros st dm dl i named dpi h st' named' e h' H.
  - simpl in H. unfold ret in H. inversion H; subst. auto.
  - simpl in H. destruct (unwrapOut (Value a)) as [v|]; [|discriminate].
    destruct (typeSwitch (Z.of_nat i) v) as [[[[set typ] natTyp] bufSize]|err].
    2: { unfold ret in H. inversion H; subst. auto. }
    unfold bind at 1 in H.
    destruct (st_newVar (PlSQLArrays st) typ natTyp dl bufSize dpi h)
      as [[[[dv vdata] err]|msg] h1]; [|discriminate].
    destruct err as [err|].
    { unfold ret in H. inversion H; subst. simpl. auto. }
    unfold bind at 1 in H.
    destruct_run_in H dpi h1; [|discriminate].
    destruct r as [err|].
    { unfold ret in H. inversion H; subst. simpl. auto. }
    apply IH in H. simpl in H. exact H.
Qed.

(** Past its two checks [bindVars] stores the least slice length (or
    [-1]) in [st.arrLen] before it binds anything, and nothing later
    changes it. *)
Lemma bindVars_frame dpi h st args st' e h' :
  bindVars st args dpi h = (Val (st', e), h') ->
  PlSQLArrays st' = PlSQLArrays st /\ dpiStmt st' = dpiStmt st
  /\ st_conn st' = st_conn st
  /\ (maximum (sliceArgLens args) <= maxArraySize ->
      PlSQLArrays st = true
      \/ minimum (sliceArgLens args) = maximum (sliceArgLens args) ->
      arrLen st' = minimum (sliceArgLens args)).
Proof.
  unfold bindVars. rewrite arrLens_spec.
  set (st1 := set_vars_data st _ _).
  destruct (Z.gtb_spec (maximum (sliceArgLens args)) maxArraySize) as [Hgt|Hle].
  { unfold ret. intros H; inversion H; subst. simpl. repeat split. lia. }
  destruct (negb (PlSQLArrays st1) && negb (minimum (sliceArgLens args) =? -1)
            && negb (minimum (sliceArgLens args) =? maximum (sliceArgLens args)))
    eqn:Hshape.
  { unfold ret. intros H; inversion H; subst. simpl. repeat split.
    intros _ Hok. exfalso.
    apply andb_true_iff in Hshape as [Hshape Hne].
    apply andb_true_iff in Hshape as [Hflag _].
    apply negb_true_iff in Hflag, Hne. apply Z.eqb_neq in Hne.
    simpl in Hflag. destruct Hok; congruence. }
  unfold bind at 1.
  match goal with
  | |- context [bindArgs ?s ?dm ?dl 0%nat args false dpi h] =>
      destruct (bindArgs s dm dl 0%nat args false dpi h)
        as [[[[st2 named] err]|msg] h1] eqn:E
  end; [|discriminate].
  apply bindArgs_frame in E. simpl in E. destruct E as (Ea & Ep & Es & Ec).
  destruct err as [err|].
  { unfold ret. intros H; inversion H; subst. auto 10. }
  unfold bind.
  destruct_run dpi h1; [|discriminate].
  unfold ret. intros H; inversion H; subst. auto 10.
Qed.



(** ** LOB reader *)

(** On a nil reader, on a finished reader and with an empty buffer [Read]
    makes no native call. *)
Lemma Read_idle dpi h dlr p :
  dlr = None \/ ((exists r, dlr = Some r /\ dlr_finished r = true) \/ p = []) ->
  exists n err, Read dlr p dpi h = (Val (dlr, p, (n, err)), h).
Proof.
  intros [-> | [(r & -> & Hfin) | ->]].
  - eexists _, _. reflexivity.
  - unfold Read. rewrite Hfin. eexists _, _. reflexivity.
  - destruct dlr as [r|]; [|eexists _, _; reflexivity].
    unfold Read. destruct (dlr_finished r); eexists _, _; reflexivity.
Qed.

(** A finished reader answers end-of-stream and stays as it is. *)
Lemma Read_finished dpi h r p :
  dlr_finished r = true ->
  Read (Some r) p dpi h = (Val (Some r, p, (0, Some EOF)), h).
Proof. intros Hfin. unfold Read. rewrite Hfin. reflexivity. Qed.

(** C4.  A [Read] that reaches the native layer (the reader is not
    finished and the buffer is not empty) issues exactly one
    [dpiLob_readBytes], on the reader's locator, starting at its offset
    plus 1, for the length of the buffer.  When that call fails, the
    diagnostic is fetched: code 1403 turns into [io.EOF] and finishes the
    reader; any other code is returned wrapped with the locator, the
    offset and the requested length, and the reader is left as it was. *)
Theorem Read_native_read dpi h r p :
  dlr_finished r = false -> p <> [] ->
  0 <= dlr_offset r -> dlr_offset r + 1 < 2 ^ 64 -> len p < 2 ^ 64 ->
  let c := dpiLob_readBytes (dlr_dpiLob r) (dlr_offset r + 1) (len p) in
  let e := outError (dpi (h ++ [c]) getError) in
  exists r' p' n err,
    if succeeded (dpi h c)
    then Read (Some r) p dpi h = (Val (Some r', p', (n, err)), h ++ [c])
         /\ (err = None \/ err = Some EOF)
    else Read (Some r) p dpi h = (Val (Some r', p', (n, err)), h ++ [c; getError])
         /\ (Code e = 1403 -> err = Some EOF /\ dlr_finished r' = true)
         /\ (Code e <> 1403 ->
             err = Some (Wrapf e "lob=%p offset=%d n=%d"
                           [FPtr (dlr_dpiLob r); FInt (dlr_offset r); FInt (len p)])
             /\ r' = r).
Proof.
  intros Hfin Hp Hoff Hoff1 Hlen c e.
  assert ((len p =? 0) = false) as Hp0.
  { apply Z.eqb_neq. destruct p; [congruence|]. unfold len. simpl. lia. }
  unfold Read. rewrite Hfin, Hp0.
  rewrite (u64_small (len p)) by (pose proof (len_nonneg p); lia).
  rewrite (u64_small (dlr_offset r + 1)) by lia.
  unfold bind, getErr, call, ret. simpl. fold c. subst e.
  destruct (succeeded (dpi h c)) eqn:Hok; simpl.
  - eexists _, _, _, _. split; [reflexivity|].
    destruct (outZ (dpi h c) (len p) =? 0); auto.
  - destruct (Z.eqb_spec (Code (outError (dpi (h ++ [c]) getError))) 1403) as [Hc|Hc].
    + eexists _, _, _, _. rewrite <- app_assoc. simpl.
      split; [reflexivity|]. split; [auto|]. intros; congruence.
    + eexists _, _, _, _. rewrite <- app_assoc. simpl.
      split; [reflexivity|]. split; [intros; congruence|].
      intros _. split; [reflexivity|].
      destruct r; simpl in *; subst; reflexivity.
Qed.

Lemma Read_native_read_witness :
  dlr_finished reader7 = false /\ ["a"%byte; "b"%byte; "c"%byte] <> []
  /\ 0 <= dlr_offset reader7 /\ dlr_offset reader7 + 1 < 2 ^ 64
  /\ len ["a"%byte; "b"%byte; "c"%byte] < 2 ^ 64
  /\ exists r' p' n err,
      Read (Some reader7) ["a"%byte; "b"%byte; "c"%byte] nativeOK []
      = (Val (Some r', p', (n, err)), [dpiLob_readBytes 7 1 3])
      /\ (err = None \/ err = Some EOF).
Proof.
  assert (["a"%byte; "b"%byte; "c"%byte] <> []) as Hp by discriminate.
  assert (dlr_offset reader7 + 1 < 2 ^ 64) as Ho by (vm_compute; reflexivity).
  assert (len ["a"%byte; "b"%byte; "c"%byte] < 2 ^ 64) as Hl by (vm_compute; reflexivity).
  assert (0 <= dlr_offset reader7) as H0 by (vm_compute; discriminate).
  repeat (split; [assumption || reflexivity|]).
  exact (Read_native_read nativeOK [] reader7 ["a"%byte; "b"%byte; "c"%byte]
           eq_refl Hp H0 Ho Hl).
Defined.

(** When the native read fails with code 1403 the reader is finished, and
    from then on it answers end-of-stream without a native call. *)
Lemma Read_1403_sticky dpi h r p :
  dlr_finished r = false -> p <> [] ->
  let c := dpiLob_readBytes (dlr_dpiLob r) (u64 (dlr_offset r + 1)) (u64 (len p)) in
  succeeded (dpi h c) = false ->
  Code (outError (dpi (h ++ [c]) getError)) = 1403 ->
  exists r' p' n,
    Read (Some r) p dpi h = (Val (Some r', p', (n, Some EOF)), h ++ [c; getError])
    /\ forall q dpi2 h2,
        Read (Some r') q dpi2 h2 = (Val (Some r', q, (0, Some EOF)), h2).
Proof.
  intros Hfin Hp c Hfail Hcode.
  assert ((len p =? 0) = false) as Hp0.
  { apply Z.eqb_neq. destruct p; [congruence|]. unfold len. simpl. lia. }
  unfold Read at 1. rewrite Hfin, Hp0.
  unfold bind, getErr, call, ret. simpl. fold c. rewrite Hfail. simpl.
  rewrite Hcode. simpl.
  eexists _, _, _. rewrite <- app_assoc. simpl. split; [reflexivity|].
  intros q dpi2 h2. apply Read_finished. reflexivity.
Qed.

(** C5 fails on the code.  The first [Read] gets a successful native read
    of zero bytes and returns [io.EOF], but does not finish the reader
    (only code 1403 does); the next [Read] calls [dpiLob_readBytes] again
    and, the native layer now delivering two bytes, returns them with a
    nil error. *)
Theorem Read_eof_after_empty_read_not_sticky :
  let p := ["a"%byte; "b"%byte; "c"%byte] in
  let h1 := [dpiLob_readBytes 7 1 3] in
  Read (Some reader7) p nativeEmptyThenData []
  = (Val (Some reader7, p, (0, Some EOF)), h1)
  /\ Read (Some reader7) p nativeEmptyThenData h1
     = (Val (Some {| dlr_dpiLob := 7; dlr_offset := 2; dlr_finished := false |},
             ["x"%byte; "y"%byte; "c"%byte], (2, None)),
        h1 ++ [dpiLob_readBytes 7 1 3]).
Proof. split; vm_compute; reflexivity. Qed.

(** ** LOB writer *)

(** When the native write fails, the writer drops its locator, closes the
    resource, and returns the wrapped native error; [Close] is then a
    no-op. *)
Lemma Write_failure_discards dpi h dlw p :
  dlw_opened dlw = true -> p <> [] ->
  let lob := dlw_dpiLob dlw in
  let c := dpiLob_writeBytes lob (u64 (dlw_offset dlw + 1)) p (u64 (len p)) in
  succeeded (dpi h c) = false ->
  exists dlw' e,
    Write dlw p dpi h
    = (Val (dlw', (0, Some (Wrapf e "writeBytes(%p, offset=%d, data=%d)"
                             [FPtr lob; FInt (dlw_offset dlw); FInt (u64 (len p))]))),
       h ++ [c; getError; dpiLob_closeResource lob])
    /\ e = outError (dpi (h ++ [c]) getError)
    /\ dlw_dpiLob dlw' = NULL
    /\ forall dpi2 h2, Close (Some dlw') dpi2 h2 = (Val (Some dlw', None), h2).
Proof.
  intros Hopen Hp lob c Hfail.
  unfold Write. rewrite Hopen. simpl. unfold Write_bytes.
  destruct p as [|b p]; [congruence|].
  unfold bind, getErr, call, ret. simpl. fold lob. fold c. rewrite Hfail. simpl.
  eexists _, _. rewrite <- !app_assoc. simpl.
  split; [reflexivity|]. split; [reflexivity|]. split; [reflexivity|].
  intros dpi2 h2. reflexivity.
Qed.

(** C7 fails on the code for the resource-open half.  When
    [dpiLob_openResource] fails, [Write] returns the wrapped native error
    but keeps its locator: a later [Close] flushes and closes that
    locator, and a later [Write] opens it again. *)
Theorem Write_open_failure_keeps_locator :
  let p := ["a"%byte] in
  let h1 := [dpiLob_openResource 7; getError] in
  Write writer7 p nativeOpenFails []
  = (Val (writer7,
          (0, Some (Wrapf (OraErr 22275 "invalid LOB locator specified")
                      "openResources(%p)" [FPtr 7]))), h1)
  /\ dlw_dpiLob writer7 = 7
  /\ Close (Some writer7) nativeOpenFails h1
     = (Val (Some {| dlw_dpiLob := NULL; dlw_offset := 0; dlw_opened := false |}, None),
        h1 ++ [dpiLob_flushBuffer 7; dpiLob_closeResource 7])
  /\ snd (Write writer7 p nativeOpenFails h1)
     = h1 ++ [dpiLob_openResource 7; getError].
Proof. repeat split; vm_compute; reflexivity. Qed.

(** ** Fetch cursor *)

Lemma Next_finished dpi h r dest :
  finished r = true -> Next r dest dpi h = (Val (r, dest, Some EOF), h).
Proof. intros Hfin. unfold Next. rewrite Hfin. reflexivity. Qed.

Lemma NextTimes_finished k : forall dpi h r dest,
  finished r = true ->
  NextTimes k r dest dpi h = (Val (r, replicate k (Some EOF)), h).
Proof.
  induction k as [|k IH]; intros dpi h r dest Hfin; [reflexivity|].
  simpl. unfold bind at 1. rewrite Next_finished by exact Hfin.
  unfold bind at 1. rewrite IH by exact Hfin. reflexivity.
Qed.

(** C6, as the code has it.  When a next-row request with no buffered row
    fetches, gets zero rows and the native layer signals that no more data
    is pending ([moreRows = 0]), it reports [io.EOF] and marks the cursor
    finished; every later request then reports [io.EOF] again, without a
    native call and whatever the native layer would answer. *)
Theorem Next_exhausted_sticky dpi h r dest bri f :
  finished r = false -> fetched r = 0 ->
  let c := dpiStmt_fetchRows (dpiStmt (r_statement r)) fetchRowCount in
  dpi h c = RFetch true bri f 0 -> u32 f = 0 ->
  exists r1,
    Next r dest dpi h = (Val (r1, dest, Some EOF), h ++ [c])
    /\ finished r1 = true
    /\ forall k dest2 dpi2 h2,
        NextTimes k r1 dest2 dpi2 h2 = (Val (r1, replicate k (Some EOF)), h2).
Proof.
  intros Hfin Hf c Hresp Hzero.
  unfold Next. rewrite Hfin, Hf. simpl.
  unfold bind, call, ret. simpl. fold c. rewrite Hresp. simpl. rewrite Hzero. simpl.
  eexists. split; [reflexivity|]. split; [reflexivity|].
  intros k dest2 dpi2 h2. apply NextTimes_finished. reflexivity.
Qed.

Lemma Next_exhausted_sticky_witness :
  finished (opened (prepared 9)) = false /\ fetched (opened (prepared 9)) = 0
  /\ nativeOK [] (dpiStmt_fetchRows 9 fetchRowCount) = RFetch true 0 0 0
  /\ u32 0 = 0
  /\ exists r1,
      Next (opened (prepared 9)) [] nativeOK []
      = (Val (r1, [], Some EOF), [dpiStmt_fetchRows 9 fetchRowCount])
      /\ finished r1 = true
      /\ forall k dest2 dpi2 h2,
          NextTimes k r1 dest2 dpi2 h2 = (Val (r1, replicate k (Some EOF)), h2).
Proof.
  repeat (split; [reflexivity|]).
  exact (Next_exhausted_sticky nativeOK [] (opened (prepared 9)) [] 0 0
           eq_refl eq_refl eq_refl eq_refl).
Defined.

(** C6 as stated fails: a fetch that yields zero rows while the native
    layer says more are pending makes [Next] report [io.EOF] without
    finishing the cursor; the next request fetches again, and when that
    fetch fails it returns the native error, not [io.EOF]. *)
Lemma Next_eof_then_error :
  let r0 := opened (prepared 9) in
  let h1 := [dpiStmt_fetchRows 9 fetchRowCount] in
  Next r0 [] nativeNoRowThenFailure [] = (Val (r0, [], Some EOF), h1)
  /\ Next r0 [] nativeNoRowThenFailure h1
     = (Val (r0, [], Some (OraErr 3113 "end-of-file on communication channel")),
        h1 ++ [dpiStmt_fetchRows 9 fetchRowCount; getError])
  /\ Some (OraErr 3113 "end-of-file on communication channel") <> Some EOF.
Proof. repeat split; try (vm_compute; reflexivity). discriminate. Qed.

(** ** Text arguments: the buffer size *)

Lemma slen_le_maxByteLen l s : s ∈ l -> slen s <= maxByteLen l.
Proof.
  induction l as [|x l IH]; intros Hs; [inversion Hs|].
  simpl. apply elem_of_cons in Hs as [->|Hs]; [lia|].
  specialize (IH Hs). lia.
Qed.

Lemma maxByteLen_nonneg l : 0 <= maxByteLen l.
Proof. induction l as [|x l IH]; simpl; lia. Qed.

(** The loop over a [[]string] keeps the greatest of four times the byte
    lengths. *)
Lemma strings_bufSize l : forall acc,
  0 <= acc -> 4 * maxByteLen l < 2 ^ 63 ->
  fold_left (fun bufSize s =>
               let n := i64 (4 * slen s) in
               if n >? bufSize then n else bufSize) l acc
  = Z.max acc (4 * maxByteLen l).
Proof.
  induction l as [|s l IH]; intros acc Hacc Hmax; simpl in *.
  - lia.
  - pose proof (slen_nonneg s). pose proof (maxByteLen_nonneg l).
    rewrite (i64_small (4 * slen s)) by lia.
    rewrite IH by (destruct (4 * slen s >? acc); lia).
    rewrite Z.gtb_ltb. destruct (Z.ltb_spec acc (4 * slen s)); lia.
Qed.

Lemma length_bytesOf s : List.length (bytesOf s) = String.length s.
Proof.
  unfold bytesOf, list_byte_of_string. rewrite length_fmap, length_map.
  induction s as [|c s IH]; simpl; [reflexivity|]. rewrite IH. reflexivity.
Qed.

Lemma runeCount_ascii bs : forall fuel,
  (List.length bs <= fuel)%nat -> Forall (fun c => c < 0x80) bs ->
  runeCount fuel bs = len bs.
Proof.
  induction bs as [|c bs IH]; intros fuel Hfuel Hasc.
  - destruct fuel; reflexivity.
  - destruct fuel as [|fuel]; [simpl in Hfuel; lia|].
    inversion Hasc as [|? ? Hc Hrest]; subst.
    cbn [runeCount]. unfold runeSize.
    replace (c <? 128) with true by (symmetry; apply Z.ltb_lt; exact Hc).
    cbn [drop]. rewrite IH; [|simpl in Hfuel; lia|exact Hrest].
    unfold len. simpl List.length. lia.
Qed.

(** For ASCII text a character is a byte. *)
Lemma characterLength_ascii s : isASCII s -> characterLength s = slen s.
Proof.
  intros Hasc. unfold characterLength.
  rewrite runeCount_ascii; [|rewrite length_bytesOf; lia|exact Hasc].
  unfold len, slen. rewrite length_bytesOf. reflexivity.
Qed.

(** C8, as the code has it.  For a [string] argument the buffer size is 4
    times its Go length, which is its length in bytes; for a [[]string]
    argument it is 4 times the greatest byte length among its elements.  For
    text made of ASCII characters only, byte length and character length
    agree. *)
Theorem text_bufSize i :
  (forall s, 4 * slen s < 2 ^ 63 ->
     typeSwitch i (VString s)
     = inl (setBytes, DPI_ORACLE_TYPE_VARCHAR, DPI_NATIVE_TYPE_BYTES, 4 * slen s))
  /\ (forall l, 4 * maxByteLen l < 2 ^ 63 ->
        typeSwitch i (VStrings l)
        = inl (setBytes, DPI_ORACLE_TYPE_VARCHAR, DPI_NATIVE_TYPE_BYTES,
               4 * maxByteLen l))
  /\ (forall s, isASCII s -> characterLength s = slen s).
Proof.
  split; [|split].
  - intros s Hs. simpl. pose proof (slen_nonneg s).
    rewrite i64_small by lia. reflexivity.
  - intros l Hl. simpl. pose proof (maxByteLen_nonneg l).
    rewrite strings_bufSize by lia. do 2 f_equal. lia.
  - apply characterLength_ascii.
Qed.

Lemma text_bufSize_witness :
  4 * slen "abc" < 2 ^ 63 /\ 4 * maxByteLen ["ab"; "abcd"; ""] < 2 ^ 63
  /\ isASCII "abc"
  /\ typeSwitch 0 (VString "abc")
     = inl (setBytes, DPI_ORACLE_TYPE_VARCHAR, DPI_NATIVE_TYPE_BYTES, 4 * slen "abc")
  /\ typeSwitch 0 (VStrings ["ab"; "abcd"; ""])
     = inl (setBytes, DPI_ORACLE_TYPE_VARCHAR, DPI_NATIVE_TYPE_BYTES,
            4 * maxByteLen ["ab"; "abcd"; ""])
  /\ characterLength "abc" = slen "abc".
Proof.
  assert (4 * slen "abc" < 2 ^ 63) as H1 by (vm_compute; reflexivity).
  assert (4 * maxByteLen ["ab"; "abcd"; ""] < 2 ^ 63) as H2 by (vm_compute; reflexivity).
  assert (isASCII "abc") as H3
      by (unfold isASCII; vm_compute; repeat constructor).
  destruct (text_bufSize 0) as (Hs & Hl & Ha).
  split; [exact H1|]. split; [exact H2|]. split; [exact H3|].
  split; [exact (Hs "abc" H1)|].
  split; [exact (Hl ["ab"; "abcd"; ""] H2)|].
  exact (Ha "abc" H3).
Defined.

(** C8 as stated fails: the one-character text e-acute takes two bytes in
    UTF-8, and its buffer size is 8, four times its byte length, not 4,
    four times its character length. *)
Lemma text_bufSize_counts_bytes :
  characterLength e_acute = 1 /\ slen e_acute = 2
  /\ typeSwitch 0 (VString e_acute)
     = inl (setBytes, DPI_ORACLE_TYPE_VARCHAR, DPI_NATIVE_TYPE_BYTES, 8)
  /\ 8 <> 4 * characterLength e_acute
  /\ typeSwitch 0 (VStrings [e_acute])
     = inl (setBytes, DPI_ORACLE_TYPE_VARCHAR, DPI_NATIVE_TYPE_BYTES, 8)
  /\ 8 <> 4 * maxCharacterLen [e_acute].
Proof. repeat split; try (vm_compute; reflexivity); vm_compute; discriminate. Qed.

(** ** Output parameters *)

(** Type dispatch looks through [sql.Out] and one pointer. *)
Lemma unwrapOut_out_ptr v : unwrapOut (VOut (VPtr v)) = Some v.
Proof. reflexivity. Qed.

(** No setter accepts the [sql.Out] wrapper itself. *)
Lemma applySet_out set c dv pos d dpi h :
  (exists msg h', applySet set c dv pos (VOut d) dpi h = (Panic msg, h'))
  \/ (exists err, applySet set c dv pos (VOut d) dpi h = (Val (Some err), h)).
Proof.
  destruct set; simpl.
  - left. eexists _, _. reflexivity.
  - right. eexists. reflexivity.
  - left. eexists _, _. reflexivity.
  - right. eexists. reflexivity.
  - left. eexists _, _. reflexivity.
Qed.

(** In batch mode the first slot already panics: [reflect.Value.Index] is
    not defined on the [sql.Out] struct. *)
Lemma setMany_out set c dv vdata i d count dpi h :
  (0 < count)%nat ->
  exists msg h', setMany set c dv vdata i (VOut d) 0 count dpi h = (Panic msg, h').
Proof.
  intros Hcount. destruct count as [|count]; [lia|]. simpl.
  destruct (vdata !! 0%nat); eexists _, _; reflexivity.
Qed.

(** Binding never succeeds when one of the arguments is an [sql.Out]: the
    setter is handed [a.Value], the wrapper, not the unwrapped value the
    type was chosen for. *)
Lemma bindArgs_out args : forall st dm dl i named dpi h d a,
  a ∈ args -> Value a = VOut d ->
  (dm = true -> 0 < dl) ->
  forall st' named' h',
    bindArgs st dm dl i args named dpi h <> (Val (st', named', None), h').
Proof.
  induction args as [|b args IH]; intros st dm dl i named dpi h d a Ha Hout Hdl
    st' named' h' H; [inversion Ha|].
  simpl in H. destruct (unwrapOut (Value b)) as [v|] eqn:Hun; [|discriminate].
  destruct (typeSwitch (Z.of_nat i) v) as [[[[set typ] natTyp] bufSize]|err];
    [|discriminate].
  unfold bind at 1 in H.
  destruct (st_newVar (PlSQLArrays st) typ natTyp dl bufSize dpi h)
    as [[[[dv vdata] err]|msg] h1]; [|discriminate].
  destruct err as [err|]; [discriminate|].
  unfold bind at 1 in H.
  apply elem_of_cons in Ha as [->|Ha].
  - rewrite Hout in H. destruct dm; simpl in H.
    + destruct (setMany_out set (st_conn st) dv vdata (Z.of_nat i) d
                  (Z.to_nat dl) dpi h1) as (msg & h2 & E); [specialize (Hdl eq_refl); lia|].
      simpl in E. rewrite E in H. discriminate.
    + destruct vdata as [|c0 vdata]; [discriminate|].
      unfold bind at 1 in H.
      destruct (applySet_out set (st_conn st) dv 0 d dpi h1)
        as [(msg & h2 & E)|(err & E)]; simpl in E; rewrite E in H; discriminate.
  - destruct_run_in H dpi h1; [|discriminate].
    destruct r as [err|]; [discriminate|].
    eapply IH in H; eauto.
Qed.

Lemma bindVars_out dpi h st args a d :
  a ∈ args -> Value a = VOut d ->
  forall st' h', bindVars st args dpi h <> (Val (st', None), h').
Proof.
  intros Ha Hout st' h'. unfold bindVars.
  destruct (arrLens args) as [mn mx].
  destruct (mx >? maxArraySize); [discriminate|].
  destruct_if; [discriminate|].
  unfold bind at 1.
  match goal with
  | |- context [bindArgs ?s ?dm ?dl 0%nat args false dpi h] =>
      pose proof (bindArgs_out args s dm dl 0%nat false dpi h d a Ha Hout) as Hno;
      destruct (bindArgs s dm dl 0%nat args false dpi h)
        as [[[[st2 named] err]|msg] h1] eqn:E
  end; [|discriminate].
  destruct err as [err|]; [discriminate|].
  exfalso. eapply Hno; [|reflexivity].
  intros Hdm. unfold dataSliceLen. rewrite Hdm.
  unfold doExecMany in Hdm. apply andb_true_iff in Hdm as [_ Hb].
  rewrite Z.gtb_ltb in Hb. apply Z.ltb_lt in Hb. exact Hb.
Qed.

(** C9 fails on the code.  For [sql.Out{Dest: &x}] with [x] an [int64],
    whatever the native layer does: the type is chosen from the unwrapped
    value (the variable is a NUMBER / INT64 one), but the setter receives
    the wrapper, so [bindVars] returns an error and nothing is written into
    the buffer slot: the allocation is the only native call. *)
Theorem bindVars_out_value_not_written dpi h :
  let alloc := newVar false DPI_ORACLE_TYPE_NUMBER DPI_NATIVE_TYPE_INT64 1 0 in
  let wrapper := VOut (VPtr (VInt64 5)) in
  unwrapOut wrapper = Some (VInt64 5)
  /\ exists st' err,
      bindVars (prepared 9) args_out dpi h = (Val (st', Some err), h ++ [alloc])
      /\ (forall v, dpi h alloc = ROut true v ->
          err = Wrapf (Errorf "unknown number [%T] %#v" [FType wrapper; FVal wrapper])
                  "set(data[%d][%d], %#v (%T))"
                  [FInt 0; FInt 0; FVal wrapper; FType wrapper]).
Proof.
  intros alloc wrapper. split; [reflexivity|].
  subst alloc wrapper.
  unfold bindVars. rewrite arrLens_spec.
  change (sliceArgLens args_out) with (@nil Z).
  cbn [minimum maximum].
  change (-1 >? maxArraySize) with false. cbn iota.
  cbn -[app]. cbv beta iota delta [bind st_newVar call ret].
  destruct (dpi h (newVar false DPI_ORACLE_TYPE_NUMBER DPI_NATIVE_TYPE_INT64 1 0))
    as [ok|ok out| | | | |] eqn:E;
    try (cbn -[app]; eexists _, _; split; [reflexivity|]; intros v Hv; discriminate).
  destruct ok; cbn -[app].
  - eexists _, _. split; [reflexivity|]. intros v Hv. reflexivity.
  - eexists _, _; split; [reflexivity|]; intros v Hv; discriminate.
Qed.

(** ** Cancelled contexts *)

(** C10.  When [ctx.Err()] is not nil on entry, [ExecContext] and
    [QueryContext] return that error at once: the statement is the one they
    were given and the history of native calls is unchanged, so nothing was
    bound and nothing was executed. *)
Theorem context_error_first dpi h st ctx args e :
  Err ctx = Some e ->
  ExecContext st ctx args dpi h = (Val (st, (None, Some (CtxErr e))), h)
  /\ QueryContext st ctx args dpi h = (Val (st, (None, Some (CtxErr e))), h).
Proof.
  intros Hctx. unfold ExecContext, QueryContext. rewrite Hctx. split; reflexivity.
Qed.

Lemma context_error_first_witness :
  Err {| Err := Some Canceled; Done := None |} = Some Canceled
  /\ ExecContext (prepared 9) {| Err := Some Canceled; Done := None |} args_batch3 nativeOK []
     = (Val (prepared 9, (None, Some (CtxErr Canceled))), [])
  /\ QueryContext (prepared 9) {| Err := Some Canceled; Done := None |} args_batch3 nativeOK []
     = (Val (prepared 9, (None, Some (CtxErr Canceled))), []).
Proof.
  split; [reflexivity|].
  exact (context_error_first nativeOK [] (prepared 9) {| Err := Some Canceled; Done := None |}
           args_batch3 Canceled eq_refl).
Defined.

(** * Further properties *)

(** ** LOB reader and writer *)

(** X1.  A native read that succeeds advances the reader's offset by the
    count the native layer reports and returns that count; the delivered
    bytes are at the front of the buffer; the error is [io.EOF] exactly
    when the count is zero, and the reader is not finished by it. *)
Theorem Read_advances dpi h r p n got :
  dlr_finished r = false -> p <> [] ->
  let c := dpiLob_readBytes (dlr_dpiLob r) (u64 (dlr_offset r + 1)) (u64 (len p)) in
  dpi h c = RBytes true n got ->
  Read (Some r) p dpi h
  = (Val (Some {| dlr_dpiLob := dlr_dpiLob r;
                  dlr_offset := u64 (dlr_offset r + n);
                  dlr_finished := false |},
          take (List.length p) got ++ drop (List.length got) p,
          (i64 n, if n =? 0 then Some EOF else None)),
     h ++ [c]).
Proof.
  intros Hfin Hp c Hresp.
  assert ((len p =? 0) = false) as Hp0.
  { apply Z.eqb_neq. destruct p; [congruence|]. unfold len. simpl. lia. }
  unfold Read. rewrite Hfin, Hp0.
  cbv beta iota delta [bind call ret]. fold c. rewrite Hresp. reflexivity.
Qed.

Lemma Read_advances_witness :
  dlr_finished reader7 = false /\ ["a"%byte; "b"%byte; "c"%byte] <> []
  /\ nativeEmptyThenData [dpiLob_readBytes 7 1 3]
       (dpiLob_readBytes 7 (u64 (0 + 1)) (u64 (len ["a"%byte; "b"%byte; "c"%byte])))
     = RBytes true 2 ["x"%byte; "y"%byte]
  /\ Read (Some reader7) ["a"%byte; "b"%byte; "c"%byte] nativeEmptyThenData
       [dpiLob_readBytes 7 1 3]
     = (Val (Some {| dlr_dpiLob := 7; dlr_offset := u64 (0 + 2);
                     dlr_finished := false |},
             ["x"%byte; "y"%byte; "c"%byte], (i64 2, None)),
        [dpiLob_readBytes 7 1 3; dpiLob_readBytes 7 1 3]).
Proof.
  assert (["a"%byte; "b"%byte; "c"%byte] <> []) as Hp by discriminate.
  split; [reflexivity|]. split; [exact Hp|]. split; [reflexivity|].
  exact (Read_advances nativeEmptyThenData [dpiLob_readBytes 7 1 3] reader7
           ["a"%byte; "b"%byte; "c"%byte] 2 ["x"%byte; "y"%byte]
           eq_refl Hp eq_refl).
Defined.

(** X2.  When the native read fails and the diagnostic code is 1403, [Read]
    returns [io.EOF] and the reader it leaves answers every later [Read]
    with [(0, io.EOF)], unchanged and without a native call, whatever the
    native layer would say. *)
Theorem Read_no_data_is_final dpi h r p :
  dlr_finished r = false -> p <> [] ->
  let c := dpiLob_readBytes (dlr_dpiLob r) (u64 (dlr_offset r + 1)) (u64 (len p)) in
  succeeded (dpi h c) = false ->
  Code (outError (dpi (h ++ [c]) getError)) = 1403 ->
  exists r' p' n,
    Read (Some r) p dpi h = (Val (Some r', p', (n, Some EOF)), h ++ [c; getError])
    /\ forall q dpi2 h2,
        Read (Some r') q dpi2 h2 = (Val (Some r', q, (0, Some EOF)), h2).
Proof. apply Read_1403_sticky. Qed.

Lemma Read_no_data_is_final_witness :
  dlr_finished reader7 = false /\ ["a"%byte] <> []
  /\ succeeded (nativeNoData [] (dpiLob_readBytes 7 (u64 (0 + 1)) (u64 (len ["a"%byte]))))
     = false
  /\ Code (outError (nativeNoData
                       ([] ++ [dpiLob_readBytes 7 (u64 (0 + 1)) (u64 (len ["a"%byte]))])
                       getError)) = 1403
  /\ exists r' p' n,
      Read (Some reader7) ["a"%byte] nativeNoData []
      = (Val (Some r', p', (n, Some EOF)),
         [] ++ [dpiLob_readBytes 7 (u64 (0 + 1)) (u64 (len ["a"%byte])); getError])
      /\ forall q dpi2 h2,
          Read (Some r') q dpi2 h2 = (Val (Some r', q, (0, Some EOF)), h2).
Proof.
  assert (["a"%byte] <> []) as Hp by discriminate.
  split; [reflexivity|]. split; [exact Hp|]. split; [reflexivity|].
  split; [reflexivity|].
  exact (Read_no_data_is_final nativeNoData [] reader7 ["a"%byte]
           eq_refl Hp eq_refl eq_refl).
Defined.

(** X3.  A [Write] of a non-empty buffer whose native calls succeed opens
    the resource first when the writer was not opened yet (and only then),
    writes the buffer at the writer's offset plus 1, advances the offset by
    the length of the buffer and returns that length.  It then asks the
    native layer for the size of the LOB: the error is nil exactly when
    that size equals the new offset, and otherwise names the locator, the
    size and the offset, the offset staying advanced. *)
Theorem Write_appends dpi h dlw p :
  p <> [] ->
  let lob := dlw_dpiLob dlw in
  let h0 := if dlw_opened dlw then h else h ++ [dpiLob_openResource lob] in
  (dlw_opened dlw = false -> succeeded (dpi h (dpiLob_openResource lob)) = true) ->
  let c := dpiLob_writeBytes lob (u64 (dlw_offset dlw + 1)) p (u64 (len p)) in
  succeeded (dpi h0 c) = true ->
  let size := outZ (dpi (h0 ++ [c]) (dpiLob_getSize lob)) 0 in
  let offset' := u64 (dlw_offset dlw + u64 (len p)) in
  Write dlw p dpi h
  = (Val ({| dlw_dpiLob := lob; dlw_offset := offset'; dlw_opened := true |},
          (i64 (u64 (len p)),
           if size =? offset' then None
           else Some (Errorf "%p size=%d, offset=%d"
                        [FPtr lob; FInt size; FInt offset']))),
     h0 ++ [c; dpiLob_getSize lob]).
Proof.
  intros Hp lob h0 Hopen c Hwrite size offset'.
  destruct p as [|b p]; [congruence|].
  unfold Write. fold lob.
  destruct (dlw_opened dlw) eqn:Ho; cbn [negb].
  - unfold Write_bytes. cbv beta iota delta [bind call ret getErr].
    fold lob. fold c. subst h0. rewrite Hwrite. cbn [negb andb CheckLOBWrite].
    cbn [dlw_offset dlw_dpiLob dlw_opened]. fold size. fold offset'.
    rewrite <- app_assoc. cbn [app].
    destruct dlw as [l o op]; simpl in *; subst.
    destruct (size =? offset'); reflexivity.
  - cbv beta iota delta [bind call ret getErr]. fold lob.
    rewrite (Hopen eq_refl). cbn [negb].
    unfold Write_bytes. cbv beta iota delta [bind call ret getErr].
    cbn [dlw_offset dlw_dpiLob dlw_opened]. fold lob. fold c. subst h0.
    rewrite Hwrite. cbn [negb andb CheckLOBWrite]. fold size. fold offset'.
    rewrite <- app_assoc. cbn [app].
    destruct (size =? offset'); reflexivity.
Qed.

Lemma Write_appends_witness :
  ["a"%byte] <> []
  /\ (dlw_opened writer7 = false ->
      succeeded (nativeOK [] (dpiLob_openResource 7)) = true)
  /\ succeeded (nativeOK [dpiLob_openResource 7]
                  (dpiLob_writeBytes 7 (u64 (0 + 1)) ["a"%byte] (u64 (len ["a"%byte]))))
     = true
  /\ Write writer7 ["a"%byte] nativeOK []
     = (Val ({| dlw_dpiLob := 7; dlw_offset := 1; dlw_opened := true |},
             (1, Some (Errorf "%p size=%d, offset=%d" [FPtr 7; FInt 0; FInt 1]))),
        [dpiLob_openResource 7; dpiLob_writeBytes 7 1 ["a"%byte] 1; dpiLob_getSize 7]).
Proof.
  assert (["a"%byte] <> []) as Hp by discriminate.
  split; [exact Hp|]. split; [reflexivity|]. split; [reflexivity|].
  exact (Write_appends nativeOK [] writer7 ["a"%byte] Hp
           (fun _ => eq_refl) eq_refl).
Defined.

(** X4.  When the native write fails on an opened writer, [Write] returns
    0 and the native diagnostic wrapped with the locator, the offset and
    the length; it sets the writer's locator to nil and closes the
    resource, so that a later [Close] makes no native call. *)
Theorem Write_failure_drops_locator dpi h dlw p :
  dlw_opened dlw = true -> p <> [] ->
  let lob := dlw_dpiLob dlw in
  let c := dpiLob_writeBytes lob (u64 (dlw_offset dlw + 1)) p (u64 (len p)) in
  succeeded (dpi h c) = false ->
  exists dlw' e,
    Write dlw p dpi h
    = (Val (dlw', (0, Some (Wrapf e "writeBytes(%p, offset=%d, data=%d)"
                             [FPtr lob; FInt (dlw_offset dlw); FInt (u64 (len p))]))),
       h ++ [c; getError; dpiLob_closeResource lob])
    /\ e = outError (dpi (h ++ [c]) getError)
    /\ dlw_dpiLob dlw' = NULL
    /\ forall dpi2 h2, Close (Some dlw') dpi2 h2 = (Val (Some dlw', None), h2).
Proof. apply Write_failure_discards. Qed.

Lemma Write_failure_drops_locator_witness :
  let w := {| dlw_dpiLob := 7; dlw_offset := 0; dlw_opened := true |} in
  dlw_opened w = true /\ ["a"%byte] <> []
  /\ succeeded (nativeWriteFails []
                  (dpiLob_writeBytes 7 (u64 (0 + 1)) ["a"%byte] (u64 (len ["a"%byte]))))
     = false
  /\ exists dlw' e,
      Write w ["a"%byte] nativeWriteFails []
      = (Val (dlw', (0, Some (Wrapf e "writeBytes(%p, offset=%d, data=%d)"
                               [FPtr 7; FInt 0; FInt (u64 (len ["a"%byte]))]))),
         [] ++ [dpiLob_writeBytes 7 (u64 (0 + 1)) ["a"%byte] (u64 (len ["a"%byte]));
                getError; dpiLob_closeResource 7])
      /\ e = outError (nativeWriteFails
                         ([] ++ [dpiLob_writeBytes 7 (u64 (0 + 1)) ["a"%byte]
                                   (u64 (len ["a"%byte]))]) getError)
      /\ dlw_dpiLob dlw' = NULL
      /\ forall dpi2 h2, Close (Some dlw') dpi2 h2 = (Val (Some dlw', None), h2).
Proof.
  assert (["a"%byte] <> []) as Hp by discriminate.
  intros w. split; [reflexivity|]. split; [exact Hp|]. split; [reflexivity|].
  exact (Write_failure_drops_locator nativeWriteFails [] w ["a"%byte]
           eq_refl Hp eq_refl).
Defined.

(** X5.  [Close] on a writer that holds a locator flushes the buffer and
    closes the resource, once each and in that order, and forgets the
    locator whether or not the native close succeeds; a failure is
    returned wrapped with the locator.  Every later [Close] then returns
    nil without a native call. *)
Theorem Close_once dpi h w :
  dlw_dpiLob w <> NULL ->
  let lob := dlw_dpiLob w in
  let w' := {| dlw_dpiLob := NULL; dlw_offset := dlw_offset w;
               dlw_opened := dlw_opened w |} in
  let h1 := h ++ [dpiLob_flushBuffer lob] in
  Close (Some w) dpi h
  = (if succeeded (dpi h1 (dpiLob_closeResource lob))
     then (Val (Some w', None), h1 ++ [dpiLob_closeResource lob])
     else (Val (Some w',
                Some (Wrapf (outError (dpi (h1 ++ [dpiLob_closeResource lob]) getError))
                        "closeResource(%p)" [FPtr lob])),
           h1 ++ [dpiLob_closeResource lob; getError]))
  /\ forall dpi2 h2, Close (Some w') dpi2 h2 = (Val (Some w', None), h2).
Proof.
  intros Hlob lob w' h1. split; [|reflexivity].
  unfold Close. fold lob.
  replace (lob =? NULL) with false by (symmetry; apply Z.eqb_neq; exact Hlob).
  cbv beta iota delta [bind call ret getErr]. fold h1. fold w'.
  destruct (succeeded (dpi h1 (dpiLob_closeResource lob))); cbn [negb].
  - reflexivity.
  - rewrite <- app_assoc. reflexivity.
Qed.

Lemma Close_once_witness :
  dlw_dpiLob writer7 <> NULL
  /\ Close (Some writer7) nativeOK []
     = (Val (Some {| dlw_dpiLob := NULL; dlw_offset := 0; dlw_opened := false |}, None),
        [dpiLob_flushBuffer 7; dpiLob_closeResource 7])
  /\ forall dpi2 h2,
      Close (Some {| dlw_dpiLob := NULL; dlw_offset := 0; dlw_opened := false |}) dpi2 h2
      = (Val (Some {| dlw_dpiLob := NULL; dlw_offset := 0; dlw_opened := false |}, None),
         h2).
Proof.
  assert (dlw_dpiLob writer7 <> NULL) as Hl by discriminate.
  split; [exact Hl|].
  exact (Close_once nativeOK [] writer7 Hl).
Defined.

(** X6.  [Write] of an empty buffer panics on [&p[0]]: at once on an opened
    writer, and after opening the resource on a writer not opened yet; no
    byte is written in either case. *)
Theorem Write_empty_panics dpi h dlw :
  (dlw_opened dlw = false ->
   succeeded (dpi h (dpiLob_openResource (dlw_dpiLob dlw))) = true) ->
  Write dlw [] dpi h
  = (Panic "index out of range",
     if dlw_opened dlw then h else h ++ [dpiLob_openResource (dlw_dpiLob dlw)]).
Proof.
  intros Hopen. unfold Write.
  destruct (dlw_opened dlw); cbn [negb]; [reflexivity|].
  cbv beta iota delta [bind call ret getErr]. rewrite (Hopen eq_refl). reflexivity.
Qed.

Lemma Write_empty_panics_witness :
  (dlw_opened writer7 = false ->
   succeeded (nativeOK [] (dpiLob_openResource (dlw_dpiLob writer7))) = true)
  /\ Write writer7 [] nativeOK []
     = (Panic "index out of range", [dpiLob_openResource 7]).
Proof.
  split; [intros _; reflexivity|].
  exact (Write_empty_panics nativeOK [] writer7 (fun _ => eq_refl)).
Defined.

(** ** Binding: what a successful [bindVars] went through *)

(** A successful [bindVars] passed both checks, ran the loop over the
    arguments to its end, and then one of the two bind loops. *)
Lemma bindVars_inv dpi h st args st' h' :
  bindVars st args dpi h = (Val (st', None), h') ->
  let st0 := set_arrLen (resliced st args) (minimum (sliceArgLens args)) in
  maximum (sliceArgLens args) <= maxArraySize
  /\ (PlSQLArrays st = true
      \/ minimum (sliceArgLens args) = -1
      \/ minimum (sliceArgLens args) = maximum (sliceArgLens args))
  /\ exists named h1,
      bindArgs st0 (doExecMany st0) (dataSliceLen st0) 0 args false dpi h
      = (Val (st', named, None), h1)
      /\ (if negb named then bindByPos (dpiStmt st') 0 (elements (vars st'))
          else bindByName st' 0 args) dpi h1
         = (Val None, h').
Proof.
  intros H st0. revert H. unfold bindVars. rewrite arrLens_spec.
  fold (resliced st args).
  destruct (Z.gtb_spec (maximum (sliceArgLens args)) maxArraySize) as [Hgt|Hle];
    [discriminate|].
  destruct (negb (PlSQLArrays (resliced st args))
            && negb (minimum (sliceArgLens args) =? -1)
            && negb (minimum (sliceArgLens args) =? maximum (sliceArgLens args)))
    eqn:Hshape; [discriminate|].
  fold st0. unfold bind at 1.
  destruct (bindArgs st0 (doExecMany st0) (dataSliceLen st0) 0 args false dpi h)
    as [[[[st2 named] err]|msg] h1] eqn:E; [|discriminate].
  destruct err as [err|]; [discriminate|].
  unfold bind.
  destruct ((if negb named then bindByPos (dpiStmt st2) 0 (elements (vars st2))
             else bindByName st2 0 args) dpi h1) as [[r|msg] h2] eqn:E2;
    [|discriminate].
  unfold ret. intros H. inversion H; subst.
  split; [lia|]. split.
  - simpl in Hshape.
    destruct (PlSQLArrays st); [left; reflexivity|right]. simpl in Hshape.
    destruct (Z.eqb_spec (minimum (sliceArgLens args)) (-1)); [left; assumption|].
    simpl in Hshape. right. apply negb_false_iff, Z.eqb_eq in Hshape. exact Hshape.
  - exists named, h1. split; [reflexivity|exact E2].
Qed.

(** The flag computed along the loop: some argument seen so far has a
    name. *)
Lemma bindArgs_named args : forall st dm dl i named dpi h st' named' e h',
  bindArgs st dm dl i args named dpi h = (Val (st', named', e), h') ->
  e = None -> named' = named || existsb hasName args.
Proof.
  induction args as [|a args IH]; intros st dm dl i named dpi h st' named' e h' H He.
  - simpl in H. unfold ret in H. inversion H; subst. simpl.
    rewrite orb_false_r. reflexivity.
  - simpl in H. destruct (unwrapOut (Value a)) as [v|]; [|discriminate].
    destruct (typeSwitch (Z.of_nat i) v) as [[[[set typ] natTyp] bufSize]|err].
    2: { unfold ret in H. inversion H; subst. discriminate. }
    unfold bind at 1 in H.
    destruct (st_newVar (PlSQLArrays st) typ natTyp dl bufSize dpi h)
      as [[[[dv vdata] err]|msg] h1]; [|discriminate].
    destruct err as [err|].
    { unfold ret in H. inversion H; subst. discriminate. }
    unfold bind at 1 in H.
    destruct_run_in H dpi h1; [|discriminate].
    destruct r as [err|].
    { unfold ret in H. inversion H; subst. discriminate. }
    apply IH in H; [|exact He]. rewrite H. simpl. unfold hasName.
    destruct named; simpl; [reflexivity|].
    destruct (negb (Name a =? "")%string); reflexivity.
Qed.

(** The loop over the arguments keeps the length and the capacity of
    [st.vars] and [st.data]. *)
Lemma bindArgs_lengths args : forall st dm dl i named dpi h st' named' e h',
  bindArgs st dm dl i args named dpi h = (Val (st', named', e), h') ->
  slice_len (vars st') = slice_len (vars st)
  /\ slice_len (data st') = slice_len (data st)
  /\ List.length (backing (vars st')) = List.length (backing (vars st))
  /\ List.length (backing (data st')) = List.length (backing (data st)).
Proof.
  induction args as [|a args IH]; intros st dm dl i named dpi h st' named' e h' H.
  - simpl in H. unfold ret in H. inversion H; subst. auto.
  - simpl in H. destruct (unwrapOut (Value a)) as [v|]; [|discriminate].
    destruct (typeSwitch (Z.of_nat i) v) as [[[[set typ] natTyp] bufSize]|err].
    2: { unfold ret in H. inversion H; subst. auto. }
    unfold bind at 1 in H.
    destruct (st_newVar (PlSQLArrays st) typ natTyp dl bufSize dpi h)
      as [[[[dv vdata] err]|msg] h1]; [|discriminate].
    destruct err as [err|].
    { unfold ret in H. inversion H; subst. simpl.
      rewrite !length_insert. auto. }
    unfold bind at 1 in H.
    destruct_run_in H dpi h1; [|discriminate].
    destruct r as [err|].
    { unfold ret in H. inversion H; subst. simpl.
      rewrite !length_insert. auto. }
    apply IH in H. simpl in H. rewrite !length_insert in H. exact H.
Qed.

Lemma bindVars_lengths dpi h st args st' e h' :
  bindVars st args dpi h = (Val (st', e), h') ->
  slice_len (vars st') = List.length args
  /\ slice_len (data st') = List.length args
  /\ (List.length args <= List.length (backing (vars st')))%nat
  /\ (List.length args <= List.length (backing (data st')))%nat
  /\ List.length (elements (vars st')) = List.length args.
Proof.
  intros H.
  assert (slice_len (vars (resliced st args)) = List.length args
          /\ slice_len (data (resliced st args)) = List.length args
          /\ (List.length args <= List.length (backing (vars (resliced st args))))%nat
          /\ (List.length args <= List.length (backing (data (resliced st args))))%nat)
    as (Hv & Hd & Hbv & Hbd).
  { unfold resliced, cap, len. simpl.
    destruct (Z.ltb_spec (Z.of_nat (List.length (backing (vars st))))
                (Z.of_nat (List.length args)));
      destruct (Z.ltb_spec (Z.of_nat (List.length (backing (data st))))
                  (Z.of_nat (List.length args)));
      simpl; rewrite ?length_replicate; repeat split; lia. }
  assert (slice_len (vars st') = List.length args
          /\ slice_len (data st') = List.length args
          /\ (List.length args <= List.length (backing (vars st')))%nat
          /\ (List.length args <= List.length (backing (data st')))%nat)
    as (Hv' & Hd' & Hbv' & Hbd').
  { revert H. unfold bindVars. rewrite arrLens_spec. fold (resliced st args).
    destruct (maximum (sliceArgLens args) >? maxArraySize).
    { unfold ret. intros H; inversion H; subst. auto. }
    destruct_if.
    { unfold ret. intros H; inversion H; subst. auto. }
    unfold bind at 1.
    match goal with
    | |- context [bindArgs ?s ?dm ?dl 0%nat args false dpi h] =>
        destruct (bindArgs s dm dl 0%nat args false dpi h)
          as [[[[st2 named] err]|msg] h1] eqn:E
    end; [|discriminate].
    apply bindArgs_lengths in E. simpl in E. destruct E as (E1 & E2 & E3 & E4).
    destruct err as [err|].
    { unfold ret. intros H; inversion H; subst.
      rewrite E1, E2, E3, E4. auto. }
    unfold bind. destruct_run dpi h1; [|discriminate].
    unfold ret. intros H; inversion H; subst.
    rewrite E1, E2, E3, E4. auto. }
  repeat split; try assumption.
  unfold elements. rewrite length_take. lia.
Qed.

(** X7.  Whenever [bindVars] returns, with or without an error, [st.vars]
    and [st.data] have exactly one entry per argument and their backing
    arrays are at least that long. *)
Theorem bindVars_one_variable_per_argument dpi h st args st' e h' :
  bindVars st args dpi h = (Val (st', e), h') ->
  slice_len (vars st') = List.length args
  /\ slice_len (data st') = List.length args
  /\ (List.length args <= List.length (backing (vars st')))%nat
  /\ (List.length args <= List.length (backing (data st')))%nat
  /\ List.length (elements (vars st')) = List.length args.
Proof. apply bindVars_lengths. Qed.

Lemma bindVars_one_variable_per_argument_witness :
  exists st' e h',
    bindVars (prepared 9) args_2_and_3 nativeOK [] = (Val (st', e), h')
    /\ slice_len (vars st') = List.length args_2_and_3
    /\ slice_len (data st') = List.length args_2_and_3
    /\ (List.length args_2_and_3 <= List.length (backing (vars st')))%nat
    /\ (List.length args_2_and_3 <= List.length (backing (data st')))%nat
    /\ List.length (elements (vars st')) = List.length args_2_and_3.
Proof.
  eexists _, _, _. split; [vm_compute; reflexivity|].
  exact (bindVars_one_variable_per_argument nativeOK [] (prepared 9) args_2_and_3
           _ _ _ eq_refl).
Defined.

(** ** Binding: by position or by name *)

Lemma bindByPos_ok stmt vs : forall i dpi h h',
  bindByPos stmt i vs dpi h = (Val None, h') ->
  h' = h ++ imap (fun k v => dpiStmt_bindByPos stmt (u32 (Z.of_nat (i + k) + 1)) v) vs.
Proof.
  induction vs as [|v vs IH]; intros i dpi h h' H.
  - simpl in H. unfold ret in H. inversion H. rewrite app_nil_r. reflexivity.
  - simpl in H. cbv beta iota delta [bind call ret getErr] in H.
    destruct (succeeded (dpi h (dpiStmt_bindByPos stmt (u32 (Z.of_nat i + 1)) v)));
      cbn [negb] in H; [|discriminate].
    apply IH in H. rewrite H, <- app_assoc. cbn [app imap].
    rewrite Nat.add_0_r. do 2 f_equal.
    apply imap_ext. intros k x _. simpl. do 3 f_equal. lia.
Qed.

Lemma bindByName_ok args : forall st i dpi h h',
  bindByName st i args dpi h = (Val None, h') ->
  h' = h ++ bindByNameCalls (dpiStmt st) (drop i (elements (vars st))) args.
Proof.
  induction args as [|a args IH]; intros st i dpi h h' H.
  - simpl in H. unfold ret in H. inversion H. unfold bindByNameCalls. simpl.
    rewrite app_nil_r. reflexivity.
  - simpl in H. fold (bindName a) in H.
    destruct (elements (vars st) !! i) as [v|] eqn:Ev; [|discriminate].
    cbv beta iota delta [bind call ret getErr] in H.
    destruct (succeeded (dpi h (dpiStmt_bindByName (dpiStmt st) (bindName a)
                                  (u32 (slen (bindName a))) v)));
      cbn [negb] in H; [|discriminate].
    apply IH in H.
    rewrite H, <- app_assoc. cbn [app]. f_equal.
    rewrite (drop_S _ v i Ev). reflexivity.
Qed.

Lemma bindVars_ends_with_binds dpi h st args st' h' :
  bindVars st args dpi h = (Val (st', None), h') ->
  let vs := elements (vars st') in
  List.length vs = List.length args
  /\ exists h1,
      h' = h1 ++ (if existsb hasName args
                  then bindByNameCalls (dpiStmt st) vs args
                  else bindByPosCalls (dpiStmt st) vs).
Proof.
  intros H vs.
  pose proof (bindVars_lengths _ _ _ _ _ _ _ H)
    as (_ & _ & _ & _ & Hlen).
  pose proof (bindVars_frame _ _ _ _ _ _ _ H) as (_ & Hstmt & _).
  split; [exact Hlen|].
  apply bindVars_inv in H as (_ & _ & named & h1 & Hargs & Hbind).
  apply bindArgs_named in Hargs; [|reflexivity]. simpl in Hargs. subst named.
  exists h1. destruct (existsb hasName args); cbn [negb] in Hbind.
  - apply bindByName_ok in Hbind. rewrite drop_0, Hstmt in Hbind. exact Hbind.
  - apply bindByPos_ok in Hbind. rewrite Hstmt in Hbind. exact Hbind.
Qed.

(** X8.  After a successful [bindVars] the last native calls are one bind
    per argument, in argument order.  When no argument has a name they are
    [dpiStmt_bindByPos] at positions 1, 2, ...; when some argument has a
    name they are all [dpiStmt_bindByName], an argument without a name
    being bound under the decimal form of its [Ordinal]. *)
Theorem bindVars_bind_calls dpi h st args st' h' :
  bindVars st args dpi h = (Val (st', None), h') ->
  let vs := elements (vars st') in
  List.length vs = List.length args
  /\ exists h1,
      h' = h1 ++ (if existsb hasName args
                  then bindByNameCalls (dpiStmt st) vs args
                  else bindByPosCalls (dpiStmt st) vs).
Proof. apply bindVars_ends_with_binds. Qed.

Lemma bindVars_bind_calls_witness :
  exists st' h',
    bindVars (prepared 9) args_batch3 nativeOK [] = (Val (st', None), h')
    /\ List.length (elements (vars st')) = List.length args_batch3
    /\ exists h1,
        h' = h1 ++ (if existsb hasName args_batch3
                    then bindByNameCalls (dpiStmt (prepared 9))
                           (elements (vars st')) args_batch3
                    else bindByPosCalls (dpiStmt (prepared 9)) (elements (vars st'))).
Proof.
  eexists _, _. split; [vm_compute; reflexivity|].
  exact (bindVars_bind_calls nativeOK [] (prepared 9) args_batch3 _ _ eq_refl).
Defined.

Lemma existsb_hasName_nargs args : existsb hasName (nargs args) = false.
Proof.
  unfold nargs.
  assert (forall f : nat -> value -> NamedValue,
            (forall i v, Name (f i v) = "") ->
            existsb hasName (imap f args) = false) as Hgen.
  { induction args as [|v args IH]; intros f Hf; [reflexivity|].
    cbn [imap existsb]. unfold hasName at 1. rewrite Hf. simpl.
    apply IH. intros i x. apply Hf. }
  apply Hgen. reflexivity.
Qed.

(** ** Binding: which argument lists can be bound at all *)

Lemma failed_panic msg h : failed (@Panic (option error) msg, h).
Proof. left. eexists. reflexivity. Qed.

Lemma failed_error err h : failed (Val (Some err), h).
Proof. right. eexists. reflexivity. Qed.

#[local] Hint Resolve failed_panic failed_error : core.

(** No setter accepts a slice: the scalar path hands it the whole
    argument. *)
Lemma applySet_slice_fails set c dv pos v dpi h :
  isBatchSlice v = true -> failed (applySet set c dv pos v dpi h).
Proof.
  intros Hv.
  destruct set, v; simpl in Hv; try discriminate; simpl; unfold panic, ret; auto.
Qed.

(** No setter accepts a single byte, which is what indexing a [[]byte] or
    a [string] yields. *)
Lemma applySet_uint8_fails set c dv pos b dpi h :
  failed (applySet set c dv pos (VUint8 b) dpi h).
Proof. destruct set; simpl; unfold panic, ret; auto. Qed.

(** Indexing an argument that is not a batch slice panics or yields a
    byte. *)
Lemma reflectIndex_not_batch v j v' :
  isBatchSlice v = false -> reflectIndex v j = Some v' -> exists b, v' = VUint8 b.
Proof.
  intros Hv Hi. destruct v; simpl in Hv; try discriminate; simpl in Hi;
    try discriminate.
  - destruct (v !! j); simpl in Hi; inversion Hi; eauto.
  - destruct (list_byte_of_string v !! j); simpl in Hi; inversion Hi; eauto.
Qed.

Lemma setMany_first_fails set c dv vdata i rArg count dpi h :
  (0 < count)%nat ->
  (forall v', reflectIndex rArg 0 = Some v' ->
     forall dpi h, failed (applySet set c dv 0 v' dpi h)) ->
  failed (setMany set c dv vdata i rArg 0 count dpi h).
Proof.
  intros Hcount Hfail. destruct count as [|count]; [lia|]. simpl.
  destruct (vdata !! 0%nat); [|unfold panic; auto].
  destruct (reflectIndex rArg 0) as [v'|]; [|unfold panic; auto].
  specialize (Hfail v' eq_refl dpi h). unfold bind.
  change (Z.of_nat 0) with 0.
  destruct (applySet set c dv 0 v' dpi h) as [[[err|]|msg] h1].
  - cbv beta iota. unfold ret. auto.
  - destruct Hfail as [[m Hm]|[e He]]; simpl in *; discriminate.
  - cbv beta iota. auto.
Qed.

(** The loop over the arguments cannot end well when one argument is
    refused by every setter in the mode the loop runs in. *)
Lemma bindArgs_stuck args : forall st dm dl i named dpi h a,
  a ∈ args ->
  (dm = true ->
   0 < dl /\ forall set c dv v', reflectIndex (Value a) 0 = Some v' ->
               forall dpi h, failed (applySet set c dv 0 v' dpi h)) ->
  (dm = false -> forall set c dv dpi h, failed (applySet set c dv 0 (Value a) dpi h)) ->
  forall st' named' h',
    bindArgs st dm dl i args named dpi h <> (Val (st', named', None), h').
Proof.
  induction args as [|b args IH]; intros st dm dl i named dpi h a Ha Hbatch Hscalar
    st' named' h' H; [inversion Ha|].
  simpl in H. destruct (unwrapOut (Value b)) as [v|] eqn:Hun; [|discriminate].
  destruct (typeSwitch (Z.of_nat i) v) as [[[[set typ] natTyp] bufSize]|err];
    [|discriminate].
  unfold bind at 1 in H.
  destruct (st_newVar (PlSQLArrays st) typ natTyp dl bufSize dpi h)
    as [[[[dv vdata] err]|msg] h1]; [|discriminate].
  destruct err as [err|]; [discriminate|].
  unfold bind at 1 in H.
  apply elem_of_cons in Ha as [->|Ha].
  - destruct dm.
    + destruct (Hbatch eq_refl) as [Hdl Hidx].
      pose proof (setMany_first_fails set (st_conn st) dv vdata (Z.of_nat i)
                    (Value b) (Z.to_nat dl) dpi h1 ltac:(lia)
                    (Hidx set (st_conn st) dv)) as Hf.
      cbn [negb] in H.
      destruct Hf as [[m Hm]|[e He]];
        destruct (setMany set (st_conn st) dv vdata (Z.of_nat i) (Value b) 0
                    (Z.to_nat dl) dpi h1) as [[r|msg] h2];
        simpl in *; try discriminate.
      inversion He; subst. discriminate.
    + cbn [negb] in H. destruct vdata as [|c0 vdata]; [discriminate|].
      unfold bind at 1 in H.
      pose proof (Hscalar eq_refl set (st_conn st) dv dpi h1) as Hf.
      destruct Hf as [[m Hm]|[e He]];
        destruct (applySet set (st_conn st) dv 0 (Value b) dpi h1) as [[r|msg] h2];
        simpl in *; try discriminate.
      inversion He; subst. discriminate.
  - destruct_run_in H dpi h1; [|discriminate].
    destruct r as [err|]; [discriminate|].
    eapply IH in H; eauto.
Qed.

Lemma elem_sliceArgLens args a n :
  a ∈ args -> isByteSlice (Value a) = false -> sliceLen (Value a) = Some n ->
  n ∈ sliceArgLens args.
Proof.
  intros Ha Hb Hn. unfold sliceArgLens. apply list_elem_of_omap.
  exists a. split; [exact Ha|]. rewrite Hb. exact Hn.
Qed.

Lemma isBatchSlice_true v :
  isBatchSlice v = true -> isByteSlice v = false /\ exists n, sliceLen v = Some n.
Proof.
  unfold isBatchSlice. intros H. apply andb_true_iff in H as [Hb Hs].
  apply negb_true_iff in Hb. apply bool_decide_eq_true in Hs as [n Hn]. eauto.
Qed.

Lemma bindVars_shape_of_success dpi h st args st' h' :
  bindVars st args dpi h = (Val (st', None), h') ->
  (forall a, a ∈ args -> isBatchSlice (Value a) = false)
  \/ (PlSQLArrays st = false
      /\ exists n, 0 < n <= maxArraySize
           /\ forall a, a ∈ args ->
                isByteSlice (Value a) = false /\ sliceLen (Value a) = Some n).
Proof.
  intros H. apply bindVars_inv in H as (Hmax & Hok & named & h1 & Hargs & _).
  set (st0 := set_arrLen (resliced st args) (minimum (sliceArgLens args))) in *.
  assert (PlSQLArrays st0 = PlSQLArrays st) as Hflag by reflexivity.
  assert (arrLen st0 = minimum (sliceArgLens args)) as Hlen by reflexivity.
  destruct (doExecMany st0) eqn:Hdm.
  - right. unfold doExecMany in Hdm. apply andb_true_iff in Hdm as [Hf Hpos].
    apply negb_true_iff in Hf. rewrite Z.gtb_ltb in Hpos. apply Z.ltb_lt in Hpos.
    rewrite Hflag in Hf. rewrite Hlen in Hpos.
    split; [exact Hf|]. exists (minimum (sliceArgLens args)).
    assert (minimum (sliceArgLens args) = maximum (sliceArgLens args)) as Heq.
    { destruct Hok as [Hok|[Hok|Hok]]; [congruence|lia|exact Hok]. }
    split; [lia|].
    intros a Ha. destruct (isBatchSlice (Value a)) eqn:Hb.
    + apply isBatchSlice_true in Hb as [Hbyte [n Hn]]. split; [exact Hbyte|].
      pose proof (elem_sliceArgLens _ _ _ Ha Hbyte Hn) as Hin.
      pose proof (minimum_le _ _ Hin). pose proof (maximum_ge _ _ Hin).
      rewrite Hn. f_equal. lia.
    + exfalso. eapply (bindArgs_stuck args st0 true (dataSliceLen st0) 0%nat false
                         dpi h a Ha); [| discriminate | exact Hargs].
      intros _. split.
      * unfold dataSliceLen, doExecMany. rewrite Hflag, Hf, Hlen. simpl.
        replace (minimum (sliceArgLens args) >? 0) with true
          by (symmetry; rewrite Z.gtb_ltb; apply Z.ltb_lt; exact Hpos).
        exact Hpos.
      * intros set c dv v' Hi dpi0 h0.
        destruct (reflectIndex_not_batch _ _ _ Hb Hi) as [b0 ->].
        apply applySet_uint8_fails.
  - left. intros a Ha. destruct (isBatchSlice (Value a)) eqn:Hb; [|reflexivity].
    exfalso. eapply (bindArgs_stuck args st0 false (dataSliceLen st0) 0%nat false
                       dpi h a Ha); [discriminate | | exact Hargs].
    intros _ set c dv dpi0 h0. apply applySet_slice_fails. exact Hb.
Qed.

(** X10.  A binding that succeeds had arguments of one of two shapes: no
    argument is a slice (other than [[]byte]), or the flag [PlSQLArrays]
    is unset and every argument is a slice (other than [[]byte]) of one
    and the same length, between 1 and 1024.  So scalars and batch slices
    cannot be mixed, an empty slice cannot be bound, and with the flag set
    no slice can be bound. *)
Theorem bindVars_all_scalars_or_all_slices dpi h st args st' h' :
  bindVars st args dpi h = (Val (st', None), h') ->
  (forall a, a ∈ args -> isBatchSlice (Value a) = false)
  \/ (PlSQLArrays st = false
      /\ exists n, 0 < n <= maxArraySize
           /\ forall a, a ∈ args ->
                isByteSlice (Value a) = false /\ sliceLen (Value a) = Some n).
Proof. apply bindVars_shape_of_success. Qed.

Lemma bindVars_all_scalars_or_all_slices_witness :
  exists st' h',
    bindVars (prepared 9) args_batch3 nativeOK [] = (Val (st', None), h')
    /\ ((forall a, a ∈ args_batch3 -> isBatchSlice (Value a) = false)
        \/ (PlSQLArrays (prepared 9) = false
            /\ exists n, 0 < n <= maxArraySize
                 /\ forall a, a ∈ args_batch3 ->
                      isByteSlice (Value a) = false /\ sliceLen (Value a) = Some n)).
Proof.
  eexists _, _. split; [vm_compute; reflexivity|].
  exact (bindVars_all_scalars_or_all_slices nativeOK [] (prepared 9) args_batch3
           _ _ eq_refl).
Defined.

Lemma bindVars_stuck dpi h st args a :
  a ∈ args ->
  (forall v', reflectIndex (Value a) 0 = Some v' ->
     forall set c dv dpi h, failed (applySet set c dv 0 v' dpi h)) ->
  (forall set c dv dpi h, failed (applySet set c dv 0 (Value a) dpi h)) ->
  forall st' h', bindVars st args dpi h <> (Val (st', None), h').
Proof.
  intros Ha Hbatch Hscalar st' h' H.
  apply bindVars_inv in H as (_ & _ & named & h1 & Hargs & _).
  set (st0 := set_arrLen (resliced st args) (minimum (sliceArgLens args))) in *.
  eapply (bindArgs_stuck args st0 (doExecMany st0) (dataSliceLen st0) 0%nat false
            dpi h a Ha); [| | exact Hargs].
  - intros Hdm. split.
    + unfold dataSliceLen. rewrite Hdm. unfold doExecMany in Hdm.
      apply andb_true_iff in Hdm as [_ Hpos]. rewrite Z.gtb_ltb in Hpos.
      apply Z.ltb_lt in Hpos. exact Hpos.
    + intros set c dv v' Hi dpi0 h0. apply Hbatch. exact Hi.
  - intros _. exact Hscalar.
Qed.

(** X11.  An argument list containing the empty string or an empty
    [[]byte] is never bound successfully: the setter takes the address of
    the first byte, which panics, in scalar mode, and in batch mode such an
    argument cannot be indexed. *)
Theorem bindVars_empty_text_never_binds dpi h st args a :
  a ∈ args -> Value a = VString "" \/ Value a = VBytes [] ->
  forall st' h', bindVars st args dpi h <> (Val (st', None), h').
Proof.
  intros Ha Hv. apply (bindVars_stuck dpi h st args a Ha).
  - intros v' Hi. destruct Hv as [Hv|Hv]; rewrite Hv in Hi; discriminate.
  - intros set c dv dpi0 h0.
    destruct Hv as [Hv|Hv]; rewrite Hv; destruct set; simpl; unfold panic, ret; auto.
Qed.

Lemma bindVars_empty_text_never_binds_witness :
  positional 1 (VString "") ∈ [positional 1 (VString "")]
  /\ (Value (positional 1 (VString "")) = VString ""
      \/ Value (positional 1 (VString "")) = VBytes [])
  /\ (forall st' h',
        bindVars (prepared 9) [positional 1 (VString "")] nativeOK []
        <> (Val (st', None), h'))
  /\ fst (bindVars (prepared 9) [positional 1 (VString "")] nativeOK [])
     = Panic "index out of range".
Proof.
  assert (positional 1 (VString "") ∈ [positional 1 (VString "")]) as Ha by left.
  split; [exact Ha|]. split; [left; reflexivity|].
  split; [|vm_compute; reflexivity].
  exact (bindVars_empty_text_never_binds nativeOK [] (prepared 9)
           [positional 1 (VString "")] (positional 1 (VString "")) Ha
           (or_introl eq_refl)).
Defined.

(** X12.  An argument list containing an [sql.Out] is never bound
    successfully, whatever its destination and whatever the native layer
    does: the type is chosen from the unwrapped destination, but the setter
    is handed the wrapper (scalar mode) or the wrapper is indexed (batch
    mode). *)
Theorem bindVars_out_never_binds dpi h st args a d :
  a ∈ args -> Value a = VOut d ->
  forall st' h', bindVars st args dpi h <> (Val (st', None), h').
Proof. apply bindVars_out. Qed.

Lemma bindVars_out_never_binds_witness :
  positional 1 (VOut (VPtr (VString "abc"))) ∈ [positional 1 (VOut (VPtr (VString "abc")))]
  /\ Value (positional 1 (VOut (VPtr (VString "abc")))) = VOut (VPtr (VString "abc"))
  /\ forall st' h',
      bindVars (prepared 9) [positional 1 (VOut (VPtr (VString "abc")))] nativeOK []
      <> (Val (st', None), h').
Proof.
  assert (positional 1 (VOut (VPtr (VString "abc")))
          ∈ [positional 1 (VOut (VPtr (VString "abc")))]) as Ha by left.
  split; [exact Ha|]. split; [reflexivity|].
  exact (bindVars_out_never_binds nativeOK [] (prepared 9) _ _ _ Ha eq_refl).
Defined.

(** ** Binding: a batch of integers *)

Lemma setMany_int64 count : forall j l v vdata c i dpi h,
  (forall k, (j <= k < j + count)%nat -> is_Some (vdata !! k)) ->
  (j + count <= List.length l)%nat ->
  setMany setNumber c v vdata i (VInt64s l) j count dpi h
  = (Val None,
     h ++ imap (fun k x => dpiData_setInt64 v (Z.of_nat (j + k)) (i64 x))
            (take count (drop j l))).
Proof.
  induction count as [|count IH]; intros j l v vdata c i dpi h Hdata Hlen.
  - simpl. rewrite app_nil_r. reflexivity.
  - cbn [setMany].
    destruct (Hdata j ltac:(lia)) as [cellj ->].
    destruct (l !! j) as [x|] eqn:Hx;
      [|apply lookup_ge_None in Hx; lia].
    cbn [reflectIndex]. rewrite Hx. cbn [fmap option_fmap option_map applySet dataSetNumber].
    cbv beta iota delta [bind call ret].
    rewrite IH; [|intros k Hk; apply Hdata; lia|lia].
    rewrite <- app_assoc. f_equal.
    rewrite (drop_S _ x j Hx). cbn [take imap app]. rewrite Nat.add_0_r. f_equal.
    f_equal. apply imap_ext. intros k y _. simpl. do 2 f_equal. lia.
Qed.

(** X13.  With the flag unset, binding a single [[]int64] of length
    between 1 and 1024 on a native layer that grants the variable and the
    bind: one NUMBER / INT64 variable with as many slots as the slice has
    elements is allocated, slot [j] is set to element [j], in order, and
    the variable is bound at position 1; the batch length is the length of
    the slice. *)
Theorem bindVars_batch_int64 dpi h st l v :
  PlSQLArrays st = false -> l <> [] -> len l <= maxArraySize ->
  let alloc := newVar false DPI_ORACLE_TYPE_NUMBER DPI_NATIVE_TYPE_INT64 (len l) 0 in
  let sets := imap (fun j x => dpiData_setInt64 v (Z.of_nat j) (i64 x)) l in
  let bound := dpiStmt_bindByPos (dpiStmt st) 1 v in
  dpi h alloc = ROut true v ->
  succeeded (dpi (h ++ alloc :: sets) bound) = true ->
  exists st',
    bindVars st [positional 1 (VInt64s l)] dpi h
    = (Val (st', None), h ++ alloc :: sets ++ [bound])
    /\ arrLen st' = len l /\ elements (vars st') = [v].
Proof.
  intros Hflag Hl Hmax alloc sets bound Halloc Hbound.
  assert (0 < len l) as Hpos.
  { destruct l; [congruence|]. unfold len. simpl. lia. }
  unfold bindVars. rewrite arrLens_spec.
  change (sliceArgLens [positional 1 (VInt64s l)]) with [len l].
  cbn [minimum maximum fold_left].
  replace (len l >? maxArraySize) with false
    by (symmetry; rewrite Z.gtb_ltb; apply Z.ltb_ge; lia).
  rewrite Z.eqb_refl, andb_false_r.
  fold (resliced st [positional 1 (VInt64s l)]).
  set (st0 := set_arrLen (resliced st [positional 1 (VInt64s l)]) (len l)).
  assert (doExecMany st0 = true) as Hdm.
  { unfold doExecMany. change (PlSQLArrays st0) with (PlSQLArrays st).
    change (arrLen st0) with (len l). rewrite Hflag. simpl.
    rewrite Z.gtb_ltb. apply Z.ltb_lt. exact Hpos. }
  assert (dataSliceLen st0 = len l) as Hdl.
  { unfold dataSliceLen. rewrite Hdm. reflexivity. }
  rewrite Hdm, Hdl.
  cbn [bindArgs Value positional unwrapOut typeSwitch Name]. cbn [String.eqb negb].
  change (PlSQLArrays st0) with (PlSQLArrays st). rewrite Hflag.
  unfold st_newVar. cbv beta iota delta [bind call ret]. fold alloc.
  rewrite Halloc. cbv beta iota.
  rewrite setMany_int64.
  2: { intros k Hk. rewrite list_lookup_fmap, lookup_seq_lt; [eexists; reflexivity|].
       unfold len in *. lia. }
  2: { unfold len. lia. }
  rewrite drop_0, take_ge by (unfold len; lia).
  cbn [negb]. unfold bindByPos at 1.
  set (st1 := set_vars_data st0 _ _).
  assert (elements (vars st1) = [v]) as Hvars.
  { subst st1 st0. unfold resliced, elements, cap, len. simpl.
    match goal with
    | |- context [?a <? ?b] => destruct (Z.ltb_spec a b)
    end.
    - reflexivity.
    - simpl. destruct (backing (vars st)); [simpl in *; lia|reflexivity]. }
  rewrite Hvars. cbv beta iota delta [bindByPos bind call ret getErr].
  change (u32 (Z.of_nat 0 + 1)) with 1. change (dpiStmt st1) with (dpiStmt st).
  fold bound. cbn [Nat.add]. fold sets.
  replace ((h ++ [alloc]) ++ sets) with (h ++ alloc :: sets)
    by (rewrite <- app_assoc; reflexivity).
  rewrite Hbound. cbn [negb].
  exists st1. split; [|split; [reflexivity|exact Hvars]].
  rewrite <- app_assoc. reflexivity.
Qed.

Lemma bindVars_batch_int64_witness :
  PlSQLArrays (prepared 9) = false /\ [1; 2; 3] <> [] /\ len [1; 2; 3] <= maxArraySize
  /\ nativeOK [] (newVar false DPI_ORACLE_TYPE_NUMBER DPI_NATIVE_TYPE_INT64
                    (len [1; 2; 3]) 0) = ROut true 1
  /\ exists st',
      bindVars (prepared 9) [positional 1 (VInt64s [1; 2; 3])] nativeOK []
      = (Val (st', None),
         [] ++ newVar false DPI_ORACLE_TYPE_NUMBER DPI_NATIVE_TYPE_INT64
                 (len [1; 2; 3]) 0
            :: imap (fun j x => dpiData_setInt64 1 (Z.of_nat j) (i64 x)) [1; 2; 3]
            ++ [dpiStmt_bindByPos (dpiStmt (prepared 9)) 1 1])
      /\ arrLen st' = len [1; 2; 3] /\ elements (vars st') = [1].
Proof.
  assert ([1; 2; 3] <> []) as Hl by discriminate.
  assert (len [1; 2; 3] <= maxArraySize) as Hm by (vm_compute; discriminate).
  split; [reflexivity|]. split; [exact Hl|]. split; [exact Hm|].
  split; [reflexivity|].
  exact (bindVars_batch_int64 nativeOK [] (prepared 9) [1; 2; 3] 1
           eq_refl Hl Hm eq_refl eq_refl).
Defined.

(** ** Fetch cursor: delivering a row *)

(** Materialising a cell of a column that is not a nested cursor makes no
    native call and does not depend on the native layer. *)
Lemma openColumns_rows_or_error st count : forall r info i dpi h h',
  openColumns st r info i count dpi h <> (Val (None, None), h').
Proof.
  induction count as [|count IH]; intros r info i dpi h h'; cbn [openColumns].
  - unfold ret. discriminate.
  - unfold bind at 1, call at 1.
    destruct (negb (succeeded _)).
    { cbv beta iota delta [bind call ret getErr]. discriminate. }
    unfold bind at 1.
    destruct (st_newVar _ _ _ _ _ _ _) as [[[[v d] err]|msg] h1]; [|discriminate].
    destruct err as [err|]; [unfold ret; discriminate|].
    unfold bind at 1, call at 1.
    destruct (negb (succeeded _)).
    { cbv beta iota delta [bind call ret getErr]. discriminate. }
    apply IH.
Qed.

Lemma openRows_rows_or_error st colCount dpi h h' :
  openRows st colCount dpi h <> (Val (None, None), h').
Proof.
  unfold openRows. unfold bind at 1, call at 1. cbv beta iota.
  destruct (colCount <? 0); [discriminate|].
  unfold bind at 1.
  destruct (openColumns _ _ _ _ _ _ _) as [[[[r1|] [e1|]]|msg] h1] eqn:E;
    cbv beta iota; unfold ret; try discriminate.
  - cbv beta iota delta [bind call ret getErr].
    destruct (negb (succeeded _)); discriminate.
  - exfalso. exact (openColumns_rows_or_error _ _ _ _ _ _ _ _ E).
Qed.

(** X14.  The Go type of the value [Next] stores for a cell that is not
    NULL, beside the type [ColumnTypeScanType] announces for the column.
    They agree for the column types [Next] converts with an explicit Go
    conversion or constructor (character, RAW and ROWID, native numbers,
    timestamps and dates, both intervals, booleans).  They differ
    elsewhere: for [DPI_NATIVE_TYPE_BYTES] a [string] is stored and
    [[]byte] announced; for a NUMBER column kept as a number the cgo value
    is stored unconverted ([C.int64_t], [C.uint64_t], [C.float],
    [C.double]) and [int64], [uint64], [float32], [float64] announced; for
    the large-object types a [*Lob] is stored and [string] or [[]byte]
    announced; for a nested cursor a [*rows] is stored and [*statement]
    announced.  No other column type yields a value, and for every type
    listed other than the nested cursor a value is stored whatever the
    native layer does. *)
Theorem convert_scan_type col d :
  (forall dpi h x h',
      convert col d dpi h = (Val (inl x), h') ->
      (plainType (col_Type col) = true /\ goTypeOf x = scanTypeOf col)
      \/ (col_Type col = DPI_NATIVE_TYPE_BYTES
          /\ goTypeOf x = T_string /\ scanTypeOf col = T_bytes)
      \/ (col_Type col = DPI_ORACLE_TYPE_NUMBER
          /\ match col_DefaultNumType col with
             | DPI_NATIVE_TYPE_INT64 =>
                 goTypeOf x = T_C_int64_t /\ scanTypeOf col = T_int64
             | DPI_NATIVE_TYPE_UINT64 =>
                 goTypeOf x = T_C_uint64_t /\ scanTypeOf col = T_uint64
             | DPI_NATIVE_TYPE_FLOAT =>
                 goTypeOf x = T_C_float /\ scanTypeOf col = T_float32
             | DPI_NATIVE_TYPE_DOUBLE =>
                 goTypeOf x = T_C_double /\ scanTypeOf col = T_float64
             | _ => goTypeOf x = T_string /\ scanTypeOf col = T_string
             end)
      \/ (lobType (col_Type col) = true
          /\ goTypeOf x = T_Lob_ptr
          /\ (scanTypeOf col = T_string \/ scanTypeOf col = T_bytes))
      \/ (stmtType (col_Type col) = true
          /\ goTypeOf x = T_rows_ptr /\ scanTypeOf col = T_statement_ptr))
  /\ (plainType (col_Type col) = true \/ col_Type col = DPI_NATIVE_TYPE_BYTES
      \/ col_Type col = DPI_ORACLE_TYPE_NUMBER \/ lobType (col_Type col) = true ->
      exists x, forall dpi h, fst (convert col d dpi h) = Val (inl x)).
Proof.
  split.
  - intros dpi h x h'. unfold convert, scanTypeOf.
    destruct (col_Type col) eqn:Et; unfold ret;
      try discriminate;
      try (intros H; inversion H; subst; simpl; clear H;
           first [ left; split; reflexivity
                 | right; left; split; [reflexivity|split; reflexivity]
                 | right; right; right; left;
                   split; [reflexivity|split; [reflexivity|auto]] ]).
    + intros H. right. right. left. split; [reflexivity|].
      destruct (col_DefaultNumType col); inversion H; subst; simpl; auto.
    + intros H. do 4 right. split; [reflexivity|]. split; [|reflexivity].
      revert H. unfold bind at 1, call at 1.
      destruct (negb (succeeded _)).
      { cbv beta iota delta [bind call ret getErr]. discriminate. }
      unfold bind at 1.
      match goal with
      | |- context [openRows ?s ?n dpi ?hh] =>
          pose proof (openRows_rows_or_error s n dpi hh) as Hno;
          destruct (openRows s n dpi hh) as [[[[r2|] [e2|]]|msg] h2]
      end; unfold ret; try discriminate.
      * intros H. inversion H. reflexivity.
      * exfalso. eapply Hno. reflexivity.
    + intros H. do 4 right. split; [reflexivity|]. split; [|reflexivity].
      revert H. unfold bind at 1, call at 1.
      destruct (negb (succeeded _)).
      { cbv beta iota delta [bind call ret getErr]. discriminate. }
      unfold bind at 1.
      match goal with
      | |- context [openRows ?s ?n dpi ?hh] =>
          pose proof (openRows_rows_or_error s n dpi hh) as Hno;
          destruct (openRows s n dpi hh) as [[[[r2|] [e2|]]|msg] h2]
      end; unfold ret; try discriminate.
      * intros H. inversion H. reflexivity.
      * exfalso. eapply Hno. reflexivity.
  - intros Ht. unfold convert.
    destruct (col_Type col);
      try (exfalso; destruct Ht as [Ht|[Ht|[Ht|Ht]]]; discriminate);
      try (eexists; intros; reflexivity).
    destruct (col_DefaultNumType col); eexists; intros; reflexivity.
Qed.

Lemma convert_scan_type_witness :
  let col := {| col_Name := "N"; col_Type := DPI_ORACLE_TYPE_NUMBER;
                col_DefaultNumType := DPI_NATIVE_TYPE_INT64; col_Size := 0;
                col_Precision := 0; col_Scale := 0; col_Nullable := true;
                col_ObjectType := NULL |} in
  convert col zeroData nativeOK [] = (Val (inl (DCInt64 0)), [])
  /\ goTypeOf (DCInt64 0) = T_C_int64_t /\ scanTypeOf col = T_int64.
Proof.
  intros col. split; [reflexivity|].
  destruct (proj1 (convert_scan_type col zeroData) nativeOK [] (DCInt64 0) [] eq_refl)
    as [[H _]|[[H _]|[[_ H]|[[H _]|[H _]]]]]; try discriminate H.
  exact H.
Defined.

Lemma fillDest_nulls cols : forall r dest i cells dpi h,
  (forall h v pos, isNull (outData (dpi h (dpiData_get v pos))) = 1) ->
  List.length cells = List.length cols ->
  (forall k, (k < List.length cols)%nat -> rowCell r (i + k) = cells !! k) ->
  (i + List.length cols <= List.length dest)%nat ->
  fillDest r dest i cols dpi h
  = (Val (take i dest ++ replicate (List.length cols) DNil
            ++ drop (i + List.length cols) dest, None),
     h ++ cellReads cells).
Proof.
  induction cols as [|col cols IH]; intros r dest i cells dpi h Hnull Hlen Hcells Hdest.
  - destruct cells; [|discriminate]. simpl. unfold ret.
    rewrite Nat.add_0_r, take_drop, app_nil_r. reflexivity.
  - destruct cells as [|[v pos] cells]; [discriminate|].
    cbn [fillDest].
    pose proof (Hcells 0%nat ltac:(simpl; lia)) as H0.
    rewrite Nat.add_0_r in H0. cbn [lookup list_lookup] in H0.
    match goal with
    | |- match ?t with _ => _ end dpi h = _ =>
        replace t with (Some (v, pos)) by (symmetry; exact H0)
    end.
    cbv beta iota delta [bind call ret]. rewrite Hnull. cbn [Z.eqb Pos.eqb].
    destruct (decide (i < List.length dest)%nat) as [Hi|Hi]; [|simpl in Hdest; lia].
    rewrite (IH r (<[i:=DNil]> dest) (S i) cells dpi (h ++ [dpiData_get v pos]) Hnull).
    + rewrite <- app_assoc. unfold cellReads. cbn [fmap list_fmap app fst snd]. f_equal. f_equal.
      simpl List.length.
      rewrite (take_S_r _ i DNil) by (apply list_lookup_insert_eq; exact Hi).
      rewrite take_insert_ge by lia.
      rewrite drop_insert_lt by lia.
      rewrite <- app_assoc. cbn [app replicate].
      replace (S i + List.length cols)%nat with (i + S (List.length cols))%nat by lia.
      reflexivity.
    + simpl in Hlen. lia.
    + intros k Hk. specialize (Hcells (S k) ltac:(simpl; lia)).
      replace (S i + k)%nat with (i + S k)%nat by lia. exact Hcells.
    + rewrite length_insert. simpl in Hdest. lia.
Qed.

(** X15.  A next-row request on a cursor that holds a buffered row makes no
    fetch: it reads the cell of each column at the buffer row index and
    nothing else.  When all those cells are NULL it stores nil for every
    column, whatever the column types (also types [Next] does not
    support), leaves the rest of [dest] alone, returns a nil error, and
    moves on by one row: the index goes up and the count of buffered rows
    goes down by one. *)
Theorem Next_null_row dpi h r dest cells :
  finished r = false -> fetched r <> 0 ->
  List.length cells = List.length (columns r) ->
  (forall k, (k < List.length (columns r))%nat -> rowCell r k = cells !! k) ->
  (List.length (columns r) <= List.length dest)%nat ->
  (forall h v pos, isNull (outData (dpi h (dpiData_get v pos))) = 1) ->
  Next r dest dpi h
  = (Val (set_fetch r (u32 (bufferRowIndex r + 1)) (u32 (fetched r - 1)) false,
          replicate (List.length (columns r)) DNil
            ++ drop (List.length (columns r)) dest,
          None),
     h ++ cellReads cells).
Proof.
  intros Hfin Hf Hlen Hcells Hdest Hnull.
  unfold Next. rewrite Hfin.
  replace (fetched r =? 0) with false by (symmetry; apply Z.eqb_neq; exact Hf).
  unfold bind at 1. unfold ret at 1. cbv beta iota.
  unfold bind at 1.
  rewrite (fillDest_nulls (columns r) r dest 0 cells dpi h Hnull Hlen Hcells Hdest).
  cbv beta iota. unfold ret. rewrite Hfin. reflexivity.
Qed.

Lemma Next_null_row_witness :
  finished buffered2 = false /\ fetched buffered2 <> 0
  /\ List.length [(1, 0); (2, 0)] = List.length (columns buffered2)
  /\ (forall k, (k < List.length (columns buffered2))%nat ->
        rowCell buffered2 k = [(1, 0); (2, 0)] !! k)
  /\ (List.length (columns buffered2) <= List.length [DBool true; DBool true; DBool true])%nat
  /\ (forall h v pos, isNull (outData (nativeNull h (dpiData_get v pos))) = 1)
  /\ Next buffered2 [DBool true; DBool true; DBool true] nativeNull []
     = (Val (set_fetch buffered2 (u32 (0 + 1)) (u32 (1 - 1)) false,
             [DNil; DNil; DBool true], None),
        [dpiData_get 1 0; dpiData_get 2 0]).
Proof.
  assert (fetched buffered2 <> 0) as Hf by discriminate.
  assert (forall k, (k < List.length (columns buffered2))%nat ->
            rowCell buffered2 k = [(1, 0); (2, 0)] !! k) as Hc.
  { intros k Hk. destruct k as [|[|k]]; [reflexivity|reflexivity|simpl in Hk; lia]. }
  assert (List.length (columns buffered2)
          <= List.length [DBool true; DBool true; DBool true])%nat as Hd
      by (simpl; lia).
  split; [reflexivity|]. split; [exact Hf|]. split; [reflexivity|].
  split; [exact Hc|]. split; [exact Hd|]. split; [reflexivity|].
  exact (Next_null_row nativeNull [] buffered2 [DBool true; DBool true; DBool true]
           [(1, 0); (2, 0)] eq_refl Hf eq_refl Hc Hd (fun _ _ _ => eq_refl)).
Defined.

(** ** What binding and fetching ask of the native layer *)

Section Only.

Context {A B : Type} (P : ncall -> Prop).

Lemma only_ret (a : A) : only P (ret a).
Proof. intros dpi h. exists []. rewrite app_nil_r. split; [reflexivity|constructor]. Qed.

Lemma only_panic msg : only P (@panic A msg).
Proof. intros dpi h. exists []. rewrite app_nil_r. split; [reflexivity|constructor]. Qed.

Lemma only_call c : P c -> only P (call c).
Proof. intros Hc dpi h. exists [c]. split; [reflexivity|repeat constructor; exact Hc]. Qed.

Lemma only_bind (m : M A) (k : A -> M B) :
  only P m -> (forall a, only P (k a)) -> only P (bind m k).
Proof.
  intros Hm Hk dpi h. unfold bind.
  destruct (Hm dpi h) as (new1 & E1 & F1).
  destruct (m dpi h) as [[a|msg] h1]; simpl in E1; subst h1.
  - destruct (Hk a dpi (h ++ new1)) as (new2 & E2 & F2).
    exists (new1 ++ new2). rewrite E2, app_assoc. split; [reflexivity|].
    apply Forall_app. split; assumption.
  - exists new1. split; [reflexivity|exact F1].
Qed.

End Only.

Lemma only_getErr P : P getError -> only P getErr.
Proof.
  intros Hp. unfold getErr. apply only_bind; [apply only_call; exact Hp|].
  intros r. apply only_ret.
Qed.

(** One step of a proof that a computation makes only calls of a kind. *)
Ltac only_step :=
  match goal with
  | |- only _ (ret _) => apply only_ret
  | |- only _ (panic _) => apply only_panic
  | |- only _ getErr => apply only_getErr; reflexivity
  | |- only _ (call _) => apply only_call; reflexivity
  | |- only _ (bind _ _) => apply only_bind; [|intros ?]
  | |- only _ (let '(_, _) := ?x in _) => destruct x
  | |- only _ (match ?x with _ => _ end) => destruct x
  end.

Lemma only_mono {A} (P Q : ncall -> Prop) (m : M A) :
  (forall c, P c -> Q c) -> only P m -> only Q m.
Proof.
  intros HPQ Hm dpi h. destruct (Hm dpi h) as (new & E & F).
  exists new. split; [exact E|]. eapply Forall_impl; eauto.
Qed.

Section ArgPhase.

Variable flag : bool.
Variable size : Z.
Local Abbreviation P := (fun c => argPhaseCall flag size c = true).

Lemma Write_bytes_only dlw lob p : only P (Write_bytes dlw lob p).
Proof. unfold Write_bytes. cbn [andb CheckLOBWrite]. repeat only_step. Qed.

Lemma Write_only dlw p : only P (Write dlw p).
Proof.
  unfold Write. repeat only_step; try apply Write_bytes_only.
Qed.

Lemma Close_only dlw : only P (Close dlw).
Proof. unfold Close. repeat only_step. Qed.

Lemma CopyBuffer_only reads : forall lw, only P (CopyBuffer lw reads).
Proof.
  induction reads as [|[buf er] reads IH]; intros lw; cbn [CopyBuffer].
  - apply only_ret.
  - apply only_bind.
    + destruct buf; [apply only_ret|].
      apply only_bind; [apply Write_only|]. intros [lw' [nw ew]].
      destruct ew; [apply only_ret|]. destruct (negb _); apply only_ret.
    + intros [lw' err]. destruct err; [apply only_ret|].
      destruct er as [[|msg]|]; [apply only_ret|apply only_ret|apply IH].
Qed.

Lemma applySet_only set c dv pos v : only P (applySet set c dv pos v).
Proof.
  destruct set; cbn [applySet].
  - unfold dataSetLOB. destruct v; try apply only_panic.
    destruct (Reader v) as [src|]; [|repeat only_step].
    apply only_bind; [apply only_call; reflexivity|]. intros resp.
    destruct (negb (succeeded resp)); [repeat only_step|].
    apply only_bind; [apply only_call; reflexivity|]. intros resp2.
    apply only_bind; [apply CopyBuffer_only|]. intros [lw err].
    apply only_bind; [apply Close_only|]. intros [w closeErr].
    repeat only_step.
  - unfold dataSetNumber. destruct v; repeat only_step.
  - unfold dataSetBool. destruct v; repeat only_step.
  - unfold dataSetBytes. destruct v; repeat only_step.
  - unfold dataSetTimestamp. destruct v; repeat only_step.
Qed.

Lemma setMany_only set c dv vdata i rArg count : forall j,
  only P (setMany set c dv vdata i rArg j count).
Proof.
  induction count as [|count IH]; intros j; cbn [setMany].
  - apply only_ret.
  - destruct (vdata !! j); [|apply only_panic].
    destruct (reflectIndex rArg j); [|apply only_panic].
    apply only_bind; [apply applySet_only|]. intros [err|]; [apply only_ret|].
    apply IH.
Qed.

Lemma st_newVar_only typ natTyp bufSize :
  only P (st_newVar flag typ natTyp size bufSize).
Proof.
  unfold st_newVar. apply only_bind.
  - apply only_call. simpl. rewrite Z.eqb_refl, eqb_reflx. reflexivity.
  - intros resp. repeat only_step.
Qed.

Lemma bindArgs_only args : forall st dm i named,
  PlSQLArrays st = flag ->
  only P (bindArgs st dm size i args named).
Proof.
  induction args as [|a args IH]; intros st dm i named Hflag; cbn [bindArgs].
  - apply only_ret.
  - destruct (unwrapOut (Value a)) as [v|]; [|apply only_panic].
    destruct (typeSwitch (Z.of_nat i) v) as [[[[set typ] natTyp] bufSize]|err];
      [|apply only_ret].
    rewrite Hflag. apply only_bind; [apply st_newVar_only|].
    intros [[dv vdata] err]. destruct err as [err|]; [apply only_ret|].
    apply only_bind.
    + destruct (negb dm).
      * destruct vdata; [apply only_panic|].
        apply only_bind; [apply applySet_only|]. intros [e|]; apply only_ret.
      * apply setMany_only.
    + intros [e|]; [apply only_ret|]. apply IH. exact Hflag.
Qed.

End ArgPhase.

Lemma bindByPos_only stmt vs : forall i,
  only (fun c => bindCall false c = true) (bindByPos stmt i vs).
Proof.
  induction vs as [|v vs IH]; intros i; cbn [bindByPos].
  - apply only_ret.
  - apply only_bind; [apply only_call; reflexivity|]. intros resp.
    destruct (negb (succeeded resp)); [repeat only_step|apply IH].
Qed.

Lemma bindByName_only st args : forall i,
  only (fun c => bindCall true c = true) (bindByName st i args).
Proof.
  induction args as [|a args IH]; intros i; cbn [bindByName].
  - apply only_ret.
  - destruct (elements (vars st) !! i); [|apply only_panic].
    apply only_bind; [apply only_call; reflexivity|]. intros resp.
    destruct (negb (succeeded resp)); [repeat only_step|apply IH].
Qed.

Lemma argPhase_bindPhase flag size c :
  argPhaseCall flag size c = true -> bindPhaseCall flag size c = true.
Proof. destruct c; simpl; congruence. Qed.

Lemma bindCall_bindPhase byName flag size c :
  bindCall byName c = true -> bindPhaseCall flag size c = true.
Proof. destruct c; simpl; congruence. Qed.

(** The calls of [bindVars] come in two runs: those that prepare the
    arguments, then those of one of the two bind loops, by name exactly
    when some argument has a name. *)
Lemma bindVars_calls st args dpi h :
  exists pre post,
    snd (bindVars st args dpi h) = h ++ pre ++ post
    /\ Forall (fun c => argPhaseCall (PlSQLArrays st) (slotsFor st args) c = true) pre
    /\ Forall (fun c => bindCall (existsb hasName args) c = true) post.
Proof.
  unfold bindVars. rewrite arrLens_spec. fold (resliced st args).
  destruct (maximum (sliceArgLens args) >? maxArraySize).
  { exists [], []. rewrite !app_nil_r. unfold ret. auto. }
  destruct_if.
  { exists [], []. rewrite !app_nil_r. unfold ret. auto. }
  set (st0 := set_arrLen (resliced st args) (minimum (sliceArgLens args))).
  assert (dataSliceLen st0 = slotsFor st args) as -> by reflexivity.
  unfold bind at 1.
  destruct (bindArgs_only (PlSQLArrays st) (slotsFor st args) args st0
              (doExecMany st0) 0%nat false eq_refl dpi h) as (pre & E & F).
  destruct (bindArgs st0 (doExecMany st0) (slotsFor st args) 0 args false dpi h)
    as [[[[st1 named] err]|msg] h1] eqn:Hb; simpl in E; subst h1.
  2: { exists pre, []. rewrite app_nil_r. auto. }
  destruct err as [err|].
  { exists pre, []. rewrite app_nil_r. unfold ret. auto. }
  pose proof (bindArgs_named _ _ _ _ _ _ _ _ _ _ _ _ Hb eq_refl) as Hn.
  simpl in Hn. subst named.
  exists pre. unfold bind at 1.
  destruct (existsb hasName args).
  - destruct (bindByName_only st1 args 0%nat dpi (h ++ pre)) as (post & E & G).
    exists post. cbn [negb].
    destruct (bindByName st1 0 args dpi (h ++ pre)) as [[r|msg] h2];
      simpl in E; subst h2; unfold ret; simpl; rewrite <- app_assoc; auto.
  - destruct (bindByPos_only (dpiStmt st1) (elements (vars st1)) 0%nat dpi (h ++ pre))
      as (post & E & G).
    exists post. cbn [negb].
    destruct (bindByPos (dpiStmt st1) 0 (elements (vars st1)) dpi (h ++ pre))
      as [[r|msg] h2];
      simpl in E; subst h2; unfold ret; simpl; rewrite <- app_assoc; auto.
Qed.

Lemma bindVars_only st args :
  only (fun c => bindPhaseCall (PlSQLArrays st) (slotsFor st args) c = true)
    (bindVars st args).
Proof.
  intros dpi h. destruct (bindVars_calls st args dpi h) as (pre & post & E & F & G).
  exists (pre ++ post). split; [exact E|].
  apply Forall_app. split.
  - eapply Forall_impl; [exact F|]. intros c. apply argPhase_bindPhase.
  - eapply Forall_impl; [exact G|]. intros c. apply bindCall_bindPhase.
Qed.

(** X16.  For arguments whose LOB readers make no native call of their
    own (readers over memory, with short reads and read errors; not a
    [Lob] around the driver's [dpiLobReader], whose reads ask the native
    layer): whatever the native layer answers and however it ends,
    [bindVars] only adds to the history of native calls, and what it adds
    are calls of the binding phase: it never executes the statement,
    fetches, or defines result columns.  Every variable it allocates
    carries the statement's [PlSQLArrays] flag and has as many slots as the
    common slice length in batch mode, and one slot otherwise. *)
Theorem bindVars_native_calls st args dpi h :
  exists new,
    snd (bindVars st args dpi h) = h ++ new
    /\ Forall (fun c => bindPhaseCall (PlSQLArrays st) (slotsFor st args) c = true) new.
Proof. exact (bindVars_only st args dpi h). Qed.

Section FetchPhase.

Local Abbreviation Q := (fun c => materialiseCall c = true).

Lemma st_newVar_fetch_only typ natTyp arraySize bufSize :
  only Q (st_newVar false typ natTyp arraySize bufSize).
Proof. unfold st_newVar. repeat only_step. Qed.

Lemma openColumns_only st count : forall r info i,
  only Q (openColumns st r info i count).
Proof.
  induction count as [|count IH]; intros r info i; cbn [openColumns].
  - apply only_ret.
  - apply only_bind; [apply only_call; reflexivity|]. intros resp.
    destruct (negb (succeeded resp)); [repeat only_step|].
    apply only_bind; [apply st_newVar_fetch_only|]. intros [[v d] err].
    destruct err; [apply only_ret|].
    apply only_bind; [apply only_call; reflexivity|]. intros resp2.
    destruct (negb (succeeded resp2)); [repeat only_step|apply IH].
Qed.

Lemma openRows_only st colCount : only Q (openRows st colCount).
Proof.
  unfold openRows. apply only_bind; [apply only_call; reflexivity|]. intros _.
  destruct (colCount <? 0); [apply only_panic|].
  apply only_bind; [apply openColumns_only|]. intros [[r|] [e|]];
    try apply only_ret.
  repeat only_step.
Qed.

Lemma convert_only col d : only Q (convert col d).
Proof.
  unfold convert.
  destruct (col_Type col); try apply only_ret.
  - destruct (col_DefaultNumType col); apply only_ret.
  - apply only_bind; [apply only_call; reflexivity|]. intros resp.
    destruct (negb (succeeded resp)); [repeat only_step|].
    apply only_bind; [apply openRows_only|]. intros [[r|] [e|]]; apply only_ret.
  - apply only_bind; [apply only_call; reflexivity|]. intros resp.
    destruct (negb (succeeded resp)); [repeat only_step|].
    apply only_bind; [apply openRows_only|]. intros [[r|] [e|]]; apply only_ret.
Qed.

Lemma fillDest_only r cols : forall dest i, only Q (fillDest r dest i cols).
Proof.
  induction cols as [|col cols IH]; intros dest i; cbn [fillDest].
  - apply only_ret.
  - destruct (r_data r !! i ≫= _) as [[v pos]|]; [|apply only_panic].
    apply only_bind; [apply only_call; reflexivity|]. intros resp.
    apply only_bind.
    + destruct (isNull (outData resp) =? 1); [apply only_ret|apply convert_only].
    + intros [x|err]; [|apply only_ret].
      destruct (decide (i < List.length dest)%nat); [apply IH|apply only_panic].
Qed.

End FetchPhase.

Lemma bind_assoc {A B C} (m : M A) (k1 : A -> M B) (k2 : B -> M C) dpi h :
  bind (bind m k1) k2 dpi h = bind m (fun a => bind (k1 a) k2) dpi h.
Proof. unfold bind. destruct (m dpi h) as [[a|msg] h1]; reflexivity. Qed.

Lemma only_after_call {A} (P : ncall -> Prop) c (k : nresp -> M A) :
  (forall resp, only P (k resp)) ->
  forall dpi h, exists rest,
    snd (bind (call c) k dpi h) = h ++ c :: rest /\ Forall P rest.
Proof.
  intros Hk dpi h. unfold bind, call.
  destruct (Hk (dpi h c) dpi (h ++ [c])) as (rest & E & F).
  exists rest. rewrite E, <- app_assoc. split; [reflexivity|exact F].
Qed.

(** X17.  What a next-row request asks of the native layer, whatever the
    answers and however it ends.  On a finished cursor: nothing.  On a
    cursor with no buffered row: one [dpiStmt_fetchRows] for
    [fetchRowCount] rows, first, and no other fetch.  On a cursor with a
    buffered row: no fetch.  Besides that fetch it only reads cells, opens
    nested cursors and gets the diagnostic: it never binds, executes or
    touches a LOB.  The history of native calls only grows. *)
Theorem Next_native_calls r dest dpi h :
  exists new,
    snd (Next r dest dpi h) = h ++ new
    /\ (finished r = true -> new = [])
    /\ (finished r = false -> fetched r = 0 ->
        exists rest,
          new = dpiStmt_fetchRows (dpiStmt (r_statement r)) fetchRowCount :: rest
          /\ Forall (fun c => materialiseCall c = true) rest)
    /\ (finished r = false -> fetched r <> 0 ->
        Forall (fun c => materialiseCall c = true) new).
Proof.
  unfold Next. destruct (finished r) eqn:Hfin.
  - exists []. rewrite app_nil_r. split; [reflexivity|].
    split; [reflexivity|]. split; intros; discriminate.
  - destruct (Z.eqb_spec (fetched r) 0) as [Hf|Hf].
    + rewrite bind_assoc.
      match goal with
      | |- exists new, snd (bind (call ?c0) ?k dpi h) = _ /\ _ =>
          destruct (only_after_call (fun x => materialiseCall x = true) c0 k)
            with (dpi := dpi) (h := h) as (rest & E & F)
      end.
      * intros resp. apply only_bind.
        -- destruct (negb (succeeded resp)); [repeat only_step|].
           destruct_if; apply only_ret.
        -- intros [r1 [err|]]; [apply only_ret|].
           apply only_bind; [apply fillDest_only|].
           intros [dest0 [err|]]; apply only_ret.
      * eexists. split; [exact E|].
        split; [discriminate|]. split; [|intros _ Hne; congruence].
        intros _ _. exists rest. split; [reflexivity|exact F].
    + match goal with
      | |- exists new, snd (?m dpi h) = _ /\ _ =>
          assert (only (fun c => materialiseCall c = true) m) as Hrest
      end.
      { apply only_bind; [apply only_ret|].
        intros [r1 [err|]]; [apply only_ret|].
        apply only_bind; [apply fillDest_only|].
        intros [dest0 [err|]]; apply only_ret. }
      destruct (Hrest dpi h) as (new & E & F).
      exists new. split; [exact E|].
      split; [discriminate|]. split; [intros _ Hz; congruence|].
      intros _ _. exact F.
Qed.

(** ** Opening a result set *)

Lemma openColumns_shape st count : forall r info i dpi h r' e h',
  openColumns st r info i count dpi h = (Val (Some r', e), h') ->
  r_statement r' = r_statement r
  /\ List.length (columns r') = List.length (columns r)
  /\ List.length (r_vars r') = List.length (r_vars r)
  /\ List.length (r_data r') = List.length (r_data r)
  /\ bufferRowIndex r' = bufferRowIndex r /\ fetched r' = fetched r
  /\ finished r' = finished r.
Proof.
  induction count as [|count IH]; intros r info i dpi h r' e h' H.
  - simpl in H. unfold ret in H. inversion H; subst. auto 10.
  - cbn [openColumns] in H. unfold bind at 1, call at 1 in H.
    destruct (negb (succeeded _)) in H.
    { cbv beta iota delta [bind call ret getErr] in H. discriminate. }
    unfold bind at 1 in H.
    destruct (st_newVar _ _ _ _ _ _ _) as [[[[v d] err]|msg] h1] in H;
      [|discriminate].
    destruct err as [err|]; [unfold ret in H; discriminate|].
    unfold bind at 1, call at 1 in H.
    destruct (negb (succeeded _)) in H.
    { cbv beta iota delta [bind call ret getErr] in H. discriminate. }
    apply IH in H. simpl in H. rewrite !length_insert in H. exact H.
Qed.

(** X18.  A cursor that [openRows] returns belongs to the statement it
    was opened on, has exactly [colCount] column descriptors, variables
    and data rows, no buffered row ([fetched] and the buffer row index are
    zero) and is not finished, also when [openRows] returns it together
    with the error of the final [dpiStmt_addRef]. *)
Theorem openRows_fresh dpi h st colCount r e h' :
  openRows st colCount dpi h = (Val (Some r, e), h') ->
  0 <= colCount
  /\ r_statement r = st
  /\ List.length (columns r) = Z.to_nat colCount
  /\ List.length (r_vars r) = Z.to_nat colCount
  /\ List.length (r_data r) = Z.to_nat colCount
  /\ bufferRowIndex r = 0 /\ fetched r = 0 /\ finished r = false.
Proof.
  unfold openRows. unfold bind at 1, call at 1. cbv beta iota.
  destruct (Z.ltb_spec colCount 0) as [Hneg|Hpos]; [discriminate|].
  unfold bind at 1.
  destruct (openColumns _ _ _ _ _ _ _) as [[[[r1|] [e1|]]|msg] h1] eqn:E;
    cbv beta iota; unfold ret; try discriminate.
  - intros H. inversion H; subst. apply openColumns_shape in E. simpl in E.
    rewrite !length_replicate in E. destruct E as (? & ? & ? & ? & ? & ? & ?).
    auto 10.
  - intros H.
    assert (r = r1) as ->.
    { revert H. cbv beta iota delta [bind call ret getErr].
      destruct (negb (succeeded _)); intros H; inversion H; reflexivity. }
    apply openColumns_shape in E. simpl in E.
    rewrite !length_replicate in E. destruct E as (? & ? & ? & ? & ? & ? & ?).
    auto 10.
Qed.

Lemma openRows_fresh_witness :
  exists r e h',
    openRows (prepared 9) 2 nativeOK [] = (Val (Some r, e), h')
    /\ 0 <= 2
    /\ r_statement r = prepared 9
    /\ List.length (columns r) = Z.to_nat 2
    /\ List.length (r_vars r) = Z.to_nat 2
    /\ List.length (r_data r) = Z.to_nat 2
    /\ bufferRowIndex r = 0 /\ fetched r = 0 /\ finished r = false.
Proof.
  eexists _, _, _. split; [vm_compute; reflexivity|].
  exact (openRows_fresh nativeOK [] (prepared 9) 2 _ _ _ eq_refl).
Defined.

Lemma openColumns_kept st count : forall r info i dpi h r' e h',
  openColumns st r info i count dpi h = (Val (Some r', e), h') ->
  (i + count <= List.length (columns r))%nat ->
  Forall (fun c => keptNativeType c = true) (take i (columns r)) ->
  Forall (fun c => keptNativeType c = true) (take (i + count) (columns r')).
Proof.
  induction count as [|count IH]; intros r info i dpi h r' e h' H Hlen Hpre.
  - simpl in H. unfold ret in H. inversion H; subst.
    rewrite Nat.add_0_r. exact Hpre.
  - cbn [openColumns] in H. unfold bind at 1, call at 1 in H.
    destruct (negb (succeeded _)) in H.
    { cbv beta iota delta [bind call ret getErr] in H. discriminate. }
    unfold bind at 1 in H.
    destruct (st_newVar _ _ _ _ _ _ _) as [[[[v d] err]|msg] h1] in H;
      [|discriminate].
    destruct err as [err|]; [unfold ret in H; discriminate|].
    unfold bind at 1, call at 1 in H.
    destruct (negb (succeeded _)) in H.
    { cbv beta iota delta [bind call ret getErr] in H. discriminate. }
    apply IH in H.
    + replace (i + S count)%nat with (S i + count)%nat by lia. exact H.
    + simpl. rewrite length_insert. lia.
    + simpl. erewrite take_S_r by (apply list_lookup_insert_eq; lia).
      rewrite take_insert_ge by lia.
      apply Forall_app. split; [exact Hpre|]. constructor; [|constructor].
      unfold keptNativeType. simpl.
      destruct (defaultNativeTypeNum _); reflexivity.
Qed.

(** X20.  No column of a cursor that [openRows] returns keeps
    [DPI_ORACLE_TYPE_NUMBER] or [DPI_ORACLE_TYPE_DATE] as its native type:
    the loop replaces them by [DPI_NATIVE_TYPE_BYTES] and
    [DPI_NATIVE_TYPE_TIMESTAMP] before it records the column. *)
Theorem openRows_native_types dpi h st colCount r e h' :
  openRows st colCount dpi h = (Val (Some r, e), h') ->
  Forall (fun c => keptNativeType c = true) (columns r).
Proof.
  intros H.
  assert (List.length (columns r) = Z.to_nat colCount
          /\ Forall (fun c => keptNativeType c = true)
               (take (0 + Z.to_nat colCount) (columns r))) as [Hlen Hall].
  { revert H. unfold openRows. unfold bind at 1, call at 1. cbv beta iota.
    destruct (Z.ltb_spec colCount 0) as [Hneg|Hpos]; [discriminate|].
    unfold bind at 1.
    destruct (openColumns _ _ _ _ _ _ _) as [[[[r1|] [e1|]]|msg] h1] eqn:E;
      cbv beta iota; unfold ret; try discriminate.
    - intros H. inversion H; subst. split.
      + apply openColumns_shape in E. simpl in E.
        rewrite !length_replicate in E. tauto.
      + apply openColumns_kept in E; [exact E| |constructor].
        simpl. rewrite length_replicate. lia.
    - intros H.
      assert (r = r1) as ->.
      { revert H. cbv beta iota delta [bind call ret getErr].
        destruct (negb (succeeded _)); intros H; inversion H; reflexivity. }
      split.
      + apply openColumns_shape in E. simpl in E.
        rewrite !length_replicate in E. tauto.
      + apply openColumns_kept in E; [exact E| |constructor].
        simpl. rewrite length_replicate. lia. }
  rewrite take_ge in Hall by (simpl; lia). exact Hall.
Qed.

Lemma openRows_native_types_witness :
  exists r e h',
    openRows (prepared 9) 2 nativeNumberDate [] = (Val (Some r, e), h')
    /\ col_DefaultNumType <$> columns r
       = [DPI_NATIVE_TYPE_BYTES; DPI_NATIVE_TYPE_TIMESTAMP]
    /\ Forall (fun c => keptNativeType c = true) (columns r).
Proof.
  eexists _, _, _. split; [vm_compute; reflexivity|].
  split; [reflexivity|].
  exact (openRows_native_types nativeNumberDate [] (prepared 9) 2 _ _ _ eq_refl).
Defined.

(** ** Running a bound statement *)

Lemma execMode_frame st st' : st_conn st' = st_conn st -> execMode st' = execMode st.
Proof. intros H. unfold execMode. rewrite H. reflexivity. Qed.

(** The calls of [runExec]: the execution, then the diagnostic or the row
    count. *)
Lemma runExec_trace st :
  trace (fun new => new = [executeCall st (execMode st); getError]
                    \/ new = [executeCall st (execMode st);
                              dpiStmt_getRowCount (dpiStmt st)])
    (runExec st).
Proof.
  intros dpi h. unfold runExec. unfold bind at 1, call at 1.
  destruct (negb (succeeded _)).
  - exists [executeCall st (execMode st); getError].
    cbv beta iota delta [bind call ret getErr]. simpl.
    rewrite <- app_assoc. auto.
  - exists [executeCall st (execMode st); dpiStmt_getRowCount (dpiStmt st)].
    unfold bind at 1, call at 1.
    destruct (negb (succeeded _)); unfold ret; simpl; rewrite <- app_assoc; auto.
Qed.

(** The calls of [runQuery]: the execution in the default mode, then the
    diagnostic or the calls that open the result set. *)
Lemma runQuery_trace st :
  trace (fun new => exists rest,
           new = dpiStmt_execute (dpiStmt st) DPI_MODE_EXEC_DEFAULT :: rest
           /\ Forall (fun c => materialiseCall c = true) rest)
    (runQuery st).
Proof.
  intros dpi h. unfold runQuery. unfold bind at 1, call at 1.
  destruct (negb (succeeded _)).
  - exists [dpiStmt_execute (dpiStmt st) DPI_MODE_EXEC_DEFAULT; getError].
    cbv beta iota delta [bind call ret getErr]. simpl.
    rewrite <- app_assoc. split; [reflexivity|].
    eexists. split; [reflexivity|]. repeat constructor.
  - match goal with
    | |- context [openRows st ?n] =>
        destruct (openRows_only st n dpi
                    (h ++ [dpiStmt_execute (dpiStmt st) DPI_MODE_EXEC_DEFAULT]))
          as (rest & E & G)
    end.
    exists (dpiStmt_execute (dpiStmt st) DPI_MODE_EXEC_DEFAULT :: rest).
    unfold bind at 1.
    match goal with
    | |- context [openRows st ?n dpi ?hh] =>
        destruct (openRows st n dpi hh) as [[o|msg] h2]
    end; simpl in E; subst h2; simpl; rewrite <- app_assoc;
      (split; [reflexivity|]); eauto.
Qed.

Lemma Break_calls c dpi h :
  exists brk, snd (Break c dpi h) = h ++ brk
              /\ (brk = [dpiConn_breakExecution (dpiConn c)]
                  \/ brk = [dpiConn_breakExecution (dpiConn c); getError]).
Proof.
  unfold Break. unfold bind at 1, call at 1.
  destruct (negb (succeeded _)).
  - exists [dpiConn_breakExecution (dpiConn c); getError].
    cbv beta iota delta [bind call ret getErr]. simpl.
    rewrite <- app_assoc. auto.
  - exists [dpiConn_breakExecution (dpiConn c)]. unfold ret. simpl. auto.
Qed.

(** The goroutine adds the calls of at most one [st.Break()] to those of
    the computation it watches, somewhere among them, and none when the
    context is never found done. *)
Lemma watch_trace {A} ctx c (m : M A) (T : history -> Prop) :
  trace T m ->
  forall dpi h, exists new brk k,
    snd (watch ctx c m dpi h) = h ++ take k new ++ brk ++ drop k new
    /\ T new /\ breakCalls c brk /\ (Done ctx = None -> brk = []).
Proof.
  intros Hm dpi h. unfold watch. destruct (Done ctx) as [k|].
  - set (dpi' := fun h0 c' => dpi (seen (Break c) dpi (List.length h + k) h0) c').
    destruct (Hm dpi' h) as (new & E & HT).
    destruct (m dpi' h) as [r h']. simpl in E. subst h'. simpl.
    unfold seen. destruct (decide _) as [Hle|Hgt].
    + rewrite take_app, drop_app.
      rewrite take_ge, drop_ge by lia.
      replace (List.length h + k - List.length h)%nat with k by lia.
      destruct (Break_calls c dpi (h ++ take k new)) as (brk & Eb & Hb).
      exists new, brk, k. rewrite Eb. simpl. rewrite <- !app_assoc.
      split; [reflexivity|]. split; [exact HT|].
      split; [right; exact Hb|discriminate].
    + exists new, [], k. rewrite length_app in Hgt.
      rewrite take_ge, drop_ge by lia. rewrite !app_nil_r.
      split; [reflexivity|]. split; [exact HT|].
      split; [left; reflexivity|discriminate].
  - destruct (Hm dpi h) as (new & E & HT).
    exists new, [], 0%nat. rewrite take_0, drop_0. simpl.
    split; [exact E|]. split; [exact HT|]. split; [left|]; reflexivity.
Qed.

(** The calls of [ExecContext], with what [bindVars] returned when the
    statement was run. *)
Lemma ExecContext_calls st ctx args dpi h :
  exists pre post run brk k,
    snd (ExecContext st ctx args dpi h)
    = h ++ (pre ++ post) ++ take k run ++ brk ++ drop k run
    /\ Forall (fun c => argPhaseCall (PlSQLArrays st) (slotsFor st args) c = true) pre
    /\ Forall (fun c => bindCall (existsb hasName args) c = true) post
    /\ (run = []
        \/ exists st',
             bindVars st args dpi h = (Val (st', None), h ++ pre ++ post)
             /\ (run = [executeCall st' (execMode st); getError]
                 \/ run = [executeCall st' (execMode st);
                           dpiStmt_getRowCount (dpiStmt st)]))
    /\ breakCalls (st_conn st) brk
    /\ (Done ctx = None -> brk = []).
Proof.
  unfold ExecContext. destruct (Err ctx).
  { exists [], [], [], [], 0%nat. unfold ret, breakCalls. simpl.
    rewrite app_nil_r. auto 10. }
  unfold bind at 1.
  destruct (bindVars_calls st args dpi h) as (pre & post & E & F & G).
  destruct (bindVars st args dpi h) as [[[st' err]|msg] h1] eqn:Hb;
    simpl in E; subst h1.
  2: { exists pre, post, [], [], 0%nat. unfold breakCalls. simpl.
       rewrite app_nil_r, app_assoc. auto 10. }
  destruct err as [err|].
  { exists pre, post, [], [], 0%nat. unfold ret, breakCalls. simpl.
    rewrite app_nil_r, app_assoc. auto 10. }
  pose proof (bindVars_frame _ _ _ _ _ _ _ Hb) as (_ & Hstmt & Hconn & _).
  destruct (watch_trace ctx (st_conn st') (runExec st') _ (runExec_trace st')
              dpi (h ++ pre ++ post)) as (run & brk & k & E & HT & Hbrk & Hnone).
  exists pre, post, run, brk, k. rewrite E, <- !app_assoc.
  rewrite (execMode_frame _ _ Hconn), Hstmt in HT. rewrite Hconn in Hbrk.
  split; [reflexivity|]. split; [exact F|]. split; [exact G|].
  split; [right; exists st'; auto|]. auto.
Qed.

(** The calls of [QueryContext]. *)
Lemma QueryContext_calls st ctx args dpi h :
  exists pre post run brk k,
    snd (QueryContext st ctx args dpi h)
    = h ++ (pre ++ post) ++ take k run ++ brk ++ drop k run
    /\ Forall (fun c => argPhaseCall (PlSQLArrays st) (slotsFor st args) c = true) pre
    /\ Forall (fun c => bindCall (existsb hasName args) c = true) post
    /\ (run = []
        \/ exists rest,
             run = dpiStmt_execute (dpiStmt st) DPI_MODE_EXEC_DEFAULT :: rest
             /\ Forall (fun c => materialiseCall c = true) rest)
    /\ breakCalls (st_conn st) brk
    /\ (Done ctx = None -> brk = []).
Proof.
  unfold QueryContext. destruct (Err ctx).
  { exists [], [], [], [], 0%nat. unfold ret, breakCalls. simpl.
    rewrite app_nil_r. auto 10. }
  unfold bind at 1.
  destruct (bindVars_calls st args dpi h) as (pre & post & E & F & G).
  destruct (bindVars st args dpi h) as [[[st' err]|msg] h1] eqn:Hb;
    simpl in E; subst h1.
  2: { exists pre, post, [], [], 0%nat. unfold breakCalls. simpl.
       rewrite app_nil_r, app_assoc. auto 10. }
  destruct err as [err|].
  { exists pre, post, [], [], 0%nat. unfold ret, breakCalls. simpl.
    rewrite app_nil_r, app_assoc. auto 10. }
  pose proof (bindVars_frame _ _ _ _ _ _ _ Hb) as (_ & Hstmt & Hconn & _).
  destruct (watch_trace ctx (st_conn st') (runQuery st') _ (runQuery_trace st')
              dpi (h ++ pre ++ post)) as (run & brk & k & E & HT & Hbrk & Hnone).
  exists pre, post, run, brk, k. rewrite E, <- !app_assoc.
  rewrite Hstmt in HT. rewrite Hconn in Hbrk.
  split; [reflexivity|]. split; [exact F|]. split; [exact G|].
  split; [right; exact HT|]. auto.
Qed.



(** X23.  When the statement runs but its row count cannot be read,
    [ExecContext] returns neither a result nor an error: both are nil. *)
Theorem ExecContext_row_count_failure dpi h st ctx args st' h1 :
  Err ctx = None ->
  Done ctx = None ->
  bindVars st args dpi h = (Val (st', None), h1) ->
  let c := executeCall st' (execMode st') in
  succeeded (dpi h1 c) = true ->
  succeeded (dpi (h1 ++ [c]) (dpiStmt_getRowCount (dpiStmt st'))) = false ->
  ExecContext st ctx args dpi h
  = (Val (st', (None, None)), h1 ++ [c; dpiStmt_getRowCount (dpiStmt st')]).
Proof.
  intros Hctx Hdone Hb c Hok Hcount. unfold ExecContext. rewrite Hctx.
  unfold bind at 1. rewrite Hb. cbv beta iota.
  unfold watch. rewrite Hdone. unfold runExec.
  unfold bind at 1, call at 1. fold c. rewrite Hok. cbn [negb].
  unfold bind at 1, call at 1. rewrite Hcount. cbn [negb]. unfold ret.
  rewrite <- app_assoc. reflexivity.
Qed.

Lemma ExecContext_row_count_failure_witness :
  exists st' h1,
    Err Background = None
    /\ Done Background = None
    /\ bindVars (prepared 9) args_scalar nativeNoRowCount [] = (Val (st', None), h1)
    /\ succeeded (nativeNoRowCount h1 (executeCall st' (execMode st'))) = true
    /\ succeeded (nativeNoRowCount (h1 ++ [executeCall st' (execMode st')])
                    (dpiStmt_getRowCount (dpiStmt st'))) = false
    /\ ExecContext (prepared 9) Background args_scalar nativeNoRowCount []
       = (Val (st', (None, None)),
          h1 ++ [executeCall st' (execMode st'); dpiStmt_getRowCount (dpiStmt st')]).
Proof.
  eexists _, _.
  split; [reflexivity|]. split; [reflexivity|]. split; [vm_compute; reflexivity|].
  split; [reflexivity|]. split; [reflexivity|].
  exact (ExecContext_row_count_failure nativeNoRowCount [] (prepared 9) Background
           args_scalar _ _ eq_refl eq_refl eq_refl eq_refl eq_refl).
Defined.

(** ** Batch length and batch mode *)







(** ** The deprecated entry points *)

Lemma bindVars_success_calls dpi h st args st' h' :
  bindVars st args dpi h = (Val (st', None), h') ->
  exists pre,
    h' = h ++ pre ++ (if existsb hasName args
                      then bindByNameCalls (dpiStmt st) (elements (vars st')) args
                      else bindByPosCalls (dpiStmt st) (elements (vars st')))
    /\ Forall (fun c => argPhaseCall (PlSQLArrays st) (slotsFor st args) c = true) pre.
Proof.
  intros H.
  pose proof (bindVars_frame _ _ _ _ _ _ _ H) as (_ & Hstmt & _).
  apply bindVars_inv in H as (_ & _ & named & h1 & Hargs & Hbind).
  set (st0 := set_arrLen (resliced st args) (minimum (sliceArgLens args))) in *.
  assert (dataSliceLen st0 = slotsFor st args) as Hsl by reflexivity.
  rewrite Hsl in Hargs.
  destruct (bindArgs_only (PlSQLArrays st) (slotsFor st args) args st0
              (doExecMany st0) 0%nat false eq_refl dpi h) as (pre & E & F).
  rewrite Hargs in E. simpl in E. subst h1.
  apply bindArgs_named in Hargs; [|reflexivity]. simpl in Hargs. subst named.
  exists pre. split; [|exact F].
  destruct (existsb hasName args); cbn [negb] in Hbind.
  - apply bindByName_ok in Hbind. rewrite drop_0, Hstmt in Hbind.
    rewrite Hbind, <- app_assoc. reflexivity.
  - apply bindByPos_ok in Hbind. rewrite Hstmt in Hbind.
    rewrite Hbind, <- app_assoc. reflexivity.
Qed.

Lemma argPhase_not_by_name flag size c :
  argPhaseCall flag size c = true -> isBindByName c = false.
Proof. destruct c; simpl; congruence. Qed.

Lemma bindCall_not_by_name c : bindCall false c = true -> isBindByName c = false.
Proof. destruct c; simpl; congruence. Qed.

Lemma materialise_not_by_name c : materialiseCall c = true -> isBindByName c = false.
Proof. destruct c; simpl; congruence. Qed.

Lemma argPhase_no_bind flag size c : argPhaseCall flag size c = true -> isBind c = false.
Proof. destruct c; simpl; congruence. Qed.

(** X9.  The deprecated [Exec] and [Query] never bind by name: the
    argument lists they build leave every name empty, so among all the
    native calls they make, whatever the native layer answers, there is no
    [dpiStmt_bindByName].  When the binding of such a list succeeds, its
    calls are those that prepare the arguments, without any bind, followed
    by [dpiStmt_bindByPos] at positions 1, 2, ..., one per value. *)
Theorem Exec_binds_by_position st args dpi h :
  (exists new, snd (Exec st args dpi h) = h ++ new
               /\ Forall (fun c => isBindByName c = false) new)
  /\ (exists new, snd (Query st args dpi h) = h ++ new
                  /\ Forall (fun c => isBindByName c = false) new)
  /\ (forall st' h',
        bindVars st (nargs args) dpi h = (Val (st', None), h') ->
        List.length (elements (vars st')) = List.length args
        /\ exists pre,
             h' = h ++ pre ++ bindByPosCalls (dpiStmt st) (elements (vars st'))
             /\ Forall (fun c => isBind c = false) pre).
Proof.
  split; [|split].
  - unfold Exec.
    destruct (ExecContext_calls st Background (nargs args) dpi h)
      as (pre & post & run & brk & k & E & F & G & Hrun & _ & Hnone).
    rewrite (Hnone eq_refl) in E. simpl in E. rewrite take_drop in E.
    rewrite existsb_hasName_nargs in G.
    exists ((pre ++ post) ++ run). split; [exact E|].
    rewrite !Forall_app. split; [split|].
    + eapply Forall_impl; [exact F|]. intros c. apply argPhase_not_by_name.
    + eapply Forall_impl; [exact G|]. intros c. apply bindCall_not_by_name.
    + destruct Hrun as [-> | (st' & _ & [-> | ->])]; [constructor| |];
        unfold executeCall; destruct (doExecMany st'); repeat constructor.
  - unfold Query.
    destruct (QueryContext_calls st Background (nargs args) dpi h)
      as (pre & post & run & brk & k & E & F & G & Hrun & _ & Hnone).
    rewrite (Hnone eq_refl) in E. simpl in E. rewrite take_drop in E.
    rewrite existsb_hasName_nargs in G.
    exists ((pre ++ post) ++ run). split; [exact E|].
    rewrite !Forall_app. split; [split|].
    + eapply Forall_impl; [exact F|]. intros c. apply argPhase_not_by_name.
    + eapply Forall_impl; [exact G|]. intros c. apply bindCall_not_by_name.
    + destruct Hrun as [-> | (rest & -> & Hrest)]; [constructor|].
      constructor; [reflexivity|].
      eapply Forall_impl; [exact Hrest|]. intros c. apply materialise_not_by_name.
  - intros st' h' H.
    pose proof (bindVars_lengths _ _ _ _ _ _ _ H) as (_ & _ & _ & _ & Hlen).
    unfold nargs in Hlen. rewrite length_imap in Hlen.
    split; [exact Hlen|].
    apply bindVars_success_calls in H as (pre & Hh & F).
    rewrite existsb_hasName_nargs in Hh. exists pre. split; [exact Hh|].
    eapply Forall_impl; [exact F|]. intros c. apply argPhase_no_bind.
Qed.

Lemma Exec_binds_by_position_witness :
  exists st' h',
    bindVars (prepared 9) (nargs [VInt64 5; VString "abc"]) nativeOK []
    = (Val (st', None), h')
    /\ List.length (elements (vars st')) = List.length [VInt64 5; VString "abc"]
    /\ exists pre,
         h' = [] ++ pre ++ bindByPosCalls (dpiStmt (prepared 9)) (elements (vars st'))
         /\ Forall (fun c => isBind c = false) pre.
Proof.
  eexists _, _. split; [vm_compute; reflexivity|].
  exact (proj2 (proj2 (Exec_binds_by_position (prepared 9) [VInt64 5; VString "abc"]
                         nativeOK [])) _ _ eq_refl).
Defined.

(** ** Delivering a row *)

Lemma fillDest_delivered r cols : forall dest i dpi h dest' h',
  fillDest r dest i cols dpi h = (Val (dest', None), h') ->
  List.length dest' = List.length dest
  /\ (cols = [] \/ (i + List.length cols <= List.length dest)%nat).
Proof.
  induction cols as [|col cols IH]; intros dest i dpi h dest' h' H.
  - simpl in H. unfold ret in H. inversion H; subst. auto.
  - cbn [fillDest] in H.
    destruct (r_data r !! i ≫= _) as [[v pos]|] in H; [|discriminate].
    unfold bind at 1, call at 1 in H. unfold bind at 1 in H.
    match type of H with
    | context [if ?b then ret (inl DNil) else convert col ?d] =>
        destruct ((if b then ret (inl DNil) else convert col d) dpi (h ++ [dpiData_get v pos]))
          as [[[x|err]|msg] h1] in H
    end; try discriminate.
    destruct (decide (i < List.length dest)%nat) as [Hi|Hi]; [|discriminate].
    apply IH in H. rewrite length_insert in H. destruct H as [Hl [->|Hc]].
    + split; [exact Hl|]. right. simpl. lia.
    + split; [exact Hl|]. right. simpl. lia.
Qed.

Lemma fillDest_delivered_width r cols dest i dpi h dest' h' :
  fillDest r dest i cols dpi h = (Val (dest', None), h') ->
  i = 0%nat ->
  (List.length cols <= List.length dest)%nat.
Proof.
  intros H ->. apply fillDest_delivered in H. destruct H as [_ [->|H]]; simpl; lia.
Qed.

(** X24.  A next-row request that returns no error has filled a
    destination at least as wide as the column list and kept its length;
    the cursor keeps its columns and is not finished.  When the row was
    already buffered the cursor has moved on by exactly one row: the buffer
    row index is one more and [fetched] one less, as 32-bit unsigned
    values. *)
Theorem Next_delivers_one_row dpi h r dest r' dest' h' :
  Next r dest dpi h = (Val (r', dest', None), h') ->
  finished r = false /\ finished r' = false
  /\ columns r' = columns r
  /\ List.length dest' = List.length dest
  /\ (List.length (columns r) <= List.length dest)%nat
  /\ (fetched r <> 0 ->
      bufferRowIndex r' = u32 (bufferRowIndex r + 1)
      /\ fetched r' = u32 (fetched r - 1)).
Proof.
  unfold Next. destruct (finished r) eqn:Hfin; [discriminate|].
  destruct (Z.eqb_spec (fetched r) 0) as [Hz|Hnz].
  - rewrite bind_assoc. unfold bind at 1, call at 1.
    set (resp := dpi h _). set (h1 := h ++ _).
    set (r1 := match resp with
               | RFetch _ bri f _ => set_fetch r (u32 bri) (u32 f) false
               | _ => r
               end).
    assert (finished r1 = false /\ columns r1 = columns r) as [Hf1 Hc1]
        by (subst r1; destruct resp; simpl; auto).
    destruct (negb (succeeded resp)).
    { cbv beta iota delta [bind call ret getErr]. discriminate. }
    destruct (fetched r1 =? 0).
    { cbv beta iota delta [bind call ret getErr]. discriminate. }
    unfold bind at 1. unfold ret at 1. cbv beta iota.
    unfold bind at 1.
    destruct (fillDest r1 dest 0 (columns r1) dpi h1) as [[[d1 [e1|]]|msg] h2] eqn:F;
      unfold ret; try discriminate.
    intros H. inversion H; subst. simpl.
    pose proof (fillDest_delivered _ _ _ _ _ _ _ _ F) as [Hl _].
    pose proof (fillDest_delivered_width _ _ _ _ _ _ _ _ F eq_refl) as Hw.
    rewrite Hc1 in Hw. rewrite Hf1. repeat split; auto; contradiction.
  - unfold bind at 1. unfold ret at 1. cbv beta iota.
    unfold bind at 1.
    destruct (fillDest r dest 0 (columns r) dpi h) as [[[d1 [e1|]]|msg] h2] eqn:F;
      unfold ret; try discriminate.
    intros H. inversion H; subst. simpl.
    pose proof (fillDest_delivered _ _ _ _ _ _ _ _ F) as [Hl _].
    pose proof (fillDest_delivered_width _ _ _ _ _ _ _ _ F eq_refl) as Hw.
    rewrite Hfin. repeat split; auto.
Qed.

Lemma Next_delivers_one_row_witness :
  exists r' dest' h',
    Next buffered2 [DNil; DNil; DNil] nativeNull [] = (Val (r', dest', None), h')
    /\ finished buffered2 = false /\ finished r' = false
    /\ columns r' = columns buffered2
    /\ List.length dest' = 3%nat
    /\ (List.length (columns buffered2) <= 3)%nat
    /\ (fetched buffered2 <> 0 ->
        bufferRowIndex r' = u32 (bufferRowIndex buffered2 + 1)
        /\ fetched r' = u32 (fetched buffered2 - 1)).
Proof.
  eexists _, _, _. split; [vm_compute; reflexivity|].
  exact (Next_delivers_one_row nativeNull [] buffered2 [DNil; DNil; DNil] _ _ _ eq_refl).
Defined.

(** X25.  A next-row request on a cursor that holds a buffered row and
    that returns an error leaves the cursor exactly as it was: the row
    that could not be materialised is not consumed. *)
Theorem Next_error_keeps_row dpi h r dest r' dest' e h' :
  finished r = false ->
  fetched r <> 0 ->
  Next r dest dpi h = (Val (r', dest', Some e), h') ->
  r' = r.
Proof.
  intros Hfin Hnz. unfold Next. rewrite Hfin.
  destruct (Z.eqb_spec (fetched r) 0) as [Hz|_]; [contradiction|].
  unfold bind at 1. unfold ret at 1. cbv beta iota.
  unfold bind at 1.
  destruct (fillDest r dest 0 (columns r) dpi h) as [[[d1 [e1|]]|msg] h2];
    unfold ret; try discriminate.
  intros H. inversion H; reflexivity.
Qed.

Lemma Next_error_keeps_row_witness :
  exists r' dest' e h',
    finished buffered2 = false
    /\ fetched buffered2 <> 0
    /\ Next buffered2 [DNil; DNil] nativeOK [] = (Val (r', dest', Some e), h')
    /\ r' = buffered2.
Proof.
  eexists _, _, _, _. split; [reflexivity|]. split; [discriminate|].
  split; [vm_compute; reflexivity|].
  exact (Next_error_keeps_row nativeOK [] buffered2 [DNil; DNil] _ _ _ _
           eq_refl ltac:(discriminate) eq_refl).
Defined.
